(** * chat-app-server: retrieval engine and tool dispatcher

    A shallow embedding of the service layer of the chat server.

    - [Chunker], [Similarity], [Services]: src/services.ts over the
      in-process vector store ([chunkText], [cosineSimilarity],
      [handleFileUpload], [handleChat], [handleGenerate]);
    - [ToolServices], [IndexUpload]: the service layer with tool calls
      over the managed vector index ([handleChat], [handleGenerate],
      [handleFileUpload]);
    - [Token]: utils/token.ts ([getToken]);
    - [Server]: the HTTP handlers of index.ts;
    - the function declarations of constants/tools.ts.

    Conventions.

    - A JavaScript string is a [string]; [length] and [substring] count
      its characters as code units.
    - A JavaScript number is an exact real or [NaN], the value that
      arithmetic on [undefined] yields.  Rounding and overflow of IEEE
      doubles are not represented.
    - Arrays that are updated in place live in a heap of array cells, so
      that [push] and [sort] are seen through every alias of a cell.
    - [sort] leaves an array of fewer than 64 elements in the order that
      the engine of Node.js computes, also when the comparator answers
      [NaN]; a longer array is left in the stable sorted order.
    - An array grows without bound, except in [chunkText_within], which
      has the [RangeError] of a [push] on a full array.
    - A call to a collaborator (embedding and generation services, vector
      index, weather and meeting services, PDF parser, UUID generator) is
      answered by an environment, which may make the call fail; the calls
      made are recorded in a trace.  Logging is left out. *)

From Stdlib Require Import ZArith List String Ascii Bool Lia.
From Stdlib Require Import Reals Lra.
From Stdlib Require Import Sorted Permutation.
Import ListNotations.

Set Implicit Arguments.

(** ** JavaScript strings *)

Module JsString.

Local Open Scope Z_scope.

(** [s.length] *)
Definition length (s : string) : Z := Z.of_nat (String.length s).

(** The clamping step of [String.prototype.substring]:
    [min(max(x, 0), len)]. *)
Definition clamp (len x : Z) : Z := Z.min (Z.max x 0) len.

(** [s.substring(start, end)] on integer arguments: both indices are
    clamped to [0 .. s.length] and swapped when [start > end]. *)
Definition substring (s : string) (start end_ : Z) : string :=
  let len := length s in
  let finalStart := clamp len start in
  let finalEnd := clamp len end_ in
  let from := Z.min finalStart finalEnd in
  let to := Z.max finalStart finalEnd in
  String.substring (Z.to_nat from) (Z.to_nat (to - from)) s.

(** [chunks.join('')] *)
Definition concat (chunks : list string) : string :=
  String.concat EmptyString chunks.

End JsString.

(** ** The chunker ([chunkText], identical in both revisions) *)

Module Chunker.

Local Open Scope Z_scope.

(** The [for] loop of [chunkText]: [i] is the loop index, [chunks] the
    array built so far.  The chunk size is a number of code units: it and
    the index range over the integers.  One unit of fuel is spent per
    evaluation of the loop test; [None] means that the fuel ran out before
    the test failed. *)
Fixpoint chunkText_loop (fuel : nat) (text : string) (chunkSize i : Z)
    (chunks : list string) : option (list string) :=
  match fuel with
  | O => None
  | S fuel' =>
      if i <? JsString.length text
      then chunkText_loop fuel' text chunkSize (i + chunkSize)
             (chunks ++ [JsString.substring text i (i + chunkSize)])
      else Some chunks
  end.

(** [chunkText(text, chunkSize)] run with a given amount of fuel. *)
Definition chunkText_fuel (fuel : nat) (text : string) (chunkSize : Z)
    : option (list string) :=
  chunkText_loop fuel text chunkSize 0 [].

(** [chunkText(text, chunkSize)] with the fuel that suffices whenever the
    loop index advances: one test per code unit and the final one. *)
Definition chunkText (text : string) (chunkSize : Z) : option (list string) :=
  chunkText_fuel (S (String.length text)) text chunkSize.

(** [chunkText(text)]: the default [chunkSize = 1000]. *)
Definition chunkText_default (text : string) : option (list string) :=
  chunkText text 1000.

(** In the definitions above the array [chunks] grows without bound.  An
    engine lets an array hold a limited number of elements, [2^32 - 1] at
    most, and [push] on a full array throws a [RangeError] (Invalid array
    length).  The definitions below take that number, [capacity], into
    account; they agree with the ones above whenever the chunks fit. *)

(** How a call of [chunkText] ends: with the array of chunks, or with the
    [RangeError] of a [push]. *)
Inductive completion : Type :=
| Chunks (chunks : list string)
| RangeError.

(** The loop of [chunkText] over an array of limited length. *)
Fixpoint chunkText_loop_within (capacity : Z) (fuel : nat) (text : string)
    (chunkSize i : Z) (chunks : list string) : option completion :=
  match fuel with
  | O => None
  | S fuel' =>
      if i <? JsString.length text
      then
        let chunk := JsString.substring text i (i + chunkSize) in
        if Z.of_nat (List.length chunks) <? capacity
        then chunkText_loop_within capacity fuel' text chunkSize
               (i + chunkSize) (chunks ++ [chunk])
        else Some RangeError
      else Some (Chunks chunks)
  end.

(** [chunkText(text, chunkSize)] over an array of limited length, run with
    a given amount of fuel. *)
Definition chunkText_within (capacity : Z) (fuel : nat) (text : string)
    (chunkSize : Z) : option completion :=
  chunkText_loop_within capacity fuel text chunkSize 0 [].

End Chunker.

(** ** JavaScript numbers *)

Module JsNumber.

Local Open Scope R_scope.

(** A number is an exact real or [NaN]. *)
Inductive number : Type :=
| Num (r : R)
| NaN.

(** An operand read from an array: [undefined] (index out of range)
    converts to [NaN]. *)
Definition of_element (o : option R) : number :=
  match o with
  | Some r => Num r
  | None => NaN
  end.

Definition add (a b : number) : number :=
  match a, b with
  | Num x, Num y => Num (x + y)
  | _, _ => NaN
  end.

Definition sub (a b : number) : number :=
  match a, b with
  | Num x, Num y => Num (x - y)
  | _, _ => NaN
  end.

Definition mul (a b : number) : number :=
  match a, b with
  | Num x, Num y => Num (x * y)
  | _, _ => NaN
  end.

(** [a / b].  A zero divisor is outside the model (the quotient would be
    an infinity or [NaN]); it yields [NaN] here, and the one division of
    the program, in [cosineSimilarity], is guarded against it. *)
Definition div (a b : number) : number :=
  match a, b with
  | Num x, Num y => if Req_dec_T y 0 then NaN else Num (x / y)
  | _, _ => NaN
  end.

(** [Math.sqrt] *)
Definition sqrt (a : number) : number :=
  match a with
  | Num x => if Rlt_dec x 0 then NaN else Num (R_sqrt.sqrt x)
  | NaN => NaN
  end.

(** [a === b]: never true of [NaN]. *)
Definition strict_eq (a b : number) : bool :=
  match a, b with
  | Num x, Num y => if Req_dec_T x y then true else false
  | _, _ => false
  end.

(** [a > 0], the test a sort makes on a comparator's result; [NaN]
    counts as [0]. *)
Definition positive (a : number) : bool :=
  match a with
  | Num x => if Rlt_dec 0 x then true else false
  | NaN => false
  end.

(** [a < 0], the test the engine's sort makes on a comparator's result;
    [NaN] counts as [0]. *)
Definition negative (a : number) : bool :=
  match a with
  | Num x => if Rlt_dec x 0 then true else false
  | NaN => false
  end.

(** [a >= b]: false when either side is [NaN]. *)
Definition ge (a b : number) : Prop :=
  match a, b with
  | Num x, Num y => x >= y
  | _, _ => False
  end.

(** Sameness of two numbers as values ([Object.is] up to the sign of
    zero): reflexive on [NaN]. *)
Definition same (a b : number) : bool :=
  match a, b with
  | Num x, Num y => if Req_dec_T x y then true else false
  | NaN, NaN => true
  | _, _ => false
  end.

End JsNumber.

(** ** JavaScript arrays as values *)

Module JsArray.

Import JsNumber.

(** [arr.reduce((acc, x, i) => f(acc, x, i), init)], from index [i] on. *)
Fixpoint reduce_from (A B : Type) (f : B -> A -> nat -> B) (arr : list A)
    (i : nat) (acc : B) : B :=
  match arr with
  | [] => acc
  | x :: arr' => reduce_from f arr' (S i) (f acc x i)
  end.

Definition reduce (A B : Type) (f : B -> A -> nat -> B) (arr : list A)
    (init : B) : B :=
  reduce_from f arr 0 init.

(** One insertion of a stable insertion sort: [x] moves right past every
    element that the comparator puts strictly before it. *)
Fixpoint insert (A : Type) (comparefn : A -> A -> number) (x : A)
    (sorted : list A) : list A :=
  match sorted with
  | [] => [x]
  | y :: sorted' =>
      if positive (comparefn x y)
      then y :: insert comparefn x sorted'
      else x :: sorted
  end.

(** The stable sorted order, computed by insertion.  The language requires
    [sort] to be stable and, for a consistent comparator, to sort; every
    such sort computes this list. *)
Fixpoint insertion_sort (A : Type) (comparefn : A -> A -> number)
    (arr : list A) : list A :=
  match arr with
  | [] => []
  | x :: arr' => insert comparefn x (insertion_sort comparefn arr')
  end.

(** For an inconsistent comparator the language leaves the order to the
    engine.  The server runs on Node.js, whose engine (V8) sorts an array
    of fewer than 64 elements in two steps: it takes the run that starts
    the array, reversing it when it is strictly descending, and then puts
    the remaining elements into place one by one, each at the point found
    by a binary search.  The three definitions below follow the engine's
    [CountAndMakeRun] and [BinaryInsertionSort]. *)

(** The loop of [CountAndMakeRun]: the number of elements of [rest] that
    continue the run whose last element is [previousElement]. *)
Fixpoint run_rest (A : Type) (comparefn : A -> A -> number)
    (isDescending : bool) (previousElement : A) (rest : list A) : nat :=
  match rest with
  | [] => 0
  | currentElement :: rest' =>
      let order := comparefn currentElement previousElement in
      if (if isDescending then negb (negative order) else negative order)
      then 0
      else S (run_rest comparefn isDescending currentElement rest')
  end.

(** [CountAndMakeRun(0, length)]: the array after the run at its start has
    been put in order, and the length of that run. *)
Definition count_and_make_run (A : Type) (comparefn : A -> A -> number)
    (arr : list A) : list A * nat :=
  match arr with
  | elementHigh :: elementLow :: rest =>
      let isDescending := negative (comparefn elementLow elementHigh) in
      let runLength :=
        S (S (run_rest comparefn isDescending elementLow rest)) in
      if isDescending
      then (rev (firstn runLength arr) ++ skipn runLength arr, runLength)
      else (arr, runLength)
  | _ => (arr, List.length arr)
  end.

(** The binary search of [BinaryInsertionSort] for the place of [pivot]
    between the indices [left] and [right] of [work]; one unit of fuel per
    probe. *)
Fixpoint insertion_point (A : Type) (comparefn : A -> A -> number)
    (fuel : nat) (pivot : A) (work : list A) (left right : nat) : nat :=
  match fuel with
  | O => left
  | S fuel' =>
      if (left <? right)%nat
      then
        let mid := (left + Nat.div2 (right - left))%nat in
        if negative (comparefn pivot (nth mid work pivot))
        then insertion_point comparefn fuel' pivot work left mid
        else insertion_point comparefn fuel' pivot work (S mid) right
      else left
  end.

(** [BinaryInsertionSort]: the elements of [rest] are inserted one by one
    into [sorted], the part of the array before them. *)
Fixpoint binary_insertion_sort (A : Type) (comparefn : A -> A -> number)
    (sorted rest : list A) : list A :=
  match rest with
  | [] => sorted
  | pivot :: rest' =>
      let left :=
        insertion_point comparefn (List.length sorted) pivot sorted 0
          (List.length sorted) in
      binary_insertion_sort comparefn
        (firstn left sorted ++ pivot :: skipn left sorted) rest'
  end.

(** The order [arr.sort(comparefn)] leaves the elements in.  Below 64
    elements it is the order the engine computes, whatever the comparator
    answers.  From 64 elements on the engine merges sorted runs; for a
    consistent comparator the outcome is the stable sorted order, which is
    what is given here, and the order that an inconsistent comparator
    would yield on such an array is not represented. *)
Definition sort (A : Type) (comparefn : A -> A -> number) (arr : list A)
    : list A :=
  if (List.length arr <? 64)%nat
  then
    let (work, runLength) := count_and_make_run comparefn arr in
    binary_insertion_sort comparefn (firstn runLength work)
      (skipn runLength work)
  else insertion_sort comparefn arr.

(** A relative index of [slice]: negative indices count from the end. *)
Definition relative (len x : Z) : Z :=
  if (x <? 0)%Z then Z.max (len + x) 0 else Z.min x len.

(** [arr.slice(start, end)] *)
Definition slice (A : Type) (arr : list A) (start end_ : Z) : list A :=
  let len := Z.of_nat (List.length arr) in
  let k := relative len start in
  let final := relative len end_ in
  firstn (Z.to_nat (Z.max (final - k) 0)) (skipn (Z.to_nat k) arr).

End JsArray.

(** ** The similarity ranker ([cosineSimilarity], src/services.ts) *)

Module Similarity.

Import JsNumber.

(** [cosineSimilarity(vecA, vecB)] on arrays of real numbers. *)
Definition cosineSimilarity (vecA vecB : list R) : number :=
  let dotProduct :=
    JsArray.reduce
      (fun sum a i => add sum (mul (Num a) (of_element (nth_error vecB i))))
      vecA (Num 0) in
  let magnitudeA :=
    sqrt (JsArray.reduce (fun sum a _ => add sum (mul (Num a) (Num a)))
            vecA (Num 0)) in
  let magnitudeB :=
    sqrt (JsArray.reduce (fun sum b _ => add sum (mul (Num b) (Num b)))
            vecB (Num 0)) in
  if strict_eq magnitudeA (Num 0) || strict_eq magnitudeB (Num 0)
  then Num 0
  else div dotProduct (mul magnitudeA magnitudeB).

End Similarity.

(** ** Sums used to state the properties of the ranker *)

Module Algebra.

Local Open Scope R_scope.

(** The sum of the squares of the components. *)
Definition sum_squares (v : list R) : R :=
  fold_right (fun x s => x * x + s) 0 v.

(** The sum of the products of the components at equal indices. *)
Fixpoint sum_products (a b : list R) : R :=
  match a, b with
  | x :: a', y :: b' => x * y + sum_products a' b'
  | _, _ => 0
  end.

(** All components are zero. *)
Definition zero_vector (v : list R) : Prop := Forall (fun x => x = 0) v.

End Algebra.

(** ** JSON values, errors and the data exchanged with the services *)

#[local] Set Warnings "-register-all".

(** A JavaScript value as it comes out of [response.json()], or
[undefined]. *)
Inductive json : Type :=
| JUndefined
| JNull
| JBool (b : bool)
| JNumber (x : R)
| JString (s : string)
| JArray (items : list json)
| JObject (fields : list (string * json)).

(** What a [throw] or a rejected promise carries: the [TypeError] of
reading a property of [undefined] or [null], or the reason a collaborator
gives for its failure. *)
Inductive error : Type :=
| TypeError (property : string)
| Rejected (reason : string).

Module Json.

(** The value of property [key] among the fields of an object. *)
Fixpoint lookup (key : string) (fields : list (string * json)) : json :=
  match fields with
  | [] => JUndefined
  | (k, v) :: fields' => if String.eqb key k then v else lookup key fields'
  end.

(** [value.key]: a [TypeError] on [undefined] and [null]. *)
Definition get (value : json) (key : string) : error + json :=
  match value with
  | JUndefined | JNull => inl (TypeError key)
  | JObject fields => inr (lookup key fields)
  | _ => inr JUndefined
  end.

(** A text that may be [undefined], as a value. *)
Definition of_text (text : option string) : json :=
  match text with
  | Some s => JString s
  | None => JUndefined
  end.

End Json.

(** An entry of the in-process store ([interface Vector]); [similarity] is
the property that the retrieval adds to its scored copies and that the
stored entries lack. *)
Module Vector.

Record t : Type := make {
  id : string;
  embedding : list R;
  text : string;
  documentId : string;
  similarity : option JsNumber.number
}.

(** [{ ...vector, similarity: s }] *)
Definition with_similarity (vector : t) (s : JsNumber.number) : t :=
  {| id := id vector;
     embedding := embedding vector;
     text := text vector;
     documentId := documentId vector;
     similarity := Some s |}.

(** [vector.similarity] as an operand: [undefined] converts to [NaN]. *)
Definition score (vector : t) : JsNumber.number :=
  match similarity vector with
  | Some s => s
  | None => JsNumber.NaN
  end.

End Vector.

(** constants/tools.ts: the declarations offered to the model.  The
parameter schema is kept as the list of required property names. *)
Module FunctionDeclaration.

Record t : Type := make {
  name : string;
  description : string;
  required : list string
}.

End FunctionDeclaration.

Definition weatherFunctionDeclaration : FunctionDeclaration.t :=
  {| FunctionDeclaration.name := "get_current_temperature";
     FunctionDeclaration.description :=
       "Gets the current temperature for a given location.";
     FunctionDeclaration.required := ["location"%string] |}.

Definition zoomFunctionDeclaration : FunctionDeclaration.t :=
  {| FunctionDeclaration.name := "create_zoom_meeting";
     FunctionDeclaration.description := "Create a zoom meeting.";
     FunctionDeclaration.required :=
       ["topic"; "start_time"; "meeting_invitees"]%string |}.

Definition ragFunctionDeclaration : FunctionDeclaration.t :=
  {| FunctionDeclaration.name := "rag_intro_llm_prompt_engineering";
     FunctionDeclaration.description :=
       "If the user's queries are all about llm prompt engineering.";
     FunctionDeclaration.required := [] |}.

(** A function call requested by the model. *)
Module FunctionCall.

Record t : Type := make {
  name : string;
  args : json
}.

End FunctionCall.

(** A part of a conversation turn: [{ text }] or
[{ functionResponse: { name, response: { result } } }]. *)
Inductive Part : Type :=
| TextPart (text : string)
| FunctionResponsePart (name : string) (result : json).

(** A conversation turn: [{ parts, role }]. *)
Module Content.

Record t : Type := make {
  parts : list Part;
  role : option string
}.

End Content.

(** The [contents] of a generation request: a prompt string or a list of
turns. *)
Inductive Contents : Type :=
| Prompt (prompt : string)
| Turns (turns : list Content.t).

Inductive HarmCategory : Type :=
| HARM_CATEGORY_HARASSMENT
| HARM_CATEGORY_HATE_SPEECH
| HARM_CATEGORY_SEXUALLY_EXPLICIT
| HARM_CATEGORY_DANGEROUS_CONTENT.

Inductive HarmBlockThreshold : Type :=
| BLOCK_MEDIUM_AND_ABOVE
| OFF.

(** The [config] of a generation request: [generationConfig] spread, the
safety settings, and the optional system instruction and tools. *)
Module Config.

Record t : Type := make {
  systemInstruction : option string;
  temperature : R;
  topK : Z;
  topP : Z;
  maxOutputTokens : Z;
  safetySettings : list (HarmCategory * HarmBlockThreshold);
  tools : list FunctionDeclaration.t
}.

End Config.

(** What a generation call answers: [response.text] and
[response.functionCalls]. *)
Module Response.

Record t : Type := make {
  text : option string;
  functionCalls : option (list FunctionCall.t)
}.

End Response.

(** ** The environment *)

(** A call to a collaborator together with its result: either the value it
resolved to or the error it failed with. *)
Inductive event : Type :=
| EmbedContent (model text taskType : string)
    (outputDimensionality : option Z) (result : error + list R)
| GenerateContent (model : string) (contents : Contents) (config : Config.t)
    (result : error + Response.t)
| PdfParse (fileBuffer : string) (result : error + string)
| Uuidv4 (result : string)
| IndexQuery (vector : list R) (topK : Z) (includeMetadata : bool)
    (result : error + option (list (option string)))
| FetchWeather (location : json) (result : error + json)
| FetchZoomToken (result : error + json)
| FetchZoomMeeting (access_token topic meeting_invitees start_time : json)
    (result : error + json).

(** The collaborators.  Each one answers from the calls made so far and
the arguments of the call.  [systemInstruction] is the string computed
when the module is loaded. *)
Module Env.

Record t : Type := make {
  systemInstruction : string;
  embedContent :
    list event -> string -> string -> string -> option Z -> error + list R;
  generateContent :
    list event -> string -> Contents -> Config.t -> error + Response.t;
  pdfParse : list event -> string -> error + string;
  uuidv4 : list event -> string;
  indexQuery :
    list event -> list R -> Z -> bool ->
    error + option (list (option string));
  fetchWeather : list event -> json -> error + json;
  fetchZoomToken : list event -> error + json;
  fetchZoomMeeting :
    list event -> json -> json -> json -> json -> error + json
}.

End Env.

(** ** Requests as computations *)

(** The arrays that are shared and updated in place, and the calls made.
The entries themselves are values: the program assigns to no property of
an entry and to no element of an embedding. *)
Module World.

Record t : Type := make {
  heap : list (list Vector.t);
  trace : list event
}.

End World.

(** How a computation ends; [Diverged] is a loop that ran out of fuel. *)
Inductive outcome (A : Type) : Type :=
| Returned (a : A)
| Thrown (e : error)
| Diverged.

Arguments Returned {A} a.
Arguments Thrown {A} e.
Arguments Diverged {A}.

Definition M (A : Type) : Type := Env.t -> World.t -> outcome A * World.t.

Definition ret (A : Type) (a : A) : M A := fun _ w => (Returned a, w).

Definition throw (A : Type) (e : error) : M A := fun _ w => (Thrown e, w).

Arguments throw {A} e.

Definition bind (A B : Type) (m : M A) (k : A -> M B) : M B :=
  fun env w =>
    match m env w with
    | (Returned a, w') => k a env w'
    | (Thrown e, w') => (Thrown e, w')
    | (Diverged, w') => (Diverged, w')
    end.

Notation "x <- m ;; k" := (bind m (fun x => k))
  (at level 61, m at next level, right associativity).

(** [try { m } catch (error) { handler(error) }] *)
Definition try_catch (A : Type) (m : M A) (handler : error -> M A) : M A :=
  fun env w =>
    match m env w with
    | (Thrown e, w') => handler e env w'
    | r => r
    end.

(** A value that is an error or a result, thrown or returned. *)
Definition lift (A : Type) (r : error + A) : M A :=
  match r with
  | inl e => throw e
  | inr a => ret a
  end.

(** A loop that needed fuel. *)
Definition lift_fuel (A : Type) (r : option A) : M A :=
  fun _ w =>
    match r with
    | Some a => (Returned a, w)
    | None => (Diverged, w)
    end.

(** An awaited call: the collaborator answers, the call is recorded. *)
Definition external (A : Type) (ask : Env.t -> list event -> error + A)
    (record : error + A -> event) : M A :=
  fun env w =>
    let r := ask env (World.trace w) in
    let w' := {| World.heap := World.heap w;
                 World.trace := World.trace w ++ [record r] |} in
    match r with
    | inl e => (Thrown e, w')
    | inr a => (Returned a, w')
    end.

Definition embedContent (model text taskType : string)
    (outputDimensionality : option Z) : M (list R) :=
  external
    (fun env tr => Env.embedContent env tr model text taskType
                     outputDimensionality)
    (EmbedContent model text taskType outputDimensionality).

Definition generateContent (model : string) (contents : Contents)
    (config : Config.t) : M Response.t :=
  external (fun env tr => Env.generateContent env tr model contents config)
    (GenerateContent model contents config).

Definition pdfParse (fileBuffer : string) : M string :=
  external (fun env tr => Env.pdfParse env tr fileBuffer) (PdfParse fileBuffer).

Definition uuidv4 : M string :=
  fun env w =>
    let r := Env.uuidv4 env (World.trace w) in
    (Returned r, {| World.heap := World.heap w;
                    World.trace := World.trace w ++ [Uuidv4 r] |}).

Definition indexQuery (vector : list R) (topK : Z) (includeMetadata : bool)
    : M (option (list (option string))) :=
  external (fun env tr => Env.indexQuery env tr vector topK includeMetadata)
    (IndexQuery vector topK includeMetadata).

Definition fetchWeather (location : json) : M json :=
  external (fun env tr => Env.fetchWeather env tr location)
    (FetchWeather location).

Definition fetchZoomToken : M json :=
  external (fun env tr => Env.fetchZoomToken env tr) FetchZoomToken.

Definition fetchZoomMeeting (access_token topic meeting_invitees
    start_time : json) : M json :=
  external
    (fun env tr => Env.fetchZoomMeeting env tr access_token topic
                     meeting_invitees start_time)
    (FetchZoomMeeting access_token topic meeting_invitees start_time).

(** The system instruction computed at load time. *)
Definition systemInstruction : M string :=
  fun env w => (Returned (Env.systemInstruction env), w).

(** *** Array cells *)

Definition ref : Type := nat.

Definition read_array (r : ref) : M (list Vector.t) :=
  fun _ w => (Returned (nth r (World.heap w) []), w).

Fixpoint update (A : Type) (l : list A) (i : nat) (x : A) : list A :=
  match l, i with
  | [], _ => []
  | _ :: l', O => x :: l'
  | y :: l', S i' => y :: update l' i' x
  end.

Definition write_array (r : ref) (arr : list Vector.t) : M unit :=
  fun _ w =>
    (Returned tt, {| World.heap := update (World.heap w) r arr;
                     World.trace := World.trace w |}).

(** A new array. *)
Definition alloc_array (arr : list Vector.t) : M ref :=
  fun _ w =>
    (Returned (List.length (World.heap w)),
     {| World.heap := World.heap w ++ [arr]; World.trace := World.trace w |}).

(** [r.push(x)]: in place. *)
Definition array_push (r : ref) (x : Vector.t) : M unit :=
  arr <- read_array r ;;
  write_array r (arr ++ [x]).

(** [r.map(f)]: a new array. *)
Definition array_map (r : ref) (f : Vector.t -> Vector.t) : M ref :=
  arr <- read_array r ;;
  alloc_array (List.map f arr).

(** [r.sort(comparefn)]: in place; the result is [r] itself. *)
Definition array_sort (r : ref)
    (comparefn : Vector.t -> Vector.t -> JsNumber.number) : M ref :=
  arr <- read_array r ;;
  _ <- write_array r (JsArray.sort comparefn arr) ;;
  ret r.

(** [r.slice(start, end)]: a new array. *)
Definition array_slice (r : ref) (start end_ : Z) : M ref :=
  arr <- read_array r ;;
  alloc_array (JsArray.slice arr start end_).

(** [for (const x of xs) body(x)] *)
Fixpoint for_of (A : Type) (xs : list A) (body : A -> M unit) : M unit :=
  match xs with
  | [] => ret tt
  | x :: xs' => _ <- body x ;; for_of xs' body
  end.

(** The line feed character, and [texts.join(separator)]. *)
Definition LF : string := String (ascii_of_nat 10) EmptyString.

Definition join (texts : list string) (separator : string) : string :=
  String.concat separator texts.

(** The prompt template of [handleChat] (the same in both revisions). *)
Definition prompt_template (context query : string) : string :=
  (LF ++ "        Based on the following context, please answer the user's question." ++ LF
   ++ "        If the context does not contain the answer, say that you don't have enough information." ++ LF
   ++ LF
   ++ "        CONTEXT:" ++ LF
   ++ "        " ++ context ++ LF
   ++ LF
   ++ "        QUESTION:" ++ LF
   ++ "        " ++ query ++ LF
   ++ "    ")%string.

(** The separator between the chunks of the context. *)
Definition context_separator : string :=
  (LF ++ LF ++ "---" ++ LF ++ LF)%string.

(** [generationConfig] spread into a config, with the given settings. *)
Definition config_with (systemInstruction : option string)
    (safetySettings : list (HarmCategory * HarmBlockThreshold))
    (tools : list FunctionDeclaration.t) : Config.t :=
  {| Config.systemInstruction := systemInstruction;
     Config.temperature := (9 / 10)%R;
     Config.topK := 1;
     Config.topP := 1;
     Config.maxOutputTokens := 2048;
     Config.safetySettings := safetySettings;
     Config.tools := tools |}.

(** ** src/services.ts: the service layer over the in-process store *)

Module Services.

Definition safetySettings : list (HarmCategory * HarmBlockThreshold) :=
  [ (HARM_CATEGORY_HARASSMENT, BLOCK_MEDIUM_AND_ABOVE);
    (HARM_CATEGORY_HATE_SPEECH, BLOCK_MEDIUM_AND_ABOVE);
    (HARM_CATEGORY_SEXUALLY_EXPLICIT, BLOCK_MEDIUM_AND_ABOVE);
    (HARM_CATEGORY_DANGEROUS_CONTENT, BLOCK_MEDIUM_AND_ABOVE) ].

(** [const vectorStore: Vector[] = []]: the first array of the module. *)
Definition vectorStore : ref := 0%nat.

(** The heap when the module has been loaded. *)
Definition loaded : World.t := {| World.heap := [[]]; World.trace := [] |}.

(** The body of the loop of [handleFileUpload] over the chunks: embed the
chunk and push the new entry. *)
Definition store_chunk (documentId chunk : string) : M unit :=
  embedding <- embedContent "gemini-embedding-001" chunk
                 "RETRIEVAL_DOCUMENT" None ;;
  id <- uuidv4 ;;
  array_push vectorStore
    {| Vector.id := id;
       Vector.embedding := embedding;
       Vector.text := chunk;
       Vector.documentId := documentId;
       Vector.similarity := None |}.

(** [handleFileUpload(fileBuffer, originalname)] *)
Definition handleFileUpload (fileBuffer originalname : string) : M string :=
  documentId <- uuidv4 ;;
  text <- pdfParse fileBuffer ;;
  chunks <- lift_fuel (Chunker.chunkText_default text) ;;
  _ <- for_of chunks (store_chunk documentId) ;;
  ret documentId.

(** The comparator of the retrieval: [(a, b) => b.similarity - a.similarity]. *)
Definition by_similarity (a b : Vector.t) : JsNumber.number :=
  JsNumber.sub (Vector.score b) (Vector.score a).

(** The scored copy of an entry:
[{ ...vector, similarity: cosineSimilarity(queryEmbedding, vector.embedding) }]. *)
Definition scored (queryEmbedding : list R) (vector : Vector.t) : Vector.t :=
  Vector.with_similarity vector
    (Similarity.cosineSimilarity queryEmbedding (Vector.embedding vector)).

(** The retrieval step of [handleChat]:
[vectorStore.map(...).sort(...).slice(0, 5)]. *)
Definition similarDocs (queryEmbedding : list R) : M ref :=
  mapped <- array_map vectorStore (scored queryEmbedding) ;;
  sorted <- array_sort mapped by_similarity ;;
  array_slice sorted 0 5.

(** [handleChat(query, history)] *)
Definition handleChat (query : string) (history : list Content.t)
    : M (option string) :=
  queryEmbedding <- embedContent "gemini-embedding-001" query
                      "RETRIEVAL_QUERY" None ;;
  docs <- similarDocs queryEmbedding ;;
  similar <- read_array docs ;;
  let context := join (List.map Vector.text similar) context_separator in
  let prompt := prompt_template context query in
  chatModel <- generateContent "gemini-2.5-flash" (Prompt prompt)
                 (config_with None safetySettings []) ;;
  ret (Response.text chatModel).

(** [handleGenerate(query, history)] of this revision: one generation
call, no tools. *)
Definition handleGenerate (query : string) (history : list Content.t)
    : M (option string) :=
  chatModel <- generateContent "gemini-2.5-flash" (Prompt query)
                 (config_with None safetySettings []) ;;
  ret (Response.text chatModel).

End Services.

(** ** utils/token.ts *)

Module Token.

(** [{ access_token, expires_in, error }] *)
Record t : Type := make {
  access_token : json;
  expires_in : json;
  error : option error
}.

(** [getToken()].  A failed fetch is logged by the promise's [catch] and
resolves to [undefined]; destructuring it throws inside the [try]. *)
Definition getToken : M t :=
  try_catch
    (request <- try_catch fetchZoomToken (fun _ => ret JUndefined) ;;
     access_token <- lift (Json.get request "access_token") ;;
     expires_in <- lift (Json.get request "expires_in") ;;
     ret {| access_token := access_token;
            expires_in := expires_in;
            error := None |})
    (fun caught =>
       ret {| access_token := JNull;
              expires_in := JNull;
              error := Some caught |}).

End Token.

(** ** The service layer with tool calls (managed vector index) *)

Module ToolServices.

Definition safetySettings : list (HarmCategory * HarmBlockThreshold) :=
  [ (HARM_CATEGORY_HARASSMENT, OFF);
    (HARM_CATEGORY_HATE_SPEECH, OFF);
    (HARM_CATEGORY_SEXUALLY_EXPLICIT, OFF);
    (HARM_CATEGORY_DANGEROUS_CONTENT, OFF) ].

(** [.filter(Boolean)] on texts: drops [undefined] and the empty string. *)
Definition truthy_texts (texts : list (option string)) : list string :=
  flat_map (fun t => match t with
                     | Some (String c s) => [String c s]
                     | _ => []
                     end) texts.

(** [handleChat(query, history)]: retrieval from the managed index. *)
Definition handleChat (query : string) (history : list Content.t)
    : M (option string) :=
  queryEmbedding <- embedContent "gemini-embedding-001" query
                      "RETRIEVAL_QUERY" (Some 1024%Z) ;;
  matches <- indexQuery queryEmbedding 5 true ;;
  let similarDocs :=
    match matches with
    | Some ms => truthy_texts ms
    | None => []
    end in
  let context := join similarDocs context_separator in
  let prompt := prompt_template context query in
  chatModel <- generateContent "gemini-2.5-flash" (Prompt prompt)
                 (config_with None safetySettings []) ;;
  ret (Response.text chatModel).

(** The new user turn: [{ parts: [{ text: query }], role: 'user' }]. *)
Definition user_turn (query : string) : Content.t :=
  {| Content.parts := [TextPart query]; Content.role := Some "user"%string |}.

(** The body of the dispatch loop for one requested call; [results] is the
array of parts built so far. *)
Definition dispatch_call (query : string) (history : list Content.t)
    (functionCall : FunctionCall.t) (results : list Part) : M (list Part) :=
  let funcArgs := FunctionCall.args functionCall in
  let name := FunctionCall.name functionCall in
  if String.eqb name "get_current_temperature" then
    location <- lift (Json.get funcArgs "location") ;;
    res <- fetchWeather location ;;
    ret (results ++ [FunctionResponsePart name res])
  else if String.eqb name "create_zoom_meeting" then
    token <- Token.getToken ;;
    topic <- lift (Json.get funcArgs "topic") ;;
    meeting_invitees <- lift (Json.get funcArgs "meeting_invitees") ;;
    start_time <- lift (Json.get funcArgs "start_time") ;;
    res <- fetchZoomMeeting (Token.access_token token) topic
             meeting_invitees start_time ;;
    ret (results ++ [FunctionResponsePart name res])
  else if String.eqb name "rag_university_of_baguio_student_handbook" then
    res <- handleChat query history ;;
    ret (results ++ [FunctionResponsePart name (Json.of_text res)])
  else
    ret results.

(** [for (const functionCall of chatModel.functionCalls) { ... }] *)
Fixpoint dispatch (query : string) (history : list Content.t)
    (functionCalls : list FunctionCall.t) (results : list Part)
    : M (list Part) :=
  match functionCalls with
  | [] => ret results
  | functionCall :: rest =>
      results' <- dispatch_call query history functionCall results ;;
      dispatch query history rest results'
  end.

(** The request of the initial generation call. *)
Definition initial_contents (query : string) (history : list Content.t)
    : Contents :=
  Turns (history ++ [user_turn query]).

Definition initial_config (instruction : string) : Config.t :=
  config_with (Some instruction) safetySettings
    [weatherFunctionDeclaration; zoomFunctionDeclaration;
     ragFunctionDeclaration].

(** The request of the follow-up generation call: the tool results are
the parts of one more turn, which has no role. *)
Definition followup_contents (query : string) (history : list Content.t)
    (results : list Part) : Contents :=
  Turns (history ++ [user_turn query;
                     {| Content.parts := results; Content.role := None |}]).

Definition followup_config : Config.t := config_with None safetySettings [].

(** [handleGenerate(query, history)] *)
Definition handleGenerate (query : string) (history : list Content.t)
    : M (option string) :=
  instruction <- systemInstruction ;;
  chatModel <- generateContent "gemini-2.5-flash"
                 (initial_contents query history)
                 (initial_config instruction) ;;
  match Response.functionCalls chatModel with
  | Some (functionCall :: rest) =>
      results <- dispatch query history (functionCall :: rest) [] ;;
      functionRes <- generateContent "gemini-2.5-flash"
                       (followup_contents query history results)
                       followup_config ;;
      ret (Response.text functionRes)
  | _ => ret (Response.text chatModel)
  end.

End ToolServices.

(** ** index.ts: the HTTP handlers *)

Module Server.

(** The file that the upload middleware leaves in [req.file]. *)
Module File.

Record t : Type := make {
  buffer : string;
  originalname : string
}.

End File.

(** What a handler sends: [res.status(status).json(body)]. *)
Module Reply.

Record t : Type := make {
  status : Z;
  body : json
}.

End Reply.

(** [!value] *)
Definition falsy (value : json) : bool :=
  match value with
  | JUndefined | JNull => true
  | JBool b => negb b
  | JNumber x => if Req_dec_T x 0 then true else false
  | JString EmptyString => true
  | JString (String _ _) => false
  | JArray _ | JObject _ => false
  end.

(** [value || []] *)
Definition or_empty (value : json) : json :=
  if falsy value then JArray [] else value.

(** [{ message }] *)
Definition message (text : string) : json :=
  JObject [("message"%string, JString text)].

(** The handler of [POST /api/upload]; [handleFileUpload] is the function
imported from the service layer. *)
Definition post_upload (handleFileUpload : string -> string -> M string)
    (file : option File.t) : M Reply.t :=
  try_catch
    (match file with
     | None =>
         ret {| Reply.status := 400;
                Reply.body := message "No file uploaded." |}
     | Some file =>
         documentId <- handleFileUpload (File.buffer file)
                         (File.originalname file) ;;
         ret {| Reply.status := 201;
                Reply.body :=
                  JObject
                    [("message"%string,
                      JString "File uploaded and processed successfully.");
                     ("documentId"%string, JString documentId)] |}
     end)
    (fun _ =>
       ret {| Reply.status := 500;
              Reply.body :=
                message "An error occurred during file processing." |}).

(** The body of the handlers of [POST /api/chat] and [POST /api/generate],
which differ in the service function they call; [reqBody] is [req.body]. *)
Definition post_query (service : json -> json -> M (option string))
    (reqBody : json) : M Reply.t :=
  try_catch
    (query <- lift (Json.get reqBody "query") ;;
     history <- lift (Json.get reqBody "history") ;;
     if falsy query
     then ret {| Reply.status := 400;
                 Reply.body := message "Query is required." |}
     else
       response <- service query (or_empty history) ;;
       ret {| Reply.status := 200;
              Reply.body :=
                JObject
                  [("message"%string,
                    JString "Response generated successfully.");
                   ("response"%string, Json.of_text response)] |})
    (fun _ =>
       ret {| Reply.status := 500;
              Reply.body :=
                message "An error occurred while generating a response." |}).

(** [POST /api/chat] *)
Definition post_chat (handleChat : json -> json -> M (option string))
    (reqBody : json) : M Reply.t :=
  post_query handleChat reqBody.

(** [POST /api/generate] *)
Definition post_generate (handleGenerate : json -> json -> M (option string))
    (reqBody : json) : M Reply.t :=
  post_query handleGenerate reqBody.

End Server.

(** ** [handleFileUpload] over the managed index *)

Module IndexUpload.

(** A vector to upsert: [{ id, values, metadata: { text, documentId,
originalname } }]. *)
Module IndexVector.

Record t : Type := make {
  id : string;
  values : list R;
  text : string;
  documentId : string;
  originalname : string
}.

End IndexVector.

(** The index that [pineconeClient.Index(name)] hands back; [upsert]
submits a batch of vectors. *)
Module PineconeIndex.

Record t : Type := make {
  upsert : list IndexVector.t -> M unit
}.

End PineconeIndex.

(** The client of the vector index. *)
Module Pinecone.

Record t : Type := make {
  Index : string -> M PineconeIndex.t
}.

End Pinecone.

(** [initPinecone()]: the client held by the module variable [pinecone],
created by [new Pinecone({ apiKey })] when the variable is still unset.
[newPinecone] is that construction, which belongs to the client library;
[pinecone] is the value of the variable at the call.  The assignment to
the variable is seen by later requests only. *)
Definition initPinecone (newPinecone : M Pinecone.t)
    (pinecone : option Pinecone.t) : M Pinecone.t :=
  match pinecone with
  | None => newPinecone
  | Some client => ret client
  end.

(** The body of the loop over the chunks: embed the chunk and push the
vector on [vectorsToUpsert]. *)
Definition embed_chunk (documentId originalname chunk : string)
    (vectorsToUpsert : list IndexVector.t) : M (list IndexVector.t) :=
  embedding <- embedContent "gemini-embedding-001" chunk
                 "RETRIEVAL_DOCUMENT" (Some 1024%Z) ;;
  id <- uuidv4 ;;
  ret (vectorsToUpsert
       ++ [{| IndexVector.id := id;
              IndexVector.values := embedding;
              IndexVector.text := chunk;
              IndexVector.documentId := documentId;
              IndexVector.originalname := originalname |}]).

(** [for (const chunk of chunks) { ... }] *)
Fixpoint embed_chunks (documentId originalname : string)
    (chunks : list string) (vectorsToUpsert : list IndexVector.t)
    : M (list IndexVector.t) :=
  match chunks with
  | [] => ret vectorsToUpsert
  | chunk :: chunks' =>
      vectors <- embed_chunk documentId originalname chunk vectorsToUpsert ;;
      embed_chunks documentId originalname chunks' vectors
  end.

(** The loop that upserts in batches of [batchSize = 100]; [upsert] is
[index.upsert] of the index client.  One unit of fuel per loop test. *)
Fixpoint upsert_loop (fuel : nat) (upsert : list IndexVector.t -> M unit)
    (vectorsToUpsert : list IndexVector.t) (i : Z) : M unit :=
  match fuel with
  | O => lift_fuel None
  | S fuel' =>
      if (i <? Z.of_nat (List.length vectorsToUpsert))%Z
      then
        _ <- upsert (JsArray.slice vectorsToUpsert i (i + 100)) ;;
        upsert_loop fuel' upsert vectorsToUpsert (i + 100)
      else ret tt
  end.

(** [handleFileUpload(fileBuffer, originalname)]; [PINECONE_INDEX_NAME] is
the name read from the environment variables when the module is loaded.
The fuel of the upsert loop is one test per vector and the final one. *)
Definition handleFileUpload (newPinecone : M Pinecone.t)
    (pinecone : option Pinecone.t) (PINECONE_INDEX_NAME : string)
    (fileBuffer originalname : string) : M string :=
  documentId <- uuidv4 ;;
  text <- pdfParse fileBuffer ;;
  chunks <- lift_fuel (Chunker.chunkText_default text) ;;
  pineconeClient <- initPinecone newPinecone pinecone ;;
  index <- Pinecone.Index pineconeClient PINECONE_INDEX_NAME ;;
  vectorsToUpsert <- embed_chunks documentId originalname chunks [] ;;
  _ <- upsert_loop (S (List.length vectorsToUpsert))
         (PineconeIndex.upsert index) vectorsToUpsert 0 ;;
  ret documentId.

End IndexUpload.

(** ** Observations used to state the properties of the retrieval *)

Module Retrieval.

(** The entries of the in-process store, in insertion order. *)
Definition store_of (w : World.t) : list Vector.t :=
  nth Services.vectorStore (World.heap w) [].

(** The elements of the array behind a reference. *)
Definition array_of (w : World.t) (r : ref) : list Vector.t :=
  nth r (World.heap w) [].

(** The matches are ordered by descending score: each one's score is [>=]
the score of every later one. *)
Definition descending (matches : list Vector.t) : Prop :=
  StronglySorted
    (fun a b => JsNumber.ge (Vector.score a) (Vector.score b)) matches.

(** The score is a number, not [NaN]. *)
Definition numeric (v : Vector.t) : Prop :=
  exists r, Vector.score v = JsNumber.Num r.

(** The score as a real number, for entries whose score is a number ([0]
stands in for [NaN]). *)
Definition score_value (v : Vector.t) : R :=
  match Vector.score v with
  | JsNumber.Num r => r
  | JsNumber.NaN => 0%R
  end.

(** The entry has the given score. *)
Definition has_score (s : JsNumber.number) (v : Vector.t) : bool :=
  JsNumber.same (Vector.score v) s.

End Retrieval.

(** ** Observations used to state the properties of the dispatcher *)

Module Trace.

(** The calls that the execution of a tool makes: the weather and meeting
services, the token exchange, and the calls of the retrieval (embedding,
index query, generation from a prompt).  The generation calls of
[handleGenerate] itself carry a conversation and are not among them. *)
Definition is_tool_event (ev : event) : bool :=
  match ev with
  | GenerateContent _ (Prompt _) _ _ => true
  | GenerateContent _ (Turns _) _ _ => false
  | EmbedContent _ _ _ _ _ => true
  | IndexQuery _ _ _ _ => true
  | FetchWeather _ _ => true
  | FetchZoomToken _ => true
  | FetchZoomMeeting _ _ _ _ _ => true
  | PdfParse _ _ => false
  | Uuidv4 _ => false
  end.

(** The world after one more recorded call. *)
Definition after (w : World.t) (evs : list event) : World.t :=
  {| World.heap := World.heap w; World.trace := World.trace w ++ evs |}.

(** A computation that records calls of tool executions only, leaves the
arrays alone and does not diverge. *)
Definition tools_only (A : Type) (m : M A) : Prop :=
  forall env w,
    exists evs,
      snd (m env w) = after w evs
      /\ forallb is_tool_event evs = true
      /\ fst (m env w) <> Diverged.

(** The name a function response answers to. *)
Definition answered (part : Part) : list string :=
  match part with
  | FunctionResponsePart name _ => [name]
  | TextPart _ => []
  end.

(** The names for which the dispatch loop has a branch. *)
Definition handled (name : string) : bool :=
  String.eqb name "get_current_temperature"
  || String.eqb name "create_zoom_meeting"
  || String.eqb name "rag_university_of_baguio_student_handbook".

(** The outcome of a generation call whose response is only read for its
text. *)
Definition text_of (result : error + Response.t) : outcome (option string) :=
  match result with
  | inl e => Thrown e
  | inr response => Returned (Response.text response)
  end.

End Trace.

(** ** Environments and stores used in the examples *)

Module Examples.

(** No collaborator can be reached. *)
Definition offline : Env.t :=
  {| Env.systemInstruction := "Remember today is Tue Nov 03 2026.";
     Env.embedContent := fun _ _ _ _ _ => inl (Rejected "offline");
     Env.generateContent := fun _ _ _ _ => inl (Rejected "offline");
     Env.pdfParse := fun _ _ => inl (Rejected "offline");
     Env.uuidv4 := fun _ => "00000000-0000-4000-8000-000000000000"%string;
     Env.indexQuery := fun _ _ _ _ => inl (Rejected "offline");
     Env.fetchWeather := fun _ _ => inl (Rejected "offline");
     Env.fetchZoomToken := fun _ => inl (Rejected "offline");
     Env.fetchZoomMeeting := fun _ _ _ _ _ => inl (Rejected "offline") |}.

(** A stored entry. *)
Definition entry (id : string) (embedding : list R) (text : string)
    : Vector.t :=
  {| Vector.id := id;
     Vector.embedding := embedding;
     Vector.text := text;
     Vector.documentId := "doc";
     Vector.similarity := None |}.

(** A world whose store holds the given entries. *)
Definition with_store (entries : list Vector.t) : World.t :=
  {| World.heap := [entries]; World.trace := [] |}.

(** Three entries, the second one with a shorter embedding. *)
Definition mixed_store : World.t :=
  with_store [entry "e1" [0; 1]%R "one";
              entry "e2" [1]%R "two";
              entry "e3" [1; 0]%R "three"].

(** Two entries of the dimension of the query. *)
Definition plain_store : World.t :=
  with_store [entry "e1" [0; 1]%R "one"; entry "e3" [1; 0]%R "three"].

(** Seven entries; against the query [[1; 0]] they score
[0, 1, 1, 1, NaN, 1, 1]. *)
Definition tied_store : World.t :=
  with_store [entry "e0" [0; 1]%R "zero";
              entry "e1" [1; 0]%R "one";
              entry "e2" [1; 0]%R "two";
              entry "e3" [1; 0]%R "three";
              entry "e4" [1]%R "four";
              entry "e5" [1; 0]%R "five";
              entry "e6" [1; 0]%R "six"].

(** A text of [n] copies of a character. *)
Fixpoint replicate (n : nat) (c : ascii) : string :=
  match n with
  | O => EmptyString
  | S n' => String c (replicate n' c)
  end.

(** A requested call. *)
Definition request (name : string) (args : list (string * json))
    : FunctionCall.t :=
  {| FunctionCall.name := name; FunctionCall.args := JObject args |}.

(** A model that answers every generation call with the same requests and
no text, and tool services that answer as given. *)
Definition scripted (calls : list FunctionCall.t) (weather token
    meeting : error + json) : Env.t :=
  {| Env.systemInstruction := "Remember today is Tue Nov 03 2026.";
     Env.embedContent := fun _ _ _ _ _ => inl (Rejected "offline");
     Env.generateContent := fun _ _ _ _ =>
       inr {| Response.text := None; Response.functionCalls := Some calls |};
     Env.pdfParse := fun _ _ => inl (Rejected "offline");
     Env.uuidv4 := fun _ => "00000000-0000-4000-8000-000000000000"%string;
     Env.indexQuery := fun _ _ _ _ => inl (Rejected "offline");
     Env.fetchWeather := fun _ _ => weather;
     Env.fetchZoomToken := fun _ => token;
     Env.fetchZoomMeeting := fun _ _ _ _ _ => meeting |}.

(** The world of a fresh request. *)
Definition fresh : World.t := {| World.heap := []; World.trace := [] |}.

Definition weather_request : FunctionCall.t :=
  request "get_current_temperature" [("location"%string, JString "Baguio")].

Definition zoom_request : FunctionCall.t :=
  request "create_zoom_meeting"
    [("topic"%string, JString "Sync");
     ("start_time"%string, JString "2026-11-04T09:00:00Z");
     ("meeting_invitees"%string, JArray [])].

(** The model requests the tool declared in constants/tools.ts. *)
Definition rag_request : FunctionCall.t :=
  request (FunctionDeclaration.name ragFunctionDeclaration) [].

Definition sunny : json := JObject [("temperature"%string, JNumber 21)].

Definition zoom_token : json :=
  JObject [("access_token"%string, JString "t0k3n");
           ("expires_in"%string, JNumber 3599)].

Definition zoom_meeting : json := JObject [("id"%string, JNumber 1)].

End Examples.

(** * Properties *)

(** ** Strings *)

Section StringFacts.

Lemma substring_nil_len (n : nat) (s : string) :
  String.substring n 0 s = EmptyString.
Proof.
  revert n; induction s as [|c s IH]; intros [|n]; simpl; auto.
Qed.

Lemma substring_length (s : string) : forall n m : nat,
  String.length (String.substring n m s) = Nat.min m (String.length s - n).
Proof.
  induction s as [|c s IH]; intros [|n] [|m]; simpl; auto;
    rewrite IH; simpl; lia.
Qed.

Lemma substring_all (s : string) :
  String.substring 0 (String.length s) s = s.
Proof. induction s; simpl; congruence. Qed.

Lemma substring_past (s : string) : forall n m : nat,
  (String.length s <= n)%nat -> String.substring n m s = EmptyString.
Proof.
  induction s as [|c s IH]; intros [|n] [|m] H; simpl in *; auto; try lia;
    apply IH; lia.
Qed.

(** Two adjacent substrings make up the substring that covers both. *)
Lemma substring_split (s : string) : forall n a b : nat,
  String.append (String.substring n a s) (String.substring (n + a) b s)
  = String.substring n (a + b) s.
Proof.
  induction s as [|c s IH]; intros n a b.
  - destruct n, a, b; reflexivity.
  - destruct n as [|n].
    + destruct a as [|a]; simpl.
      * destruct b; reflexivity.
      * f_equal. apply (IH 0%nat a b).
    + simpl. destruct a as [|a]; simpl.
      * rewrite substring_nil_len. simpl. now rewrite Nat.add_0_r.
      * apply (IH n (S a) b).
Qed.

Lemma append_nil_r (s : string) : String.append s EmptyString = s.
Proof. induction s; simpl; congruence. Qed.

Lemma append_assoc (a b c : string) :
  String.append (String.append a b) c = String.append a (String.append b c).
Proof. induction a; simpl; congruence. Qed.

Lemma concat_cons (c : string) (l : list string) :
  JsString.concat (c :: l) = String.append c (JsString.concat l).
Proof.
  unfold JsString.concat. destruct l; simpl.
  - now rewrite append_nil_r.
  - reflexivity.
Qed.

End StringFacts.

(** ** The chunker *)

Section ChunkerFacts.

Import Chunker.
Local Open Scope Z_scope.

(** A chunk taken at an index inside the text. *)
Lemma substring_chunk (text : string) (i chunkSize : Z) :
  0 <= i -> i < JsString.length text -> 0 < chunkSize ->
  JsString.substring text i (i + chunkSize)
  = String.substring (Z.to_nat i)
      (Z.to_nat (Z.min (i + chunkSize) (JsString.length text) - i)) text.
Proof.
  intros Hi Hlt Hc. unfold JsString.substring, JsString.clamp.
  f_equal; f_equal; lia.
Qed.

(** What the loop appends from index [i] on, given enough fuel. *)
Lemma chunkText_loop_spec (text : string) (chunkSize : Z) :
  0 < chunkSize ->
  forall (fuel : nat) (i : Z) (chunks : list string),
    0 <= i -> Z.max 0 (JsString.length text - i) < Z.of_nat fuel ->
    exists out,
      chunkText_loop fuel text chunkSize i chunks = Some (chunks ++ out)
      /\ JsString.concat out
         = String.substring (Z.to_nat i)
             (String.length text - Z.to_nat i) text
      /\ (JsString.length text <= i -> out = [])
      /\ Forall (fun c => JsString.length c = chunkSize) (removelast out).
Proof.
  intros Hc. induction fuel as [|fuel IH]; intros i chunks Hi Hfuel.
  - lia.
  - simpl. destruct (Z.ltb_spec i (JsString.length text)) as [Hlt|Hge].
    + destruct (IH (i + chunkSize)
                   (chunks ++ [JsString.substring text i (i + chunkSize)]))
        as (out & Hrun & Hcat & Hnil & Hall); try lia.
      exists (JsString.substring text i (i + chunkSize) :: out).
      rewrite Hrun, <- app_assoc. simpl. split; [reflexivity|].
      unfold JsString.length in *.
      split; [|split].
      * rewrite concat_cons, Hcat, substring_chunk by (auto; unfold JsString.length; lia).
        unfold JsString.length.
        destruct (Z.le_gt_cases (i + chunkSize) (Z.of_nat (String.length text)))
          as [Hin|Hout].
        -- rewrite Z.min_l by lia.
           replace (Z.to_nat (i + chunkSize))
             with (Z.to_nat i + Z.to_nat (i + chunkSize - i))%nat by lia.
           rewrite substring_split. f_equal. lia.
        -- rewrite Z.min_r by lia.
           rewrite (substring_past text (n := Z.to_nat (i + chunkSize))) by lia.
           rewrite append_nil_r. f_equal. lia.
      * intros Hle. lia.
      * destruct out as [|c out]; [constructor|].
        change (removelast (?x :: c :: out)) with (x :: removelast (c :: out)).
        constructor; [|exact Hall].
        assert (i + chunkSize < Z.of_nat (String.length text)) as Hin.
        { destruct (Z.lt_ge_cases (i + chunkSize) (Z.of_nat (String.length text)));
            [assumption|]. discriminate Hnil. lia. }
        rewrite substring_chunk by (auto; unfold JsString.length; lia).
        unfold JsString.length. rewrite substring_length. lia.
    + exists []. rewrite app_nil_r. split; [reflexivity|].
      unfold JsString.length in *.
      replace (String.length text - Z.to_nat i)%nat with 0%nat by lia.
      rewrite substring_nil_len. repeat split; constructor.
Qed.

(** More fuel does not change a result. *)
Lemma chunkText_loop_more_fuel (text : string) (chunkSize : Z) :
  forall (fuel fuel' : nat) (i : Z) (chunks r : list string),
    (fuel <= fuel')%nat ->
    chunkText_loop fuel text chunkSize i chunks = Some r ->
    chunkText_loop fuel' text chunkSize i chunks = Some r.
Proof.
  induction fuel as [|fuel IH]; intros fuel' i chunks r Hle Hrun;
    [discriminate|].
  destruct fuel' as [|fuel']; [lia|].
  simpl in *. destruct (i <? JsString.length text); [|assumption].
  apply IH; [lia|assumption].
Qed.

(** With a step that does not advance, the loop test never fails: as long
as the array can grow, the loop goes on. *)
Lemma chunkText_loop_diverges (text : string) (chunkSize : Z) :
  chunkSize <= 0 ->
  forall (fuel : nat) (i : Z) (chunks : list string),
    i < JsString.length text ->
    chunkText_loop fuel text chunkSize i chunks = None.
Proof.
  intros Hc. induction fuel as [|fuel IH]; intros i chunks Hlt; simpl;
    [reflexivity|].
  destruct (Z.ltb_spec i (JsString.length text)); [|lia].
  apply IH. lia.
Qed.

End ChunkerFacts.

Example chunkText_abcdefg_3 :
  Chunker.chunkText "abcdefg" 3 = Some ["abc"; "def"; "g"]%string.
Proof. reflexivity. Qed.

Example chunkText_abcdef_3 :
  Chunker.chunkText "abcdef" 3 = Some ["abc"; "def"]%string.
Proof. reflexivity. Qed.

Example chunkText_empty_1000 : Chunker.chunkText_default EmptyString = Some [].
Proof. reflexivity. Qed.

(** A text of 2400 characters makes three chunks, of 1000, 1000 and 400
characters. *)
Example chunkText_2400 :
  option_map (List.map String.length)
    (Chunker.chunkText_default (Examples.replicate 2400 "x"))
  = Some [1000; 1000; 400]%nat.
Proof. vm_compute. reflexivity. Qed.

(** C1. For every string [text] and every [chunkSize > 0], [chunkText]
    returns (with any fuel above [text.length]) a list of chunks whose
    concatenation in order is [text], and every chunk except possibly the
    last has length exactly [chunkSize]. *)
Theorem chunkText_reassembles (text : string) (chunkSize : Z) :
  (0 < chunkSize)%Z ->
  exists chunks,
    Chunker.chunkText text chunkSize = Some chunks
    /\ (forall fuel, (String.length text < fuel)%nat ->
          Chunker.chunkText_fuel fuel text chunkSize = Some chunks)
    /\ JsString.concat chunks = text
    /\ (forall j, (S j < List.length chunks)%nat ->
          JsString.length (nth j chunks EmptyString) = chunkSize).
Proof.
  intros Hc.
  destruct (@chunkText_loop_spec text chunkSize Hc (S (String.length text))
              0%Z [])
    as (out & Hrun & Hcat & _ & Hall);
    [lia | unfold JsString.length; lia |].
  simpl app in Hrun. exists out. split; [exact Hrun|]. split; [|split].
  - intros fuel Hfuel.
    apply chunkText_loop_more_fuel with (fuel := S (String.length text));
      [lia | exact Hrun].
  - rewrite Hcat. simpl Z.to_nat. rewrite Nat.sub_0_r. apply substring_all.
  - intros j Hj. rewrite Forall_forall in Hall. apply Hall.
    clear - Hj. revert j Hj. induction out as [|c out IH]; intros j Hj;
      [simpl in Hj; lia|].
    destruct out as [|d out]; [simpl in Hj; lia|].
    change (removelast (c :: d :: out)) with (c :: removelast (d :: out)).
    destruct j as [|j]; [now left|].
    right. apply IH. simpl in *. lia.
Qed.

Lemma chunkText_reassembles_witness :
  exists chunks,
    Chunker.chunkText "abcdefg" 3 = Some chunks
    /\ (forall fuel, (String.length "abcdefg" < fuel)%nat ->
          Chunker.chunkText_fuel fuel "abcdefg" 3 = Some chunks)
    /\ JsString.concat chunks = "abcdefg"%string
    /\ (forall j, (S j < List.length chunks)%nat ->
          JsString.length (nth j chunks EmptyString) = 3%Z).
Proof. apply (@chunkText_reassembles "abcdefg" 3). reflexivity. Defined.

Section BoundedChunkerFacts.

Import Chunker.
Local Open Scope Z_scope.

(** The loop only adds to the array. *)
Lemma chunkText_loop_grows (text : string) (chunkSize : Z) :
  forall (fuel : nat) (i : Z) (chunks r : list string),
    chunkText_loop fuel text chunkSize i chunks = Some r ->
    (List.length chunks <= List.length r)%nat.
Proof.
  induction fuel as [|fuel IH]; intros i chunks r Hrun; [discriminate|].
  simpl in Hrun. destruct (i <? JsString.length text).
  - apply IH in Hrun. rewrite length_app in Hrun. simpl in Hrun. lia.
  - inversion Hrun. lia.
Qed.

(** While the chunks fit in the array, its limit is not felt. *)
Lemma chunkText_loop_within_fits (capacity : Z) (text : string)
    (chunkSize : Z) :
  forall (fuel : nat) (i : Z) (chunks r : list string),
    chunkText_loop fuel text chunkSize i chunks = Some r ->
    Z.of_nat (List.length r) <= capacity ->
    chunkText_loop_within capacity fuel text chunkSize i chunks
    = Some (Chunks r).
Proof.
  induction fuel as [|fuel IH]; intros i chunks r Hrun Hfit; [discriminate|].
  simpl in *. destruct (i <? JsString.length text).
  - pose proof (chunkText_loop_grows _ _ _ _ _ Hrun) as Hgrow.
    rewrite length_app in Hgrow. simpl in Hgrow.
    destruct (Z.ltb_spec (Z.of_nat (List.length chunks)) capacity); [|lia].
    now apply IH.
  - now inversion Hrun.
Qed.

(** With a step that does not advance, the loop goes on until the array
is full, and the next [push] fails. *)
Lemma chunkText_loop_within_overflows (capacity : Z) (text : string)
    (chunkSize : Z) :
  chunkSize <= 0 ->
  forall (fuel : nat) (i : Z) (chunks : list string),
    i < JsString.length text ->
    Z.of_nat (List.length chunks) <= capacity ->
    chunkText_loop_within capacity fuel text chunkSize i chunks
    = if capacity <? Z.of_nat fuel + Z.of_nat (List.length chunks)
      then Some RangeError
      else None.
Proof.
  intros Hc. induction fuel as [|fuel IH]; intros i chunks Hlt Hfit.
  - cbn [chunkText_loop_within].
    destruct (Z.ltb_spec capacity
                (Z.of_nat 0 + Z.of_nat (List.length chunks)));
      [lia | reflexivity].
  - cbn [chunkText_loop_within].
    destruct (Z.ltb_spec i (JsString.length text)); [|lia]. cbv zeta.
    destruct (Z.ltb_spec (Z.of_nat (List.length chunks)) capacity)
      as [Hroom|Hfull].
    + rewrite IH; [|lia|rewrite length_app; simpl; lia].
      rewrite length_app. cbn [List.length].
      destruct (Z.ltb_spec capacity
                  (Z.of_nat fuel + Z.of_nat (List.length chunks + 1)));
        destruct (Z.ltb_spec capacity
                    (Z.of_nat (S fuel) + Z.of_nat (List.length chunks)));
        try reflexivity; lia.
    + destruct (Z.ltb_spec capacity
                  (Z.of_nat (S fuel) + Z.of_nat (List.length chunks)));
        [reflexivity | lia].
Qed.

End BoundedChunkerFacts.

(** Where the chunks fit in an array, [chunkText] over an array of limited
length returns what [chunkText] returns. *)
Example chunkText_within_abcdefg_3 :
  Chunker.chunkText_within 4294967295 8 "abcdefg" 3
  = Some (Chunker.Chunks ["abc"; "def"; "g"]%string).
Proof. reflexivity. Qed.

(** C7, as stated, fails: with [chunkSize = 0] the empty text is chunked
    successfully, no error is raised; and on a non-empty text the error
    that ends the call is not raised by a check of [chunkSize], it is the
    [RangeError] of the [push] on an array that has become full (shown here
    for an array of at most three elements). *)
Lemma chunkText_zero_size_no_error :
  Chunker.chunkText_fuel 1 EmptyString 0 = Some []
  /\ Chunker.chunkText_within 4294967295 1 EmptyString 0
     = Some (Chunker.Chunks [])
  /\ Chunker.chunkText_within 3 3 "a" 0 = None
  /\ Chunker.chunkText_within 3 4 "a" 0 = Some Chunker.RangeError.
Proof. repeat split; reflexivity. Qed.

(** C7, amended.  [chunkText] on the empty string yields zero chunks for
    every [chunkSize], also for [chunkSize <= 0].  For [chunkSize <= 0] and
    a non-empty text nothing is checked and the loop test never fails:
    every iteration pushes one more chunk, and the call is still running
    after as many loop tests as the array can hold elements; the [push]
    of the next iteration throws a [RangeError]. *)
Theorem chunkText_empty_or_overflow (text : string) (chunkSize capacity : Z) :
  (0 <= capacity)%Z ->
  (text = EmptyString ->
     forall fuel,
       Chunker.chunkText_within capacity (S fuel) text chunkSize
       = Some (Chunker.Chunks []))
  /\ ((chunkSize <= 0)%Z -> text <> EmptyString ->
      (forall fuel, (Z.of_nat fuel <= capacity)%Z ->
         Chunker.chunkText_within capacity fuel text chunkSize = None)
      /\ (forall fuel, (capacity < Z.of_nat fuel)%Z ->
            Chunker.chunkText_within capacity fuel text chunkSize
            = Some Chunker.RangeError)).
Proof.
  intros Hcap. split.
  - intros ->. reflexivity.
  - intros Hc Hne.
    assert (0 < JsString.length text)%Z as Hlen.
    { destruct text; [contradiction|]. unfold JsString.length. simpl. lia. }
    split; intros fuel Hfuel; unfold Chunker.chunkText_within;
      rewrite (@chunkText_loop_within_overflows capacity text chunkSize Hc
                 fuel 0%Z [] Hlen Hcap);
      cbn [List.length];
      destruct (Z.ltb_spec capacity (Z.of_nat fuel + Z.of_nat 0));
      try reflexivity; lia.
Qed.

Lemma chunkText_empty_or_overflow_witness :
  (forall fuel,
     Chunker.chunkText_within 4294967295 (S fuel) EmptyString (-5)
     = Some (Chunker.Chunks []))
  /\ (forall fuel, (Z.of_nat fuel <= 4294967295)%Z ->
        Chunker.chunkText_within 4294967295 fuel "ab" (-5) = None)
  /\ (forall fuel, (4294967295 < Z.of_nat fuel)%Z ->
        Chunker.chunkText_within 4294967295 fuel "ab" (-5)
        = Some Chunker.RangeError).
Proof.
  split; [|split].
  - apply (proj1 (@chunkText_empty_or_overflow EmptyString (-5) 4294967295
                    ltac:(lia))).
    reflexivity.
  - apply (proj1 (proj2 (@chunkText_empty_or_overflow "ab" (-5) 4294967295
                           ltac:(lia))
                    ltac:(lia) ltac:(discriminate))).
  - apply (proj2 (proj2 (@chunkText_empty_or_overflow "ab" (-5) 4294967295
                           ltac:(lia))
                    ltac:(lia) ltac:(discriminate))).
Defined.

(** ** The similarity ranker *)

Section SimilarityFacts.

Import JsNumber Algebra Similarity.
Local Open Scope R_scope.

Lemma sum_squares_nonneg (v : list R) : 0 <= sum_squares v.
Proof.
  induction v as [|x v IH]; simpl; [lra|].
  pose proof (Rle_0_sqr x) as Hx. unfold Rsqr in Hx. lra.
Qed.

Lemma sum_squares_zero (v : list R) : sum_squares v = 0 <-> zero_vector v.
Proof.
  unfold zero_vector. induction v as [|x v IH]; simpl.
  - split; [constructor | reflexivity].
  - pose proof (sum_squares_nonneg v) as Hv.
    pose proof (Rle_0_sqr x) as Hx. unfold Rsqr in Hx.
    split.
    + intros H. assert (x * x = 0) as Hxx by lra.
      assert (sum_squares v = 0) as Hv0 by lra.
      constructor; [|now apply IH].
      destruct (Rmult_integral _ _ Hxx); assumption.
    + intros H. inversion H as [|? ? Hx0 Hv0]; subst.
      apply IH in Hv0. rewrite Hv0. lra.
Qed.

Lemma sum_products_comm (a : list R) : forall b,
  sum_products a b = sum_products b a.
Proof.
  induction a as [|x a IH]; intros [|y b]; simpl; auto.
  rewrite IH. lra.
Qed.

Lemma sum_products_self (v : list R) : sum_products v v = sum_squares v.
Proof. induction v as [|x v IH]; simpl; [reflexivity | now rewrite IH]. Qed.

(** The reduction that computes a squared magnitude. *)
Lemma reduce_squares (v : list R) : forall (i : nat) (acc : R),
  JsArray.reduce_from (fun sum a (_ : nat) => add sum (mul (Num a) (Num a)))
    v i (Num acc)
  = Num (acc + sum_squares v).
Proof.
  induction v as [|x v IH]; intros i acc; simpl.
  - f_equal. lra.
  - rewrite IH. f_equal. lra.
Qed.

(** The reduction that computes the dot product, when [vecB] has an
    element at every index of [vecA]. *)
Lemma reduce_products (a : list R) : forall (pre b : list R) (acc : R),
  (List.length a <= List.length b)%nat ->
  JsArray.reduce_from
    (fun sum x i => add sum (mul (Num x) (of_element (nth_error (pre ++ b) i))))
    a (List.length pre) (Num acc)
  = Num (acc + sum_products a b).
Proof.
  induction a as [|x a IH]; intros pre b acc Hlen;
    cbn [JsArray.reduce_from sum_products].
  - f_equal. lra.
  - destruct b as [|y b]; [simpl in Hlen; lia|].
    rewrite nth_error_app2 by lia. rewrite Nat.sub_diag.
    change (add (Num acc) (mul (Num x) (of_element (nth_error (y :: b) 0))))
      with (Num (acc + x * y)).
    replace (pre ++ y :: b) with ((pre ++ [y]) ++ b)
      by (now rewrite <- app_assoc).
    replace (S (List.length pre)) with (List.length (pre ++ [y]))
      by (rewrite length_app; simpl; lia).
    rewrite IH by (simpl in Hlen; lia). f_equal. lra.
Qed.

(** [cosineSimilarity] in closed form, when [vecB] is not the shorter
vector. *)
Lemma cosineSimilarity_closed_form (a b : list R) :
  (List.length a <= List.length b)%nat ->
  cosineSimilarity a b
  = if strict_eq (Num (R_sqrt.sqrt (sum_squares a))) (Num 0)
       || strict_eq (Num (R_sqrt.sqrt (sum_squares b))) (Num 0)
    then Num 0
    else div (Num (sum_products a b))
           (Num (R_sqrt.sqrt (sum_squares a) * R_sqrt.sqrt (sum_squares b))).
Proof.
  intros Hle. unfold cosineSimilarity, JsArray.reduce.
  rewrite !reduce_squares.
  pose proof (@reduce_products a [] b 0 Hle) as Hdot.
  cbn [app List.length] in Hdot.
  rewrite Hdot, !Rplus_0_l. unfold sqrt.
  destruct (Rlt_dec (sum_squares a) 0) as [Ha|_];
    [pose proof (sum_squares_nonneg a); lra|].
  destruct (Rlt_dec (sum_squares b) 0) as [Hb|_];
    [pose proof (sum_squares_nonneg b); lra|].
  reflexivity.
Qed.

(** The guard of [cosineSimilarity]: a zero magnitude on either side
    gives [0], whatever the lengths. *)
Lemma cosineSimilarity_zero_magnitude (a b : list R) :
  R_sqrt.sqrt (sum_squares a) = 0 \/ R_sqrt.sqrt (sum_squares b) = 0 ->
  cosineSimilarity a b = Num 0.
Proof.
  intros H. unfold cosineSimilarity, JsArray.reduce.
  rewrite !reduce_squares, !Rplus_0_l. unfold sqrt.
  destruct (Rlt_dec (sum_squares a) 0) as [Ha|_];
    [pose proof (sum_squares_nonneg a); lra|].
  destruct (Rlt_dec (sum_squares b) 0) as [Hb|_];
    [pose proof (sum_squares_nonneg b); lra|].
  unfold strict_eq.
  destruct (Req_dec_T (R_sqrt.sqrt (sum_squares a)) 0) as [_|Ha];
    [reflexivity|].
  destruct (Req_dec_T (R_sqrt.sqrt (sum_squares b)) 0) as [_|Hb];
    [reflexivity|].
  destruct H; contradiction.
Qed.

Lemma zero_vector_magnitude (v : list R) :
  zero_vector v -> R_sqrt.sqrt (sum_squares v) = 0.
Proof.
  intros H. apply sum_squares_zero in H. rewrite H. apply sqrt_0.
Qed.

Lemma cosineSimilarity_self (v : list R) :
  ~ zero_vector v -> cosineSimilarity v v = Num 1.
Proof.
  intros Hnz. rewrite cosineSimilarity_closed_form by lia.
  pose proof (sum_squares_nonneg v) as Hge.
  assert (sum_squares v <> 0) as Hne
    by (intros H; apply Hnz; now apply sum_squares_zero).
  assert (R_sqrt.sqrt (sum_squares v) <> 0) as Hs.
  { intros H. apply sqrt_eq_0 in H; [contradiction | assumption]. }
  unfold strict_eq.
  destruct (Req_dec_T (R_sqrt.sqrt (sum_squares v)) 0) as [H0|_];
    [contradiction|].
  simpl. rewrite sqrt_sqrt by assumption. rewrite sum_products_self.
  destruct (Req_dec_T (sum_squares v) 0) as [H0|_]; [contradiction|].
  f_equal. now field.
Qed.

(** The division of [cosineSimilarity] is never by zero: either the guard
answers [0], or the product of the magnitudes is a non-zero number. *)
Lemma cosineSimilarity_divisor (a b : list R) :
  cosineSimilarity a b = Num 0
  \/ exists dotProduct,
       R_sqrt.sqrt (sum_squares a) * R_sqrt.sqrt (sum_squares b) <> 0
       /\ cosineSimilarity a b
          = div dotProduct
              (Num (R_sqrt.sqrt (sum_squares a) * R_sqrt.sqrt (sum_squares b))).
Proof.
  unfold cosineSimilarity, JsArray.reduce.
  rewrite !reduce_squares, !Rplus_0_l. unfold sqrt.
  destruct (Rlt_dec (sum_squares a) 0) as [Ha|_];
    [pose proof (sum_squares_nonneg a); lra|].
  destruct (Rlt_dec (sum_squares b) 0) as [Hb|_];
    [pose proof (sum_squares_nonneg b); lra|].
  unfold strict_eq.
  destruct (Req_dec_T (R_sqrt.sqrt (sum_squares a)) 0) as [|Ha];
    [now left|].
  destruct (Req_dec_T (R_sqrt.sqrt (sum_squares b)) 0) as [|Hb];
    [now left|].
  right. eexists. split; [|reflexivity].
  intros H0. destruct (Rmult_integral _ _ H0); contradiction.
Qed.

End SimilarityFacts.

(** C3. If either argument has zero magnitude, in particular if one of
    them is the zero vector, [cosineSimilarity] returns exactly [0]; and
    [cosineSimilarity(v, v)] is [1] for every non-zero vector [v], in exact
    arithmetic. *)
Theorem cosineSimilarity_zero_and_self (v w : list R) :
  (R_sqrt.sqrt (Algebra.sum_squares v) = 0%R
   \/ R_sqrt.sqrt (Algebra.sum_squares w) = 0%R ->
   Similarity.cosineSimilarity v w = JsNumber.Num 0)
  /\ (Algebra.zero_vector v ->
      Similarity.cosineSimilarity v w = JsNumber.Num 0
      /\ Similarity.cosineSimilarity w v = JsNumber.Num 0)
  /\ (~ Algebra.zero_vector v ->
      Similarity.cosineSimilarity v v = JsNumber.Num 1).
Proof.
  split; [|split].
  - apply cosineSimilarity_zero_magnitude.
  - intros Hz. apply zero_vector_magnitude in Hz.
    split; apply cosineSimilarity_zero_magnitude; auto.
  - apply cosineSimilarity_self.
Qed.

Lemma cosineSimilarity_zero_and_self_witness :
  Similarity.cosineSimilarity [0; 0]%R [3; 4]%R = JsNumber.Num 0
  /\ Similarity.cosineSimilarity [3; 4]%R [0; 0]%R = JsNumber.Num 0
  /\ Similarity.cosineSimilarity [3; 4]%R [3; 4]%R = JsNumber.Num 1.
Proof.
  assert (Algebra.zero_vector [0; 0]%R) as Hz by (repeat constructor).
  assert (~ Algebra.zero_vector [3; 4]%R) as Hnz.
  { intros H. inversion H as [|? ? H3 _]. lra. }
  split; [|split].
  - apply (proj1 (proj2 (cosineSimilarity_zero_and_self [0; 0]%R [3; 4]%R)) Hz).
  - apply (proj1 (proj2 (cosineSimilarity_zero_and_self [0; 0]%R [3; 4]%R)) Hz).
  - apply (proj2 (proj2 (cosineSimilarity_zero_and_self [3; 4]%R [3; 4]%R)) Hnz).
Defined.

(** C10. [cosineSimilarity] is symmetric on vectors of equal length. *)
Theorem cosineSimilarity_symmetric (a b : list R) :
  List.length a = List.length b ->
  Similarity.cosineSimilarity a b = Similarity.cosineSimilarity b a.
Proof.
  intros Hlen.
  rewrite (cosineSimilarity_closed_form a b) by lia.
  rewrite (cosineSimilarity_closed_form b a) by lia.
  rewrite orb_comm, (sum_products_comm a b).
  rewrite (Rmult_comm (R_sqrt.sqrt (Algebra.sum_squares a))).
  reflexivity.
Qed.

Lemma cosineSimilarity_symmetric_witness :
  Similarity.cosineSimilarity [1; 2]%R [3; 4]%R
  = Similarity.cosineSimilarity [3; 4]%R [1; 2]%R.
Proof. apply (@cosineSimilarity_symmetric [1; 2]%R [3; 4]%R). reflexivity. Defined.

(** ** Sorting and slicing *)

Section SortFacts.

Import JsNumber Retrieval.
Local Open Scope R_scope.

Variable A : Type.
Variable comparefn : A -> A -> number.

Lemma insert_permutation (x : A) (l : list A) :
  Permutation (JsArray.insert comparefn x l) (x :: l).
Proof.
  induction l as [|y l IH]; simpl; [reflexivity|].
  destruct (positive (comparefn x y)); [|reflexivity].
  rewrite IH. apply perm_swap.
Qed.

Lemma insertion_sort_permutation (l : list A) :
  Permutation (JsArray.insertion_sort comparefn l) l.
Proof.
  induction l as [|x l IH]; simpl; [reflexivity|].
  rewrite insert_permutation. now constructor.
Qed.

Lemma count_and_make_run_permutation (l : list A) :
  Permutation (fst (JsArray.count_and_make_run comparefn l)) l.
Proof.
  destruct l as [|elementHigh [|elementLow rest]]; try reflexivity.
  unfold JsArray.count_and_make_run.
  destruct (negative (comparefn elementLow elementHigh)); [|reflexivity].
  cbn [fst].
  match goal with
  | |- Permutation (rev (firstn ?n ?l) ++ skipn ?n ?l) _ =>
      transitivity (firstn n l ++ skipn n l);
      [apply Permutation_app_tail; symmetry; apply Permutation_rev
      | now rewrite firstn_skipn]
  end.
Qed.

Lemma binary_insertion_sort_permutation (rest : list A) : forall sorted,
  Permutation (JsArray.binary_insertion_sort comparefn sorted rest)
    (sorted ++ rest).
Proof.
  induction rest as [|pivot rest IH]; intros sorted;
    cbn [JsArray.binary_insertion_sort].
  - now rewrite app_nil_r.
  - rewrite IH.
    set (left := JsArray.insertion_point comparefn _ pivot sorted _ _).
    rewrite <- app_assoc. cbn [app].
    transitivity (pivot :: sorted ++ rest); [|apply Permutation_middle].
    rewrite <- (firstn_skipn left sorted) at 3.
    rewrite <- app_assoc. symmetry. apply Permutation_middle.
Qed.

Lemma sort_permutation (l : list A) :
  Permutation (JsArray.sort comparefn l) l.
Proof.
  unfold JsArray.sort.
  destruct (List.length l <? 64)%nat; [|apply insertion_sort_permutation].
  pose proof (count_and_make_run_permutation l) as Hrun.
  destruct (JsArray.count_and_make_run comparefn l) as [work runLength].
  cbn [fst] in Hrun.
  rewrite binary_insertion_sort_permutation, firstn_skipn. exact Hrun.
Qed.

Lemma firstn_length_app (l1 l2 : list A) :
  firstn (List.length l1) (l1 ++ l2) = l1.
Proof.
  rewrite firstn_app, Nat.sub_diag, firstn_all. cbn [firstn].
  apply app_nil_r.
Qed.

Lemma skipn_length_app (l1 l2 : list A) :
  skipn (List.length l1) (l1 ++ l2) = l2.
Proof. now rewrite skipn_app, Nat.sub_diag, skipn_all. Qed.

Lemma run_rest_le (isDescending : bool) (rest : list A) :
  forall previousElement,
    (JsArray.run_rest comparefn isDescending previousElement rest
     <= List.length rest)%nat.
Proof.
  induction rest as [|currentElement rest IH]; intros previousElement;
    cbn [JsArray.run_rest List.length]; [lia|].
  destruct (if isDescending then _ else _); [lia|].
  specialize (IH currentElement). lia.
Qed.

(** Putting an element between two parts of a sorted list. *)
Lemma StronglySorted_insert_middle (R : A -> A -> Prop) (p : A)
    (l1 l2 : list A) :
  StronglySorted R (l1 ++ l2) ->
  Forall (fun x => R x p) l1 -> Forall (R p) l2 ->
  StronglySorted R (l1 ++ p :: l2).
Proof.
  induction l1 as [|a l1 IH]; intros Hs H1 H2; cbn [app] in *.
  - now constructor.
  - apply StronglySorted_inv in Hs as [Hs Ha].
    inversion H1 as [|? ? Hap H1']; subst.
    constructor; [now apply IH|].
    apply Forall_app in Ha as [Ha1 Ha2].
    apply Forall_app. split; [exact Ha1 | now constructor].
Qed.

(** A sorted list read backwards is sorted for the converse relation. *)
Lemma StronglySorted_rev (R : A -> A -> Prop) (l : list A) :
  StronglySorted R l -> StronglySorted (fun a b => R b a) (rev l).
Proof.
  induction 1 as [|a l Hs IH Ha]; cbn [rev]; [constructor|].
  rewrite <- (app_nil_r (rev l ++ [a])), <- app_assoc. cbn [app].
  apply StronglySorted_insert_middle.
  - now rewrite app_nil_r.
  - apply Forall_rev. exact Ha.
  - constructor.
Qed.

Lemma slice_0_5 (l : list A) : JsArray.slice l 0 5 = firstn 5 l.
Proof.
  unfold JsArray.slice, JsArray.relative. simpl Z.ltb. cbv iota.
  rewrite (Z.min_l 0) by lia. simpl Z.to_nat. simpl skipn.
  replace (Z.to_nat (Z.max (Z.min 5 (Z.of_nat (List.length l)) - 0) 0))
    with (Nat.min 5 (List.length l)) by lia.
  destruct (Nat.le_gt_cases 5 (List.length l)) as [H|H].
  - now rewrite Nat.min_l.
  - rewrite Nat.min_r by lia. rewrite firstn_all.
    symmetry. apply firstn_all2. lia.
Qed.

Lemma firstn_incl (n : nat) : forall (l : list A) (y : A),
  In y (firstn n l) -> In y l.
Proof.
  induction n as [|n IH]; intros [|x l] y Hy; simpl in *; try contradiction.
  destruct Hy as [Hy|Hy]; [now left | right; now apply IH].
Qed.

Lemma firstn_StronglySorted (R : A -> A -> Prop) (n : nat) : forall l,
  StronglySorted R l -> StronglySorted R (firstn n l).
Proof.
  induction n as [|n IH]; intros l Hl; [constructor|].
  destruct l as [|x l]; [constructor|].
  apply StronglySorted_inv in Hl as [Hs Hall]. simpl. constructor.
  - now apply IH.
  - rewrite Forall_forall in *. intros y Hy. apply Hall.
    eapply firstn_incl. exact Hy.
Qed.

End SortFacts.

(** ** The retrieval step *)

Section RetrievalFacts.

Import JsNumber Retrieval.
Local Open Scope R_scope.

Lemma ge_trans (a b c : number) : ge a b -> ge b c -> ge a c.
Proof. destruct a, b, c; simpl; try tauto. lra. Qed.

(** Inserting into a descending list of numeric scores keeps it
descending. *)
Lemma insert_descending (x : Vector.t) (l : list Vector.t) :
  numeric x -> Forall numeric l -> descending l ->
  descending (JsArray.insert Services.by_similarity x l).
Proof.
  unfold descending. intros [a Ha] Hnum Hsorted.
  induction l as [|y l IH]; simpl.
  - repeat constructor.
  - inversion Hnum as [|? ? [b Hb] Hnum']; subst.
    apply StronglySorted_inv in Hsorted as [Hl Hy].
    unfold Services.by_similarity at 1. rewrite Ha, Hb. simpl.
    destruct (Rlt_dec 0 (b - a)) as [Hlt|Hnlt].
    + constructor; [now apply IH|].
      eapply Permutation_Forall;
        [symmetry; apply insert_permutation|].
      constructor; [|exact Hy]. rewrite Ha, Hb. simpl. lra.
    + assert (ge (Vector.score x) (Vector.score y)) as Hxy
        by (rewrite Ha, Hb; simpl; lra).
      constructor; [now constructor|].
      constructor; [exact Hxy|].
      eapply Forall_impl; [|exact Hy].
      intros z Hz. eapply ge_trans; eassumption.
Qed.

Lemma insertion_sort_descending (l : list Vector.t) :
  Forall numeric l ->
  descending (JsArray.insertion_sort Services.by_similarity l).
Proof.
  induction l as [|x l IH]; intros Hnum; simpl; [constructor|].
  inversion Hnum; subst. apply insert_descending; auto.
  eapply Permutation_Forall;
    [symmetry; apply insertion_sort_permutation | assumption].
Qed.

(** An insertion moves an entry only past entries of another score. *)
Lemma insert_stable (s : number) (x : Vector.t) (l : list Vector.t) :
  filter (has_score s) (JsArray.insert Services.by_similarity x l)
  = filter (has_score s) (x :: l).
Proof.
  induction l as [|y l IH]; [reflexivity|].
  cbn [JsArray.insert].
  destruct (positive (Services.by_similarity x y)) eqn:Hpos; [|reflexivity].
  cbn [filter] in *. rewrite IH.
  unfold Services.by_similarity in Hpos. unfold has_score.
  destruct (Vector.score x) as [a|], (Vector.score y) as [b|];
    simpl in Hpos; try discriminate.
  destruct (Rlt_dec 0 (b - a)) as [Hlt|]; [|discriminate].
  destruct s as [r|]; simpl; [|reflexivity].
  destruct (Req_dec_T a r), (Req_dec_T b r); try reflexivity. lra.
Qed.

Lemma insertion_sort_stable (s : number) (l : list Vector.t) :
  filter (has_score s) (JsArray.insertion_sort Services.by_similarity l)
  = filter (has_score s) l.
Proof.
  induction l as [|x l IH]; [reflexivity|].
  cbn [JsArray.insertion_sort]. rewrite insert_stable. cbn [filter].
  now rewrite IH.
Qed.

(** *** The engine's sort on numeric scores *)

Lemma numeric_score (v : Vector.t) :
  numeric v -> Vector.score v = Num (score_value v).
Proof. intros [r Hr]. unfold score_value. now rewrite Hr. Qed.

(** The comparator's test on two numeric scores. *)
Lemma negative_by_similarity (a b : Vector.t) :
  numeric a -> numeric b ->
  negative (Services.by_similarity a b)
  = if Rlt_dec (score_value b) (score_value a) then true else false.
Proof.
  intros Ha Hb. unfold Services.by_similarity.
  rewrite (numeric_score Ha), (numeric_score Hb). cbn [sub negative].
  destruct (Rlt_dec (score_value b - score_value a) 0),
    (Rlt_dec (score_value b) (score_value a)); try reflexivity; lra.
Qed.

Lemma descending_of_values (l : list Vector.t) :
  Forall numeric l ->
  StronglySorted (fun a b => score_value a >= score_value b) l ->
  descending l.
Proof.
  unfold descending. intros Hnum Hs.
  induction Hs as [|a l Hs IH Ha]; [constructor|].
  inversion Hnum as [|? ? Hna Hnl]; subst.
  constructor; [now apply IH|].
  rewrite Forall_forall in *. intros b Hb.
  rewrite (numeric_score Hna), (numeric_score (Hnl b Hb)). cbn [ge].
  now apply Ha.
Qed.

Lemma values_sorted_nth (l : list Vector.t) :
  StronglySorted (fun a b => score_value a >= score_value b) l ->
  forall (i j : nat) (d : Vector.t),
    (i <= j)%nat -> (j < List.length l)%nat ->
    score_value (nth i l d) >= score_value (nth j l d).
Proof.
  induction 1 as [|a l Hs IH Ha]; intros i j d Hij Hj;
    [simpl in Hj; lia|].
  destruct j as [|j].
  - replace i with 0%nat by lia. apply Rge_refl.
  - destruct i as [|i]; cbn [nth].
    + rewrite Forall_forall in Ha. apply Ha. apply nth_In.
      simpl in Hj. lia.
    + apply IH; simpl in Hj; lia.
Qed.

(** The binary search finds the place after the entries that score at
least as high as the pivot. *)
Lemma insertion_point_spec (pivot : Vector.t) (sorted : list Vector.t) :
  numeric pivot -> Forall numeric sorted ->
  StronglySorted (fun a b => score_value a >= score_value b) sorted ->
  forall (fuel left right : nat),
    (left <= right)%nat -> (right <= List.length sorted)%nat ->
    (right - left <= fuel)%nat ->
    (forall i, (i < left)%nat ->
       score_value (nth i sorted pivot) >= score_value pivot) ->
    (forall i, (right <= i)%nat -> (i < List.length sorted)%nat ->
       score_value (nth i sorted pivot) < score_value pivot) ->
    let k :=
      JsArray.insertion_point Services.by_similarity fuel pivot sorted
        left right in
    (k <= List.length sorted)%nat
    /\ (forall i, (i < k)%nat ->
          score_value (nth i sorted pivot) >= score_value pivot)
    /\ (forall i, (k <= i)%nat -> (i < List.length sorted)%nat ->
          score_value (nth i sorted pivot) < score_value pivot).
Proof.
  intros Hp Hnum Hs.
  induction fuel as [|fuel IH]; intros left right Hlr Hr Hfuel Hbefore Hafter;
    cbn [JsArray.insertion_point].
  - assert (left = right) by lia. subst right. cbv zeta.
    split; [lia|]. split; assumption.
  - destruct (Nat.ltb_spec left right) as [Hlt|Hge].
    + assert (Nat.div2 (right - left) < right - left)%nat as Hhalf
        by (apply Nat.lt_div2; lia).
      generalize dependent (Nat.div2 (right - left)). intros half Hhalf.
      set (mid := (left + half)%nat) in *.
      assert (left <= mid /\ mid < right)%nat as [Hlm Hmr] by (unfold mid; lia).
      assert (numeric (nth mid sorted pivot)) as Hm.
      { rewrite Forall_forall in Hnum. apply Hnum. apply nth_In. lia. }
      rewrite (negative_by_similarity Hp Hm).
      destruct (Rlt_dec (score_value (nth mid sorted pivot))
                  (score_value pivot)) as [Hless|Hnot].
      * apply IH; try lia; [exact Hbefore|].
        intros i Hi Hlen.
        pose proof (@values_sorted_nth sorted Hs mid i pivot Hi Hlen). lra.
      * apply IH; try lia; [|exact Hafter].
        intros i Hi.
        assert (i <= mid)%nat as Him by lia.
        pose proof (@values_sorted_nth sorted Hs i mid pivot Him
                      ltac:(lia)). lra.
    + assert (left = right) by lia. subst right. cbv zeta.
      split; [lia|]. split; assumption.
Qed.

(** What one insertion of the engine's sort does to a sorted part. *)
Lemma insertion_point_parts (pivot : Vector.t) (sorted : list Vector.t) :
  numeric pivot -> Forall numeric sorted ->
  StronglySorted (fun a b => score_value a >= score_value b) sorted ->
  let k :=
    JsArray.insertion_point Services.by_similarity (List.length sorted)
      pivot sorted 0 (List.length sorted) in
  Forall (fun x => score_value x >= score_value pivot) (firstn k sorted)
  /\ Forall (fun x => score_value x < score_value pivot) (skipn k sorted).
Proof.
  intros Hp Hnum Hs.
  destruct (@insertion_point_spec pivot sorted Hp Hnum Hs
              (List.length sorted) 0%nat (List.length sorted))
    as (Hk & Hbefore & Hafter); try lia.
  cbv zeta.
  set (k := JsArray.insertion_point _ _ _ _ _ _) in *.
  split; apply Forall_nth; intros i d Hi.
  - rewrite length_firstn in Hi.
    rewrite nth_firstn. destruct (Nat.ltb_spec i k); [|lia].
    rewrite (nth_indep sorted d pivot) by lia. apply Hbefore. lia.
  - rewrite length_skipn in Hi. rewrite nth_skipn.
    rewrite (nth_indep sorted d pivot) by lia. apply Hafter; lia.
Qed.

Lemma binary_insertion_sort_sorted (rest : list Vector.t) :
  forall sorted,
    Forall numeric sorted -> Forall numeric rest ->
    StronglySorted (fun a b => score_value a >= score_value b) sorted ->
    StronglySorted (fun a b => score_value a >= score_value b)
      (JsArray.binary_insertion_sort Services.by_similarity sorted rest).
Proof.
  induction rest as [|pivot rest IH]; intros sorted Hnum Hrest Hs;
    cbn [JsArray.binary_insertion_sort]; [exact Hs|].
  inversion Hrest as [|? ? Hp Hrest']; subst.
  destruct (@insertion_point_parts pivot sorted Hp Hnum Hs)
    as [Hbefore Hafter].
  cbv zeta in Hbefore, Hafter.
  set (k := JsArray.insertion_point _ _ _ _ _ _) in *.
  apply IH; [|exact Hrest'|].
  - rewrite <- (firstn_skipn k sorted) in Hnum.
    apply Forall_app in Hnum as [H1 H2].
    apply Forall_app. split; [exact H1 | now constructor].
  - apply StronglySorted_insert_middle.
    + now rewrite firstn_skipn.
    + exact Hbefore.
    + eapply Forall_impl; [|exact Hafter]. intros x Hx. cbv beta. lra.
Qed.

Lemma filter_none (A : Type) (p : A -> bool) (l : list A) :
  Forall (fun x => p x = false) l -> filter p l = [].
Proof.
  induction 1 as [|x l Hx Hl IH]; [reflexivity|].
  cbn [filter]. now rewrite Hx.
Qed.

(** Entries of different value do not have the same score. *)
Lemma has_score_apart (s : number) (x y : Vector.t) :
  numeric x -> numeric y -> score_value x <> score_value y ->
  has_score s x = true -> has_score s y = false.
Proof.
  intros Hx Hy Hne. unfold has_score.
  rewrite (numeric_score Hx), (numeric_score Hy).
  destruct s as [r|]; cbn [same]; [|discriminate].
  destruct (Req_dec_T (score_value x) r), (Req_dec_T (score_value y) r);
    try reflexivity; try discriminate.
  exfalso. apply Hne. congruence.
Qed.

Lemma binary_insertion_sort_stable (s : number) (rest : list Vector.t) :
  forall sorted,
    Forall numeric sorted -> Forall numeric rest ->
    StronglySorted (fun a b => score_value a >= score_value b) sorted ->
    filter (has_score s)
      (JsArray.binary_insertion_sort Services.by_similarity sorted rest)
    = filter (has_score s) (sorted ++ rest).
Proof.
  induction rest as [|pivot rest IH]; intros sorted Hnum Hrest Hs;
    cbn [JsArray.binary_insertion_sort]; [now rewrite app_nil_r|].
  inversion Hrest as [|? ? Hp Hrest']; subst.
  destruct (@insertion_point_parts pivot sorted Hp Hnum Hs)
    as [Hbefore Hafter].
  cbv zeta in Hbefore, Hafter.
  set (k := JsArray.insertion_point _ _ _ _ _ _) in *.
  assert (Forall numeric (firstn k sorted) /\ Forall numeric (skipn k sorted))
    as [Hn1 Hn2].
  { rewrite <- (firstn_skipn k sorted) in Hnum.
    now apply Forall_app in Hnum. }
  rewrite IH; [|apply Forall_app; split; [exact Hn1 | now constructor]
               |exact Hrest'|].
  - rewrite <- (firstn_skipn k sorted) at 3.
    rewrite !filter_app. cbn [filter].
    destruct (has_score s pivot) eqn:Hsp; [|now rewrite <- !app_assoc].
    rewrite (@filter_none _ (has_score s) (skipn k sorted)).
    + now rewrite <- !app_assoc.
    + rewrite Forall_forall in *. intros y Hy.
      apply (@has_score_apart s pivot y Hp (Hn2 y Hy)); [|exact Hsp].
      specialize (Hafter y Hy). cbv beta in Hafter. lra.
  - apply StronglySorted_insert_middle.
    + now rewrite firstn_skipn.
    + exact Hbefore.
    + eapply Forall_impl; [|exact Hafter]. intros x Hx. cbv beta. lra.
Qed.

(** The run at the start of the array is a chain: every element is in
order with the next one, in the direction of the run. *)
Lemma run_rest_chain (isDescending : bool) (rest : list Vector.t) :
  forall previousElement,
    numeric previousElement -> Forall numeric rest ->
    Sorted (fun a b => if isDescending
                       then score_value a < score_value b
                       else score_value a >= score_value b)
      (previousElement
       :: firstn (JsArray.run_rest Services.by_similarity isDescending
                    previousElement rest) rest).
Proof.
  induction rest as [|currentElement rest IH];
    intros previousElement Hp Hrest; cbn [JsArray.run_rest].
  - repeat constructor.
  - inversion Hrest as [|? ? Hc Hrest']; subst. cbv zeta.
    rewrite (negative_by_similarity Hc Hp).
    destruct isDescending;
      destruct (Rlt_dec (score_value previousElement)
                  (score_value currentElement)) as [Hlt|Hnlt];
      cbn [negb firstn]; try (repeat constructor; fail).
    + constructor; [now apply IH|]. now constructor.
    + constructor; [now apply IH|]. constructor. lra.
Qed.

(** The array after [CountAndMakeRun]: a sorted run, then the elements
that follow the run in the array. *)
Lemma count_and_make_run_spec (s : number) (arr : list Vector.t) :
  Forall numeric arr ->
  let (work, runLength) :=
    JsArray.count_and_make_run Services.by_similarity arr in
  StronglySorted (fun a b => score_value a >= score_value b)
    (firstn runLength work)
  /\ filter (has_score s) (firstn runLength work ++ skipn runLength work)
     = filter (has_score s) arr.
Proof.
  intros Hnum.
  destruct arr as [|elementHigh [|elementLow rest]].
  - cbn. split; [constructor | reflexivity].
  - cbn. split; [repeat constructor | reflexivity].
  - unfold JsArray.count_and_make_run.
    inversion Hnum as [|? ? Hh Hnum']; subst.
    inversion Hnum' as [|? ? Hl Hrest]; subst.
    pose proof (run_rest_le Services.by_similarity
                  (negative (Services.by_similarity elementLow elementHigh))
                  rest elementLow) as Hle.
    pose proof (@run_rest_chain
                  (negative (Services.by_similarity elementLow elementHigh))
                  rest elementLow Hl Hrest) as Hchain.
    set (k := JsArray.run_rest _ _ _ _) in *.
    rewrite (negative_by_similarity Hl Hh) in *.
    destruct (Rlt_dec (score_value elementHigh) (score_value elementLow))
      as [Hlt|Hnlt].
    + (* a strictly ascending run of scores, reversed *)
      assert (StronglySorted (fun a b => score_value a < score_value b)
                (elementHigh :: elementLow :: firstn k rest)) as Hup.
      { apply Sorted_StronglySorted; [intros x y z; lra|].
        constructor; [exact Hchain | now constructor]. }
      change (firstn (S (S k)) (elementHigh :: elementLow :: rest))
        with (elementHigh :: elementLow :: firstn k rest).
      change (skipn (S (S k)) (elementHigh :: elementLow :: rest))
        with (skipn k rest).
      set (run := elementHigh :: elementLow :: firstn k rest) in *.
      assert (S (S k) = List.length (rev run)) as Hlen.
      { rewrite length_rev. unfold run. cbn [List.length].
        rewrite length_firstn. lia. }
      rewrite Hlen, firstn_length_app, skipn_length_app.
      split.
      * apply StronglySorted_rev in Hup.
        clear - Hup. induction Hup as [|a l Hs IH Ha]; [constructor|].
        constructor; [exact IH|].
        eapply Forall_impl; [|exact Ha]. intros x Hx. cbv beta in *. lra.
      * rewrite !filter_app, filter_rev.
        replace (rev (filter (has_score s) run))
          with (filter (has_score s) run).
        -- rewrite <- filter_app. unfold run. cbn [app].
           now rewrite firstn_skipn.
        -- assert (Forall numeric run) as Hrun.
           { unfold run. constructor; [exact Hh|].
             constructor; [exact Hl|].
             rewrite Forall_forall in *. intros x Hx. apply Hrest.
             eapply firstn_incl. exact Hx. }
           clear - Hup Hrun.
           induction Hup as [|a l Hs IH Ha]; [reflexivity|].
           inversion Hrun as [|? ? Hna Hnl]; subst.
           cbn [filter]. destruct (has_score s a) eqn:Hsa; [|now apply IH].
           rewrite (@filter_none _ (has_score s) l); [reflexivity|].
           rewrite Forall_forall in *. intros y Hy.
           apply (@has_score_apart s a y Hna (Hnl y Hy)); [|exact Hsa].
           specialize (Ha y Hy). cbv beta in Ha. lra.
    + split.
      * change (firstn (S (S k)) (elementHigh :: elementLow :: rest))
          with (elementHigh :: elementLow :: firstn k rest).
        assert (StronglySorted
                  (fun a b => score_value a >= score_value b)
                  (elementHigh :: elementLow :: firstn k rest)) as Hdown.
        { apply Sorted_StronglySorted; [intros x y z; lra|].
          constructor; [exact Hchain|]. constructor. lra. }
        exact Hdown.
      * now rewrite firstn_skipn.
Qed.

Lemma sort_descending (l : list Vector.t) :
  Forall numeric l -> descending (JsArray.sort Services.by_similarity l).
Proof.
  intros Hnum. apply descending_of_values.
  { eapply Permutation_Forall; [symmetry; apply sort_permutation | exact Hnum]. }
  unfold JsArray.sort.
  destruct (List.length l <? 64)%nat.
  - pose proof (count_and_make_run_permutation Services.by_similarity l)
      as Hperm.
    pose proof (@count_and_make_run_spec NaN l Hnum) as Hspec.
    destruct (JsArray.count_and_make_run Services.by_similarity l)
      as [work runLength].
    cbn [fst] in Hperm. destruct Hspec as [Hrun _].
    assert (Forall numeric work) as Hwork
      by (eapply Permutation_Forall; [symmetry; exact Hperm | exact Hnum]).
    rewrite <- (firstn_skipn runLength work) in Hwork.
    apply Forall_app in Hwork as [H1 H2].
    now apply binary_insertion_sort_sorted.
  - pose proof (insertion_sort_descending Hnum) as Hd.
    unfold descending in Hd.
    clear - Hd. induction Hd as [|a l0 Hs IH Ha]; [constructor|].
    constructor; [exact IH|].
    eapply Forall_impl; [|exact Ha]. intros b Hb. cbv beta in *.
    unfold score_value.
    destruct (Vector.score a), (Vector.score b); simpl in Hb;
      try contradiction. exact Hb.
Qed.

(** On numeric scores the sort is stable: the entries of a given score
keep their order. *)
Lemma sort_stable (s : number) (l : list Vector.t) :
  Forall numeric l ->
  filter (has_score s) (JsArray.sort Services.by_similarity l)
  = filter (has_score s) l.
Proof.
  intros Hnum. unfold JsArray.sort.
  destruct (List.length l <? 64)%nat; [|apply insertion_sort_stable].
  pose proof (count_and_make_run_permutation Services.by_similarity l)
    as Hperm.
  pose proof (@count_and_make_run_spec s l Hnum) as Hspec.
  destruct (JsArray.count_and_make_run Services.by_similarity l)
    as [work runLength].
  cbn [fst] in Hperm. destruct Hspec as [Hrun Hfilter].
  assert (Forall numeric work) as Hwork
    by (eapply Permutation_Forall; [symmetry; exact Hperm | exact Hnum]).
  rewrite <- (firstn_skipn runLength work) in Hwork.
  apply Forall_app in Hwork as [H1 H2].
  rewrite binary_insertion_sort_stable by assumption.
  exact Hfilter.
Qed.

(** The entries of given score in a prefix are a prefix of those in the
whole list. *)
Lemma filter_firstn_prefix (A : Type) (p : A -> bool) (n : nat) :
  forall l : list A,
    filter p l = filter p (firstn n l) ++ filter p (skipn n l).
Proof.
  intros l. rewrite <- filter_app. now rewrite firstn_skipn.
Qed.

Lemma nth_length_app (A : Type) (l : list A) (x d : A) (rest : list A) :
  nth (List.length l) (l ++ x :: rest) d = x.
Proof. rewrite app_nth2 by lia. now rewrite Nat.sub_diag. Qed.

Lemma update_length_app (A : Type) (l : list A) (x y : A) :
  update (l ++ [x]) (List.length l) y = l ++ [y].
Proof. induction l as [|z l IH]; simpl; [reflexivity | now rewrite IH]. Qed.

(** The retrieval step, executed: two new arrays, the sorted scored
copies and their first five; the store is only read. *)
Lemma similarDocs_run (queryEmbedding : list R) (env : Env.t) (w : World.t) :
  let sorted :=
    JsArray.sort Services.by_similarity
      (List.map (Services.scored queryEmbedding) (store_of w)) in
  Services.similarDocs queryEmbedding env w
  = (Returned (S (List.length (World.heap w))),
     {| World.heap := World.heap w ++ [sorted; firstn 5 sorted];
        World.trace := World.trace w |}).
Proof.
  intros sorted.
  unfold Services.similarDocs, array_map, array_sort, array_slice, bind,
    read_array, write_array, alloc_array, ret.
  cbn [World.heap World.trace].
  rewrite nth_length_app, update_length_app, nth_length_app, slice_0_5.
  rewrite <- app_assoc, length_app. simpl List.length. simpl app.
  repeat f_equal. lia.
Qed.

Lemma array_of_new (heap : list (list Vector.t)) (tr : list event)
    (a b : list Vector.t) :
  array_of {| World.heap := heap ++ [a; b]; World.trace := tr |}
    (S (List.length heap)) = b.
Proof.
  unfold array_of. cbn [World.heap].
  replace (heap ++ [a; b]) with ((heap ++ [a]) ++ [b])
    by (now rewrite <- app_assoc).
  replace (S (List.length heap)) with (List.length (heap ++ [a]))
    by (rewrite length_app; simpl; lia).
  apply nth_length_app.
Qed.

(** The store is not among the new arrays. *)
Lemma store_of_app (heap more : list (list Vector.t)) (tr tr' : list event) :
  Forall (fun arr => heap = [] -> arr = []) (firstn 1 more) ->
  store_of {| World.heap := heap ++ more; World.trace := tr' |}
  = store_of {| World.heap := heap; World.trace := tr |}.
Proof.
  unfold store_of, Services.vectorStore. cbn [World.heap].
  intros H. destruct heap as [|c heap]; [|reflexivity].
  destruct more as [|m more]; [reflexivity|].
  inversion H; subst. simpl. auto.
Qed.

End RetrievalFacts.

(** ** Scores *)

Section ScoreFacts.

Import JsNumber Algebra Similarity Retrieval.
Local Open Scope R_scope.

(** When [vecB] is not the shorter vector the score is a number. *)
Lemma cosineSimilarity_numeric (a b : list R) :
  (List.length a <= List.length b)%nat ->
  exists r, cosineSimilarity a b = Num r.
Proof.
  intros Hle. rewrite cosineSimilarity_closed_form by assumption.
  unfold strict_eq.
  destruct (Req_dec_T (R_sqrt.sqrt (sum_squares a)) 0) as [|Ha];
    [now exists 0|].
  destruct (Req_dec_T (R_sqrt.sqrt (sum_squares b)) 0) as [|Hb];
    [now exists 0|].
  simpl.
  destruct (Req_dec_T
              (R_sqrt.sqrt (sum_squares a) * R_sqrt.sqrt (sum_squares b)) 0)
    as [H0|_].
  - destruct (Rmult_integral _ _ H0); contradiction.
  - eexists. reflexivity.
Qed.

Lemma sqrt_sum_squares_1_0 : R_sqrt.sqrt (sum_squares [1; 0]) = 1.
Proof.
  simpl. replace (1 * 1 + (0 * 0 + 0)) with 1 by lra. apply sqrt_1.
Qed.

Lemma sqrt_sum_squares_0_1 : R_sqrt.sqrt (sum_squares [0; 1]) = 1.
Proof.
  simpl. replace (0 * 0 + (1 * 1 + 0)) with 1 by lra. apply sqrt_1.
Qed.

Example cosineSimilarity_orthogonal : cosineSimilarity [1; 0] [0; 1] = Num 0.
Proof.
  rewrite cosineSimilarity_closed_form by (simpl; lia).
  rewrite sqrt_sum_squares_1_0, sqrt_sum_squares_0_1. simpl.
  destruct (Req_dec_T 1 0); [lra|]. simpl.
  destruct (Req_dec_T (1 * 1) 0); [lra|]. f_equal. field.
Qed.

Example cosineSimilarity_parallel : cosineSimilarity [1; 0] [1; 0] = Num 1.
Proof.
  apply cosineSimilarity_self. intros H. inversion H. lra.
Qed.

(** A stored embedding shorter than the query: the product with the
missing component is [NaN]. *)
Example cosineSimilarity_short : cosineSimilarity [1; 0] [1] = NaN.
Proof.
  unfold cosineSimilarity, JsArray.reduce.
  rewrite !reduce_squares.
  cbn [JsArray.reduce_from nth_error of_element mul add sum_squares fold_right].
  unfold sqrt.
  destruct (Rlt_dec (0 + (1 * 1 + (0 * 0 + 0))) 0); [lra|].
  destruct (Rlt_dec (0 + (1 * 1 + 0)) 0); [lra|].
  replace (0 + (1 * 1 + (0 * 0 + 0))) with 1 by lra.
  replace (0 + (1 * 1 + 0)) with 1 by lra.
  rewrite sqrt_1. simpl. destruct (Req_dec_T 1 0); [lra | reflexivity].
Qed.

(** The scored copies of entries whose score is not [NaN] are numeric. *)
Lemma scored_numeric (queryEmbedding : list R) (store : list Vector.t) :
  Forall (fun v => Similarity.cosineSimilarity queryEmbedding
                     (Vector.embedding v) <> NaN) store ->
  Forall numeric (List.map (Services.scored queryEmbedding) store).
Proof.
  intros Hnum. rewrite Forall_forall in *. intros m Hm.
  apply in_map_iff in Hm as (v & <- & Hin).
  unfold numeric, Services.scored, Vector.score. simpl.
  specialize (Hnum v Hin).
  destruct (Similarity.cosineSimilarity queryEmbedding (Vector.embedding v))
    as [r|]; [now exists r | contradiction].
Qed.

(** No stored embedding shorter than the query: no score is [NaN]. *)
Lemma long_enough_numeric (queryEmbedding : list R) (store : list Vector.t) :
  Forall (fun v => (List.length queryEmbedding
                    <= List.length (Vector.embedding v))%nat) store ->
  Forall (fun v => Similarity.cosineSimilarity queryEmbedding
                     (Vector.embedding v) <> NaN) store.
Proof.
  intros H. eapply Forall_impl; [|exact H]. intros v Hv.
  destruct (cosineSimilarity_numeric queryEmbedding (Vector.embedding v) Hv)
    as [r Hr].
  rewrite Hr. discriminate.
Qed.

End ScoreFacts.

(** C2, as stated, fails: an entry whose embedding is shorter than the
query embedding gets the score [NaN]; the comparator then orders nothing
against it, and the matches come back as [0, NaN, 1]. *)
Lemma similarDocs_mixed_store_unordered :
  exists docs w',
    Services.similarDocs [1; 0]%R Examples.offline Examples.mixed_store
    = (Returned docs, w')
    /\ List.map Vector.score (Retrieval.array_of w' docs)
       = [JsNumber.Num 0; JsNumber.NaN; JsNumber.Num 1]
    /\ ~ Retrieval.descending (Retrieval.array_of w' docs).
Proof.
  eexists. eexists. split; [apply similarDocs_run|].
  rewrite array_of_new.
  unfold Retrieval.store_of, Examples.mixed_store, Examples.with_store.
  cbn [World.heap nth Services.vectorStore List.map].
  unfold Services.scored, Examples.entry. cbn [Vector.embedding].
  rewrite cosineSimilarity_orthogonal, cosineSimilarity_short,
    cosineSimilarity_parallel.
  simpl. split; [reflexivity|].
  intros H. apply StronglySorted_inv in H as [_ H].
  inversion H as [|? ? Hge _]. exact Hge.
Qed.

(** C2, amended.  For every query embedding and every state of the store,
the retrieval step returns at most 5 matches and every match is the
scored copy of an entry of the store; when no score is [NaN] (as is the
case when no stored embedding is shorter than the query embedding), the
matches are ordered by descending score. *)
Theorem similarDocs_top5 (queryEmbedding : list R) (env : Env.t)
    (w : World.t) :
  exists docs w',
    Services.similarDocs queryEmbedding env w = (Returned docs, w')
    /\ (List.length (Retrieval.array_of w' docs) <= 5)%nat
    /\ Forall (fun m => exists v, In v (Retrieval.store_of w)
                                  /\ m = Services.scored queryEmbedding v)
         (Retrieval.array_of w' docs)
    /\ (Forall (fun v => Similarity.cosineSimilarity queryEmbedding
                           (Vector.embedding v) <> JsNumber.NaN)
          (Retrieval.store_of w) ->
        Retrieval.descending (Retrieval.array_of w' docs)).
Proof.
  eexists. eexists. split; [apply similarDocs_run|].
  rewrite array_of_new. split; [apply firstn_le_length|]. split.
  - rewrite Forall_forall. intros m Hm.
    apply firstn_incl in Hm.
    apply (Permutation_in _ (sort_permutation _ _)) in Hm.
    apply in_map_iff in Hm as (v & Hv & Hin). now exists v.
  - intros Hnum. apply firstn_StronglySorted. apply sort_descending.
    rewrite Forall_forall in *. intros m Hm.
    apply in_map_iff in Hm as (v & <- & Hin).
    unfold Retrieval.numeric, Services.scored, Vector.score. simpl.
    specialize (Hnum v Hin).
    destruct (Similarity.cosineSimilarity queryEmbedding (Vector.embedding v))
      as [r|]; [now exists r | contradiction].
Qed.

Lemma similarDocs_top5_witness :
  exists docs w',
    Services.similarDocs [1; 0]%R Examples.offline Examples.plain_store
    = (Returned docs, w')
    /\ Retrieval.descending (Retrieval.array_of w' docs).
Proof.
  destruct (similarDocs_top5 [1; 0]%R Examples.offline Examples.plain_store)
    as (docs & w' & Hrun & _ & _ & Hdesc).
  exists docs, w'. split; [exact Hrun|]. apply Hdesc.
  repeat constructor; simpl.
  - rewrite cosineSimilarity_orthogonal. discriminate.
  - rewrite cosineSimilarity_parallel. discriminate.
Defined.

(** *** The engine's sort on concrete arrays *)

Lemma binary_insertion_sort_cons (A : Type)
    (comparefn : A -> A -> JsNumber.number) (sorted rest : list A) (pivot : A)
    (left : nat) :
  JsArray.insertion_point comparefn (List.length sorted) pivot sorted 0
    (List.length sorted) = left ->
  JsArray.binary_insertion_sort comparefn sorted (pivot :: rest)
  = JsArray.binary_insertion_sort comparefn
      (firstn left sorted ++ pivot :: skipn left sorted) rest.
Proof. intros <-. reflexivity. Qed.

(** A test of a comparator's result, decided by arithmetic. *)
Ltac decide_order :=
  match goal with
  | |- context [Rlt_dec ?a ?b] =>
      destruct (Rlt_dec a b); [try (exfalso; lra) | try (exfalso; lra)]
  end.

(** The comparisons of a run or of a binary search; [scores] rewrites with
the scores of the entries. *)
Ltac compare_scores scores :=
  repeat (cbn [JsArray.run_rest JsArray.insertion_point nth List.length
               Nat.ltb Nat.leb Nat.div2 Nat.sub Nat.add negb];
          unfold Services.by_similarity; scores;
          cbn [JsNumber.sub JsNumber.negative];
          try decide_order).

(** The insertion of the next element. *)
Ltac insert_next scores :=
  erewrite binary_insertion_sort_cons;
  [|compare_scores scores; reflexivity];
  cbn [firstn skipn app].

(** Seven entries that score [0, 1, 1, 1, NaN, 1, 1].  The run at the
start, [e0, e1], is strictly ascending for the comparator's order and is
reversed.  [e2] and [e3] are inserted after [e1].  [e4] and then [e5] are
inserted at the end: the search for the place of [e5] probes [e3] and then
[e4], whose [NaN] score sends it further right.  The search for the place
of [e6] probes [e0] first, which sends it left, and [e6] ends up ahead of
[e0], [e4] and [e5]. *)
Lemma sort_across_nan (e0 e1 e2 e3 e4 e5 e6 : Vector.t) :
  Vector.score e0 = JsNumber.Num 0 ->
  Vector.score e1 = JsNumber.Num 1 ->
  Vector.score e2 = JsNumber.Num 1 ->
  Vector.score e3 = JsNumber.Num 1 ->
  Vector.score e4 = JsNumber.NaN ->
  Vector.score e5 = JsNumber.Num 1 ->
  Vector.score e6 = JsNumber.Num 1 ->
  JsArray.sort Services.by_similarity [e0; e1; e2; e3; e4; e5; e6]
  = [e1; e2; e3; e6; e0; e4; e5].
Proof.
  intros H0 H1 H2 H3 H4 H5 H6. unfold JsArray.sort.
  cbn [List.length Nat.ltb Nat.leb].
  assert (JsArray.count_and_make_run Services.by_similarity
            [e0; e1; e2; e3; e4; e5; e6]
          = ([e1; e0; e2; e3; e4; e5; e6], 2%nat)) as ->.
  { unfold JsArray.count_and_make_run.
    compare_scores ltac:(rewrite ?H0, ?H1, ?H2, ?H3, ?H4, ?H5, ?H6).
    reflexivity. }
  cbn [firstn skipn].
  do 5 insert_next ltac:(rewrite ?H0, ?H1, ?H2, ?H3, ?H4, ?H5, ?H6).
  reflexivity.
Qed.

(** C8, as stated, fails: one stored embedding is shorter than the query
embedding, so its score is [NaN] and the comparator orders nothing against
it.  Five entries tie at score [1]; the matches are [e1, e2, e3, e6, e0]:
[e6] is returned and [e5], which ties with it and was inserted before it,
is not. *)
Lemma similarDocs_tie_broken_by_nan :
  exists docs w',
    Services.similarDocs [1; 0]%R Examples.offline Examples.tied_store
    = (Returned docs, w')
    /\ List.map Vector.id (Retrieval.array_of w' docs)
       = ["e1"; "e2"; "e3"; "e6"; "e0"]%string
    /\ List.map Vector.id
         (filter (Retrieval.has_score (JsNumber.Num 1))
            (List.map (Services.scored [1; 0]%R)
               (Retrieval.store_of Examples.tied_store)))
       = ["e1"; "e2"; "e3"; "e5"; "e6"]%string
    /\ ~ exists later,
          filter (Retrieval.has_score (JsNumber.Num 1))
            (List.map (Services.scored [1; 0]%R)
               (Retrieval.store_of Examples.tied_store))
          = filter (Retrieval.has_score (JsNumber.Num 1))
              (Retrieval.array_of w' docs) ++ later.
Proof.
  eexists. eexists. split; [apply similarDocs_run|].
  rewrite array_of_new.
  unfold Retrieval.store_of, Examples.tied_store, Examples.with_store.
  cbn [World.heap nth Services.vectorStore List.map].
  unfold Services.scored, Examples.entry. cbn [Vector.embedding].
  rewrite cosineSimilarity_orthogonal, cosineSimilarity_short,
    cosineSimilarity_parallel.
  erewrite sort_across_nan by reflexivity.
  unfold Retrieval.has_score.
  cbn [firstn filter List.map Vector.score Vector.similarity Vector.id
       Vector.with_similarity JsNumber.same].
  destruct (Req_dec_T 0 1) as [H01|_]; [exfalso; lra|].
  destruct (Req_dec_T 1 1) as [_|H11]; [|exfalso; lra].
  cbn [firstn filter List.map Vector.score Vector.similarity Vector.id
       Vector.with_similarity JsNumber.same app].
  split; [reflexivity|]. split; [reflexivity|].
  intros [later H]. discriminate H.
Qed.

(** C8, amended.  When no score is [NaN] (as is the case when no stored
embedding is shorter than the query embedding), the top-k selection is
stable: for every score [s], the matches of score [s] are, in order, the
first entries of score [s] of the store, so tied entries come back in
insertion order and an earlier one is never left out for a later one. *)
Theorem similarDocs_stable (queryEmbedding : list R) (env : Env.t)
    (w : World.t) (s : JsNumber.number) :
  Forall (fun v => Similarity.cosineSimilarity queryEmbedding
                     (Vector.embedding v) <> JsNumber.NaN)
    (Retrieval.store_of w) ->
  exists docs w' later,
    Services.similarDocs queryEmbedding env w = (Returned docs, w')
    /\ filter (Retrieval.has_score s)
         (List.map (Services.scored queryEmbedding) (Retrieval.store_of w))
       = filter (Retrieval.has_score s) (Retrieval.array_of w' docs) ++ later.
Proof.
  intros Hnum.
  eexists. eexists. eexists. split; [apply similarDocs_run|].
  rewrite array_of_new.
  rewrite <- (@sort_stable s
                (List.map (Services.scored queryEmbedding)
                   (Retrieval.store_of w)))
    by (apply scored_numeric; exact Hnum).
  apply filter_firstn_prefix.
Qed.

Lemma similarDocs_stable_witness :
  exists docs w' later,
    Services.similarDocs [1; 0]%R Examples.offline
      (Examples.with_store
         [Examples.entry "a" [1; 0]%R "first";
          Examples.entry "b" [0; 1]%R "second";
          Examples.entry "c" [1; 0]%R "third"])
    = (Returned docs, w')
    /\ filter (Retrieval.has_score (JsNumber.Num 1))
         (List.map (Services.scored [1; 0]%R)
            [Examples.entry "a" [1; 0]%R "first";
             Examples.entry "b" [0; 1]%R "second";
             Examples.entry "c" [1; 0]%R "third"])
       = filter (Retrieval.has_score (JsNumber.Num 1))
           (Retrieval.array_of w' docs) ++ later.
Proof.
  apply (@similarDocs_stable [1; 0]%R Examples.offline
           (Examples.with_store
              [Examples.entry "a" [1; 0]%R "first";
               Examples.entry "b" [0; 1]%R "second";
               Examples.entry "c" [1; 0]%R "third"])
           (JsNumber.Num 1)).
  apply long_enough_numeric. repeat constructor.
Defined.

(** C9. [handleChat] never mutates the in-process store: whatever the
collaborators answer, and whether the call returns or throws, the entries
of the store after the call are the entries before it. *)
Theorem handleChat_store_unchanged (query : string)
    (history : list Content.t) (env : Env.t) (w : World.t) :
  Retrieval.store_of (snd (Services.handleChat query history env w))
  = Retrieval.store_of w.
Proof.
  unfold Services.handleChat, bind at 1, embedContent, external.
  destruct (Env.embedContent env (World.trace w) "gemini-embedding-001" query
              "RETRIEVAL_QUERY" None) as [e|queryEmbedding];
    [reflexivity|].
  unfold bind at 1. rewrite similarDocs_run. cbv zeta.
  unfold bind, read_array, generateContent, external, ret.
  cbn [World.heap World.trace].
  assert (forall tr,
    Retrieval.store_of
      {| World.heap :=
           World.heap w ++
           [JsArray.sort Services.by_similarity
              (List.map (Services.scored queryEmbedding)
                 (Retrieval.store_of w));
            firstn 5
              (JsArray.sort Services.by_similarity
                 (List.map (Services.scored queryEmbedding)
                    (Retrieval.store_of w)))];
         World.trace := tr |}
    = Retrieval.store_of w) as Hstore.
  { intros tr. destruct w as [heap tr0]. cbn [World.heap].
    apply store_of_app. constructor; [|constructor].
    intros ->. reflexivity. }
  match goal with
  | |- context [Env.generateContent ?a ?b ?c ?d ?e] =>
      destruct (Env.generateContent a b c d e)
  end; simpl snd; apply Hstore.
Qed.

(** ** The dispatcher *)

Section DispatcherFacts.

Import Trace.

Lemma after_nil (w : World.t) : after w [] = w.
Proof. destruct w. unfold after. simpl. now rewrite app_nil_r. Qed.

Lemma after_after (w : World.t) (evs evs' : list event) :
  after (after w evs) evs' = after w (evs ++ evs').
Proof. unfold after. simpl. now rewrite app_assoc. Qed.

Lemma tools_only_ret (A : Type) (a : A) : tools_only (ret a).
Proof.
  intros env w. exists []. simpl. rewrite after_nil. repeat split. discriminate.
Qed.

Lemma tools_only_throw (A : Type) (e : error) : tools_only (@throw A e).
Proof.
  intros env w. exists []. simpl. rewrite after_nil. repeat split. discriminate.
Qed.

Lemma tools_only_lift (A : Type) (r : error + A) : tools_only (lift r).
Proof. destruct r; [apply tools_only_throw | apply tools_only_ret]. Qed.

Lemma tools_only_bind (A B : Type) (m : M A) (k : A -> M B) :
  tools_only m -> (forall a, tools_only (k a)) -> tools_only (bind m k).
Proof.
  intros Hm Hk env w. unfold bind.
  destruct (Hm env w) as (evs & Hw & Hevs & Hnd).
  destruct (m env w) as [[a|e|] w1]; simpl in Hw, Hnd; subst w1.
  - destruct (Hk a env (after w evs)) as (evs' & Hw' & Hevs' & Hnd').
    exists (evs ++ evs'). rewrite Hw', after_after, forallb_app, Hevs, Hevs'.
    auto.
  - exists evs. simpl. repeat split; auto. discriminate.
  - contradiction.
Qed.

Lemma tools_only_try_catch (A : Type) (m : M A) (handler : error -> M A) :
  tools_only m -> (forall e, tools_only (handler e)) ->
  tools_only (try_catch m handler).
Proof.
  intros Hm Hh env w. unfold try_catch.
  destruct (Hm env w) as (evs & Hw & Hevs & Hnd).
  destruct (m env w) as [[a|e|] w1]; simpl in Hw, Hnd; subst w1.
  - exists evs. simpl. repeat split; auto.
  - destruct (Hh e env (after w evs)) as (evs' & Hw' & Hevs' & Hnd').
    exists (evs ++ evs'). rewrite Hw', after_after, forallb_app, Hevs, Hevs'.
    auto.
  - contradiction.
Qed.

Lemma tools_only_external (A : Type)
    (ask : Env.t -> list event -> error + A) (record : error + A -> event) :
  (forall r, is_tool_event (record r) = true) ->
  tools_only (external ask record).
Proof.
  intros Hrec env w. unfold external.
  exists [record (ask env (World.trace w))].
  destruct (ask env (World.trace w)) eqn:Hask; simpl; rewrite Hrec;
    repeat split; discriminate.
Qed.

Lemma getToken_tools_only : tools_only Token.getToken.
Proof.
  unfold Token.getToken.
  apply tools_only_try_catch; [|intros; apply tools_only_ret].
  apply tools_only_bind.
  - apply tools_only_try_catch; [|intros; apply tools_only_ret].
    apply tools_only_external. reflexivity.
  - intros request. apply tools_only_bind; [apply tools_only_lift|].
    intros access_token. apply tools_only_bind; [apply tools_only_lift|].
    intros expires_in. apply tools_only_ret.
Qed.

Lemma handleChat_tools_only (query : string) (history : list Content.t) :
  tools_only (ToolServices.handleChat query history).
Proof.
  unfold ToolServices.handleChat.
  apply tools_only_bind; [apply tools_only_external; reflexivity|].
  intros queryEmbedding.
  apply tools_only_bind; [apply tools_only_external; reflexivity|].
  intros matches.
  apply tools_only_bind; [apply tools_only_external; reflexivity|].
  intros chatModel. apply tools_only_ret.
Qed.

Lemma dispatch_call_tools_only (query : string) (history : list Content.t)
    (functionCall : FunctionCall.t) (results : list Part) :
  tools_only (ToolServices.dispatch_call query history functionCall results).
Proof.
  unfold ToolServices.dispatch_call.
  destruct (String.eqb _ "get_current_temperature").
  { apply tools_only_bind; [apply tools_only_lift|]. intros location.
    apply tools_only_bind; [apply tools_only_external; reflexivity|].
    intros res. apply tools_only_ret. }
  destruct (String.eqb _ "create_zoom_meeting").
  { apply tools_only_bind; [apply getToken_tools_only|]. intros token.
    apply tools_only_bind; [apply tools_only_lift|]. intros topic.
    apply tools_only_bind; [apply tools_only_lift|]. intros invitees.
    apply tools_only_bind; [apply tools_only_lift|]. intros start_time.
    apply tools_only_bind; [apply tools_only_external; reflexivity|].
    intros res. apply tools_only_ret. }
  destruct (String.eqb _ "rag_university_of_baguio_student_handbook").
  { apply tools_only_bind; [apply handleChat_tools_only|].
    intros res. apply tools_only_ret. }
  apply tools_only_ret.
Qed.

Lemma dispatch_tools_only (query : string) (history : list Content.t)
    (functionCalls : list FunctionCall.t) : forall results,
  tools_only (ToolServices.dispatch query history functionCalls results).
Proof.
  induction functionCalls as [|functionCall rest IH]; intros results; simpl.
  - apply tools_only_ret.
  - apply tools_only_bind; [apply dispatch_call_tools_only | intros; apply IH].
Qed.

(** The loop stops at the first call that throws. *)
Lemma dispatch_app_throws (query : string) (history : list Content.t)
    (env : Env.t) (pre : list FunctionCall.t) :
  forall (functionCall : FunctionCall.t) (post : list FunctionCall.t)
         (results results1 : list Part) (w w1 w2 : World.t) (e : error),
    ToolServices.dispatch query history pre results env w
    = (Returned results1, w1) ->
    ToolServices.dispatch_call query history functionCall results1 env w1
    = (Thrown e, w2) ->
    ToolServices.dispatch query history (pre ++ functionCall :: post)
      results env w
    = (Thrown e, w2).
Proof.
  induction pre as [|c pre IH]; intros functionCall post results results1
    w w1 w2 e Hpre Hcall.
  - simpl in Hpre. unfold ret in Hpre. inversion Hpre; subst.
    simpl. unfold bind. now rewrite Hcall.
  - simpl in *. unfold bind in *.
    destruct (ToolServices.dispatch_call query history c results env w)
      as [[results'|e'|] w'] eqn:Hc; try discriminate.
    eapply IH; eassumption.
Qed.

(** The results of a completed loop: one part per handled request, in the
order of the requests, and none for any other request. *)
Lemma dispatch_call_answered (query : string) (history : list Content.t)
    (env : Env.t) (functionCall : FunctionCall.t) (results results' : list Part)
    (w w' : World.t) :
  ToolServices.dispatch_call query history functionCall results env w
  = (Returned results', w') ->
  flat_map answered results'
  = flat_map answered results
    ++ filter handled [FunctionCall.name functionCall].
Proof.
  unfold ToolServices.dispatch_call, handled. cbn [filter].
  destruct (String.eqb _ "get_current_temperature"); simpl orb; cbv iota.
  { unfold bind. destruct (lift _ env w) as [[?|?|] ?]; try discriminate.
    destruct (fetchWeather _ env _) as [[?|?|] ?]; try discriminate.
    unfold ret. intros H; inversion H; subst.
    now rewrite flat_map_app. }
  destruct (String.eqb _ "create_zoom_meeting"); simpl orb; cbv iota.
  { unfold bind. destruct (Token.getToken env w) as [[?|?|] ?]; try discriminate.
    repeat (destruct (lift _ env _) as [[?|?|] ?]; try discriminate).
    destruct (fetchZoomMeeting _ _ _ _ env _) as [[?|?|] ?]; try discriminate.
    unfold ret. intros H; inversion H; subst.
    now rewrite flat_map_app. }
  destruct (String.eqb _ "rag_university_of_baguio_student_handbook");
    cbv iota.
  { unfold bind.
    destruct (ToolServices.handleChat _ _ env w) as [[?|?|] ?];
      try discriminate.
    unfold ret. intros H; inversion H; subst.
    now rewrite flat_map_app. }
  unfold ret. intros H; inversion H; subst. now rewrite app_nil_r.
Qed.

Lemma dispatch_answered (query : string) (history : list Content.t)
    (env : Env.t) (functionCalls : list FunctionCall.t) :
  forall (results results' : list Part) (w w' : World.t),
    ToolServices.dispatch query history functionCalls results env w
    = (Returned results', w') ->
    flat_map answered results'
    = flat_map answered results
      ++ filter handled (List.map FunctionCall.name functionCalls).
Proof.
  induction functionCalls as [|c rest IH]; intros results results' w w' Hrun.
  - simpl in *. unfold ret in Hrun. inversion Hrun; subst.
    now rewrite app_nil_r.
  - simpl in Hrun. unfold bind in Hrun.
    destruct (ToolServices.dispatch_call query history c results env w)
      as [[results1|e|] w1] eqn:Hc; try discriminate.
    apply IH in Hrun. apply dispatch_call_answered in Hc.
    rewrite Hrun, Hc, <- app_assoc. f_equal.
    cbn [List.map filter]. simpl in *. destruct (handled (FunctionCall.name c));
      reflexivity.
Qed.

End DispatcherFacts.

Section RoundFacts.

Import Trace.

(** [handleGenerate] after an initial response that requests calls. *)
Lemma handleGenerate_round (query : string) (history : list Content.t)
    (env : Env.t) (w : World.t) (chatModel : Response.t)
    (functionCall : FunctionCall.t) (rest : list FunctionCall.t) :
  Env.generateContent env (World.trace w) "gemini-2.5-flash"
    (ToolServices.initial_contents query history)
    (ToolServices.initial_config (Env.systemInstruction env))
  = inr chatModel ->
  Response.functionCalls chatModel = Some (functionCall :: rest) ->
  ToolServices.handleGenerate query history env w
  = bind (ToolServices.dispatch query history (functionCall :: rest) [])
      (fun results =>
         functionRes <- generateContent "gemini-2.5-flash"
                          (ToolServices.followup_contents query history results)
                          ToolServices.followup_config ;;
         ret (Response.text functionRes))
      env
      (after w [GenerateContent "gemini-2.5-flash"
                  (ToolServices.initial_contents query history)
                  (ToolServices.initial_config (Env.systemInstruction env))
                  (inr chatModel)]).
Proof.
  intros Hinit Hcalls.
  unfold ToolServices.handleGenerate, bind at 1, systemInstruction.
  unfold bind at 1, generateContent at 1, external.
  rewrite Hinit, Hcalls. reflexivity.
Qed.

(** A generation call whose response is read for its text. *)
Lemma generate_text (contents : Contents) (config : Config.t) (env : Env.t)
    (w : World.t) :
  (functionRes <- generateContent "gemini-2.5-flash" contents config ;;
   ret (Response.text functionRes)) env w
  = (text_of (Env.generateContent env (World.trace w) "gemini-2.5-flash"
                contents config),
     after w [GenerateContent "gemini-2.5-flash" contents config
                (Env.generateContent env (World.trace w) "gemini-2.5-flash"
                   contents config)]).
Proof.
  unfold bind, generateContent, external, ret, after.
  destruct (Env.generateContent env (World.trace w) "gemini-2.5-flash"
              contents config); reflexivity.
Qed.

(** [getToken] with the answer of the token endpoint in hand. *)
Lemma getToken_run (env : Env.t) (w : World.t) :
  let answer := Env.fetchZoomToken env (World.trace w) in
  let request := match answer with inl _ => JUndefined | inr j => j end in
  Token.getToken env w
  = (Returned
       match Json.get request "access_token", Json.get request "expires_in" with
       | inr access_token, inr expires_in =>
           {| Token.access_token := access_token;
              Token.expires_in := expires_in;
              Token.error := None |}
       | inl e, _ | _, inl e =>
           {| Token.access_token := JNull;
              Token.expires_in := JNull;
              Token.error := Some e |}
       end,
     after w [FetchZoomToken answer]).
Proof.
  unfold Token.getToken, try_catch, bind, fetchZoomToken, external, after.
  destruct (Env.fetchZoomToken env (World.trace w)) as [e|j]; cbv zeta.
  - reflexivity.
  - destruct j; reflexivity.
Qed.

End RoundFacts.

(** The retrieval tool is declared to the model under one name,
[rag_intro_llm_prompt_engineering], and dispatched under another,
[rag_university_of_baguio_student_handbook].  When the model requests the
declared tool no branch runs, and the follow-up turn is sent with no part
at all. *)
Lemma handleGenerate_declared_rag_tool_unanswered :
  let env :=
    Examples.scripted [Examples.rag_request] (inr Examples.sunny)
      (inr Examples.zoom_token) (inr Examples.zoom_meeting) in
  let answer :=
    inr {| Response.text := None;
           Response.functionCalls := Some [Examples.rag_request] |} in
  In ragFunctionDeclaration
    (Config.tools (ToolServices.initial_config (Env.systemInstruction env)))
  /\ Trace.handled (FunctionCall.name Examples.rag_request) = false
  /\ ToolServices.handleGenerate "What is a prompt?" [] env Examples.fresh
     = (Returned None,
        Trace.after Examples.fresh
          [GenerateContent "gemini-2.5-flash"
             (ToolServices.initial_contents "What is a prompt?" [])
             (ToolServices.initial_config (Env.systemInstruction env))
             answer;
           GenerateContent "gemini-2.5-flash"
             (Turns [ToolServices.user_turn "What is a prompt?";
                     {| Content.parts := []; Content.role := None |}])
             ToolServices.followup_config
             answer]).
Proof.
  cbv zeta. split; [simpl; auto|]. split; reflexivity.
Qed.

(** C4, as stated, fails: the model requests a function that the dispatch
loop has no branch for; the loop passes over the request and the
follow-up turn is sent without any part. *)
Lemma handleGenerate_unknown_tool_unanswered :
  let env :=
    Examples.scripted [Examples.request "get_stock_price" []]
      (inr Examples.sunny) (inr Examples.zoom_token)
      (inr Examples.zoom_meeting) in
  let answer :=
    inr {| Response.text := None;
           Response.functionCalls :=
             Some [Examples.request "get_stock_price" []] |} in
  ToolServices.handleGenerate "How is the market?" [] env Examples.fresh
  = (Returned None,
     Trace.after Examples.fresh
       [GenerateContent "gemini-2.5-flash"
          (ToolServices.initial_contents "How is the market?" [])
          (ToolServices.initial_config (Env.systemInstruction env))
          answer;
        GenerateContent "gemini-2.5-flash"
          (Turns [ToolServices.user_turn "How is the market?";
                  {| Content.parts := []; Content.role := None |}])
          ToolServices.followup_config
          answer]).
Proof. reflexivity. Qed.

Lemma count_occ_filter_handled (names : list string) (name : string) :
  count_occ string_dec (filter Trace.handled names) name
  = if Trace.handled name then count_occ string_dec names name else 0%nat.
Proof.
  induction names as [|n names IH]; simpl.
  - now destruct (Trace.handled name).
  - destruct (Trace.handled n) eqn:Hn; simpl;
      destruct (string_dec n name) as [->|Hne]; rewrite IH;
      try rewrite Hn; reflexivity.
Qed.

(** C4, amended.  When the dispatch loop of a round completes, the
follow-up generation call is issued with one turn that holds the results
of the round, and these are: exactly one result for every request named
[get_current_temperature], [create_zoom_meeting] or
[rag_university_of_baguio_student_handbook], and no result for a request
whose name is neither one of these nor declared in constants/tools.ts. *)
Theorem handleGenerate_answers_handled_requests (query : string)
    (history : list Content.t) (env : Env.t) (w w1 : World.t)
    (chatModel : Response.t) (functionCall : FunctionCall.t)
    (rest : list FunctionCall.t) (results : list Part) :
  let initial :=
    GenerateContent "gemini-2.5-flash"
      (ToolServices.initial_contents query history)
      (ToolServices.initial_config (Env.systemInstruction env))
      (inr chatModel) in
  let requested := List.map FunctionCall.name (functionCall :: rest) in
  let declared :=
    List.map FunctionDeclaration.name
      (Config.tools (ToolServices.initial_config (Env.systemInstruction env))) in
  Env.generateContent env (World.trace w) "gemini-2.5-flash"
    (ToolServices.initial_contents query history)
    (ToolServices.initial_config (Env.systemInstruction env))
  = inr chatModel ->
  Response.functionCalls chatModel = Some (functionCall :: rest) ->
  ToolServices.dispatch query history (functionCall :: rest) [] env
    (Trace.after w [initial])
  = (Returned results, w1) ->
  (exists followup,
     ToolServices.handleGenerate query history env w
     = (Trace.text_of followup,
        Trace.after w1
          [GenerateContent "gemini-2.5-flash"
             (ToolServices.followup_contents query history results)
             ToolServices.followup_config followup]))
  /\ (forall name, Trace.handled name = true ->
        count_occ string_dec (flat_map Trace.answered results) name
        = count_occ string_dec requested name)
  /\ (forall name, Trace.handled name = false -> ~ In name declared ->
        count_occ string_dec (flat_map Trace.answered results) name = 0%nat).
Proof.
  intros initial requested declared Hinit Hcalls Hrun.
  pose proof (dispatch_answered _ _ _ _ _ _ Hrun) as Hanswered.
  change (flat_map Trace.answered [] ++ ?l) with l in Hanswered.
  split; [|split].
  - rewrite (handleGenerate_round query history env w Hinit Hcalls).
    fold initial. unfold bind at 1. rewrite Hrun.
    eexists. apply generate_text.
  - intros name Hname.
    now rewrite Hanswered, count_occ_filter_handled, Hname.
  - intros name Hname _.
    now rewrite Hanswered, count_occ_filter_handled, Hname.
Qed.

Lemma handleGenerate_answers_handled_requests_witness :
  let env :=
    Examples.scripted
      [Examples.weather_request; Examples.request "get_stock_price" [];
       Examples.zoom_request]
      (inr Examples.sunny) (inr Examples.zoom_token)
      (inr Examples.zoom_meeting) in
  let results :=
    [FunctionResponsePart "get_current_temperature" Examples.sunny;
     FunctionResponsePart "create_zoom_meeting" Examples.zoom_meeting] in
  (exists followup w1,
     ToolServices.handleGenerate "Weather, stocks, meeting" [] env
       Examples.fresh
     = (Trace.text_of followup,
        Trace.after w1
          [GenerateContent "gemini-2.5-flash"
             (ToolServices.followup_contents "Weather, stocks, meeting" []
                results)
             ToolServices.followup_config followup]))
  /\ count_occ string_dec (flat_map Trace.answered results)
       "get_current_temperature"%string = 1%nat
  /\ count_occ string_dec (flat_map Trace.answered results)
       "get_stock_price"%string = 0%nat.
Proof.
  intros env results.
  destruct (@handleGenerate_answers_handled_requests
              "Weather, stocks, meeting" [] env Examples.fresh _
              {| Response.text := None;
                 Response.functionCalls :=
                   Some [Examples.weather_request;
                         Examples.request "get_stock_price" [];
                         Examples.zoom_request] |}
              Examples.weather_request
              [Examples.request "get_stock_price" []; Examples.zoom_request]
              results eq_refl eq_refl eq_refl)
    as [(followup & Hrun) [Hhandled Hunknown]].
  split; [|split].
  - eexists. eexists. exact Hrun.
  - rewrite (Hhandled "get_current_temperature"%string eq_refl). reflexivity.
  - apply Hunknown; [reflexivity|].
    simpl. intros [H|[H|[H|[]]]]; discriminate H.
Defined.

(** C5, as stated, fails: the initial call returns one request, the
weather service cannot be reached, and the request ends with that error;
no follow-up generation call is issued. *)
Lemma handleGenerate_failed_tool_no_followup :
  let env :=
    Examples.scripted [Examples.weather_request]
      (inl (Rejected "unreachable")) (inr Examples.zoom_token)
      (inr Examples.zoom_meeting) in
  ToolServices.handleGenerate "How warm is it?" [] env Examples.fresh
  = (Thrown (Rejected "unreachable"),
     Trace.after Examples.fresh
       [GenerateContent "gemini-2.5-flash"
          (ToolServices.initial_contents "How warm is it?" [])
          (ToolServices.initial_config (Env.systemInstruction env))
          (inr {| Response.text := None;
                  Response.functionCalls := Some [Examples.weather_request] |});
        FetchWeather (JString "Baguio") (inl (Rejected "unreachable"))]).
Proof. reflexivity. Qed.

(** C5, amended.  Whenever the initial generation call returns one or
more requests, the calls of [handleGenerate] are: the initial call, then
calls of tool executions only, then, if no tool execution threw, exactly
one follow-up generation call, whose last turn holds all the results of
the round; the follow-up response is read for its text only, so nothing
is dispatched after it.  If a tool execution threw, the request ends with
that error after the calls made so far. *)
Theorem handleGenerate_single_round (query : string)
    (history : list Content.t) (env : Env.t) (w : World.t)
    (chatModel : Response.t) (functionCall : FunctionCall.t)
    (rest : list FunctionCall.t) :
  let initial :=
    GenerateContent "gemini-2.5-flash"
      (ToolServices.initial_contents query history)
      (ToolServices.initial_config (Env.systemInstruction env))
      (inr chatModel) in
  Env.generateContent env (World.trace w) "gemini-2.5-flash"
    (ToolServices.initial_contents query history)
    (ToolServices.initial_config (Env.systemInstruction env))
  = inr chatModel ->
  Response.functionCalls chatModel = Some (functionCall :: rest) ->
  exists tool_events,
    forallb Trace.is_tool_event tool_events = true
    /\ match ToolServices.dispatch query history (functionCall :: rest) []
               env (Trace.after w [initial]) with
       | (Returned results, _) =>
           exists followup,
             ToolServices.handleGenerate query history env w
             = (Trace.text_of followup,
                Trace.after w
                  (initial :: tool_events
                   ++ [GenerateContent "gemini-2.5-flash"
                         (ToolServices.followup_contents query history results)
                         ToolServices.followup_config followup]))
       | (Thrown e, _) =>
           ToolServices.handleGenerate query history env w
           = (Thrown e, Trace.after w (initial :: tool_events))
       | (Diverged, _) => False
       end.
Proof.
  intros initial Hinit Hcalls.
  pose proof (handleGenerate_round query history env w Hinit Hcalls) as Hround.
  fold initial in Hround. unfold bind at 1 in Hround.
  destruct (dispatch_tools_only query history (functionCall :: rest) [] env
              (Trace.after w [initial])) as (evs & Hw & Hevs & Hnd).
  exists evs. split; [exact Hevs|].
  destruct (ToolServices.dispatch query history (functionCall :: rest) [] env
              (Trace.after w [initial])) as [[results|e|] w1];
    simpl in Hw, Hnd; subst w1; rewrite ?Hround.
  - eexists. rewrite generate_text, !after_after. reflexivity.
  - now rewrite after_after.
  - contradiction.
Qed.

Lemma handleGenerate_single_round_witness :
  let env :=
    Examples.scripted [Examples.weather_request] (inr Examples.sunny)
      (inr Examples.zoom_token) (inr Examples.zoom_meeting) in
  let initial :=
    GenerateContent "gemini-2.5-flash"
      (ToolServices.initial_contents "How warm is it?" [])
      (ToolServices.initial_config (Env.systemInstruction env))
      (inr {| Response.text := None;
              Response.functionCalls := Some [Examples.weather_request] |}) in
  exists tool_events followup,
    forallb Trace.is_tool_event tool_events = true
    /\ ToolServices.handleGenerate "How warm is it?" [] env Examples.fresh
       = (Trace.text_of followup,
          Trace.after Examples.fresh
            (initial :: tool_events
             ++ [GenerateContent "gemini-2.5-flash"
                   (ToolServices.followup_contents "How warm is it?" []
                      [FunctionResponsePart "get_current_temperature"
                         Examples.sunny])
                   ToolServices.followup_config followup])).
Proof.
  intros env initial.
  destruct (@handleGenerate_single_round "How warm is it?" [] env
              Examples.fresh
              {| Response.text := None;
                 Response.functionCalls := Some [Examples.weather_request] |}
              Examples.weather_request [] eq_refl eq_refl)
    as (tool_events & Htools & followup & Hrun).
  exists tool_events, followup. split; [exact Htools | exact Hrun].
Defined.

(** C6, as stated, fails: two calls are requested and the weather service
cannot be reached.  The error leaves [handleGenerate]; the meeting is
never requested and no tool result, failed or not, reaches the model. *)
Lemma handleGenerate_first_failure_aborts_round :
  let env :=
    Examples.scripted [Examples.weather_request; Examples.zoom_request]
      (inl (Rejected "unreachable")) (inr Examples.zoom_token)
      (inr Examples.zoom_meeting) in
  ToolServices.handleGenerate "Weather, then a meeting" [] env Examples.fresh
  = (Thrown (Rejected "unreachable"),
     Trace.after Examples.fresh
       [GenerateContent "gemini-2.5-flash"
          (ToolServices.initial_contents "Weather, then a meeting" [])
          (ToolServices.initial_config (Env.systemInstruction env))
          (inr {| Response.text := None;
                  Response.functionCalls :=
                    Some [Examples.weather_request; Examples.zoom_request] |});
        FetchWeather (JString "Baguio") (inl (Rejected "unreachable"))]).
Proof. reflexivity. Qed.

(** A failed token fetch does not end the round: the meeting is requested
with a [null] token and its answer becomes the result of the call. *)
Example token_failure_round_goes_on :
  let env :=
    Examples.scripted [Examples.zoom_request] (inr Examples.sunny)
      (inl (Rejected "unreachable")) (inr Examples.zoom_meeting) in
  let answer :=
    inr {| Response.text := None;
           Response.functionCalls := Some [Examples.zoom_request] |} in
  ToolServices.handleGenerate "Set up a sync" [] env Examples.fresh
  = (Returned None,
     Trace.after Examples.fresh
       [GenerateContent "gemini-2.5-flash"
          (ToolServices.initial_contents "Set up a sync" [])
          (ToolServices.initial_config (Env.systemInstruction env))
          answer;
        FetchZoomToken (inl (Rejected "unreachable"));
        FetchZoomMeeting JNull (JString "Sync") (JArray [])
          (JString "2026-11-04T09:00:00Z") (inr Examples.zoom_meeting);
        GenerateContent "gemini-2.5-flash"
          (ToolServices.followup_contents "Set up a sync" []
             [FunctionResponsePart "create_zoom_meeting"
                Examples.zoom_meeting])
          ToolServices.followup_config
          answer]).
Proof. reflexivity. Qed.

(** A call that throws ends the request: the loop stops there and the
error leaves [handleGenerate]. *)
Lemma handleGenerate_stops_at (query : string) (history : list Content.t)
    (env : Env.t) (w w1 w2 : World.t) (chatModel : Response.t)
    (pre : list FunctionCall.t) (functionCall : FunctionCall.t)
    (post : list FunctionCall.t) (results : list Part) (e : error) :
  Env.generateContent env (World.trace w) "gemini-2.5-flash"
    (ToolServices.initial_contents query history)
    (ToolServices.initial_config (Env.systemInstruction env))
  = inr chatModel ->
  Response.functionCalls chatModel = Some (pre ++ functionCall :: post) ->
  ToolServices.dispatch query history pre [] env
    (Trace.after w
       [GenerateContent "gemini-2.5-flash"
          (ToolServices.initial_contents query history)
          (ToolServices.initial_config (Env.systemInstruction env))
          (inr chatModel)])
  = (Returned results, w1) ->
  ToolServices.dispatch_call query history functionCall results env w1
  = (Thrown e, w2) ->
  ToolServices.handleGenerate query history env w = (Thrown e, w2).
Proof.
  intros Hinit Hcalls Hpre Hcall.
  assert (exists c rest, pre ++ functionCall :: post = c :: rest)
    as (c & rest & Hcons)
    by (destruct pre; simpl; eauto).
  rewrite Hcons in Hcalls.
  rewrite (handleGenerate_round query history env w Hinit Hcalls).
  rewrite <- Hcons. unfold bind at 1.
  pose proof (@dispatch_app_throws query history env pre functionCall post
                [] results _ w1 w2 e Hpre Hcall) as Hrun.
  now rewrite Hrun.
Qed.

(** C6, amended.  Take a round in which the requests before some request
have been executed.  If that request is for a meeting and the token fetch
fails, the failure is captured by [getToken]: nothing is thrown and the
meeting is requested with a [null] token.  No other failure is captured.
If that request is for the weather and the weather fetch fails or the
arguments are [null] or [undefined], if it is for a meeting and the
meeting request fails, or if it is for the retrieval and the retrieval
throws, the error leaves [handleGenerate] in the world reached at the
failure: the later requests of the round are not executed and no follow-up
generation call is issued. *)
Theorem tool_failure_capture_and_propagation (query : string)
    (history : list Content.t) (env : Env.t) (w w1 : World.t)
    (chatModel : Response.t) (pre : list FunctionCall.t)
    (results : list Part) :
  let call := fun name args =>
    {| FunctionCall.name := name; FunctionCall.args := args |} in
  let requested := fun name args post =>
    Response.functionCalls chatModel = Some (pre ++ call name args :: post) in
  let answer := Env.fetchZoomToken env (World.trace w1) in
  let bearer :=
    match answer with
    | inr (JObject token) => Json.lookup "access_token" token
    | inl _ | inr JUndefined | inr JNull => JNull
    | inr _ => JUndefined
    end in
  Env.generateContent env (World.trace w) "gemini-2.5-flash"
    (ToolServices.initial_contents query history)
    (ToolServices.initial_config (Env.systemInstruction env))
  = inr chatModel ->
  ToolServices.dispatch query history pre [] env
    (Trace.after w
       [GenerateContent "gemini-2.5-flash"
          (ToolServices.initial_contents query history)
          (ToolServices.initial_config (Env.systemInstruction env))
          (inr chatModel)])
  = (Returned results, w1) ->
  (forall fields e,
     answer = inl e ->
     ToolServices.dispatch_call query history
       (call "create_zoom_meeting"%string (JObject fields)) results env w1
     = (res <- fetchZoomMeeting JNull (Json.lookup "topic" fields)
                 (Json.lookup "meeting_invitees" fields)
                 (Json.lookup "start_time" fields) ;;
        ret (results ++ [FunctionResponsePart "create_zoom_meeting" res]))
         env (Trace.after w1 [FetchZoomToken (inl e)]))
  /\ (forall fields post e,
        requested "get_current_temperature"%string (JObject fields) post ->
        Env.fetchWeather env (World.trace w1) (Json.lookup "location" fields)
        = inl e ->
        ToolServices.handleGenerate query history env w
        = (Thrown e,
           Trace.after w1
             [FetchWeather (Json.lookup "location" fields) (inl e)]))
  /\ (forall args post,
        args = JNull \/ args = JUndefined ->
        requested "get_current_temperature"%string args post ->
        ToolServices.handleGenerate query history env w
        = (Thrown (TypeError "location"), w1))
  /\ (forall fields post e,
        requested "create_zoom_meeting"%string (JObject fields) post ->
        Env.fetchZoomMeeting env (World.trace w1 ++ [FetchZoomToken answer])
          bearer (Json.lookup "topic" fields)
          (Json.lookup "meeting_invitees" fields)
          (Json.lookup "start_time" fields)
        = inl e ->
        ToolServices.handleGenerate query history env w
        = (Thrown e,
           Trace.after w1
             [FetchZoomToken answer;
              FetchZoomMeeting bearer (Json.lookup "topic" fields)
                (Json.lookup "meeting_invitees" fields)
                (Json.lookup "start_time" fields) (inl e)]))
  /\ (forall args post e w2,
        requested "rag_university_of_baguio_student_handbook"%string args
          post ->
        ToolServices.handleChat query history env w1 = (Thrown e, w2) ->
        ToolServices.handleGenerate query history env w = (Thrown e, w2)).
Proof.
  intros call requested answer bearer Hinit Hpre.
  assert (forall fields,
            ToolServices.dispatch_call query history
              (call "create_zoom_meeting"%string (JObject fields)) results
              env w1
            = (res <- fetchZoomMeeting bearer (Json.lookup "topic" fields)
                        (Json.lookup "meeting_invitees" fields)
                        (Json.lookup "start_time" fields) ;;
               ret (results
                    ++ [FunctionResponsePart "create_zoom_meeting" res]))
                env (Trace.after w1 [FetchZoomToken answer])) as Hzoom.
  { intros fields. unfold ToolServices.dispatch_call, call.
    cbn [FunctionCall.name FunctionCall.args].
    change (String.eqb "create_zoom_meeting" "get_current_temperature")
      with false.
    change (String.eqb "create_zoom_meeting" "create_zoom_meeting") with true.
    cbv iota. unfold bind at 1. rewrite getToken_run. cbv zeta.
    unfold bearer, answer.
    destruct (Env.fetchZoomToken env (World.trace w1))
      as [e|[| | | | | |token]]; reflexivity. }
  split; [|split; [|split; [|split]]].
  - intros fields e He. rewrite Hzoom. unfold bearer. now rewrite He.
  - intros fields post e Hcalls Hfail.
    apply (@handleGenerate_stops_at query history env w w1 _ chatModel pre
             _ post results e Hinit Hcalls Hpre).
    unfold ToolServices.dispatch_call, call.
    cbn [FunctionCall.name FunctionCall.args].
    change (String.eqb "get_current_temperature" "get_current_temperature")
      with true.
    cbv iota. unfold bind, lift, Json.get, ret, fetchWeather, external.
    now rewrite Hfail.
  - intros args post Hargs Hcalls.
    apply (@handleGenerate_stops_at query history env w w1 _ chatModel pre
             _ post results _ Hinit Hcalls Hpre).
    unfold ToolServices.dispatch_call, call.
    cbn [FunctionCall.name FunctionCall.args].
    change (String.eqb "get_current_temperature" "get_current_temperature")
      with true.
    cbv iota. destruct Hargs as [-> | ->]; reflexivity.
  - intros fields post e Hcalls Hfail.
    apply (@handleGenerate_stops_at query history env w w1 _ chatModel pre
             _ post results e Hinit Hcalls Hpre).
    rewrite Hzoom. unfold bind, fetchZoomMeeting, external, Trace.after.
    cbn [World.trace World.heap]. rewrite Hfail.
    now rewrite <- app_assoc.
  - intros args post e w2 Hcalls Hfail.
    apply (@handleGenerate_stops_at query history env w w1 _ chatModel pre
             _ post results e Hinit Hcalls Hpre).
    unfold ToolServices.dispatch_call, call.
    cbn [FunctionCall.name FunctionCall.args].
    change (String.eqb "rag_university_of_baguio_student_handbook"
              "get_current_temperature") with false.
    change (String.eqb "rag_university_of_baguio_student_handbook"
              "create_zoom_meeting") with false.
    change (String.eqb "rag_university_of_baguio_student_handbook"
              "rag_university_of_baguio_student_handbook") with true.
    cbv iota. unfold bind. now rewrite Hfail.
Qed.

Lemma tool_failure_capture_and_propagation_witness :
  let env :=
    Examples.scripted [Examples.zoom_request; Examples.weather_request]
      (inl (Rejected "unreachable")) (inl (Rejected "no token"))
      (inr Examples.zoom_meeting) in
  let initial :=
    GenerateContent "gemini-2.5-flash"
      (ToolServices.initial_contents "A meeting, then the weather" [])
      (ToolServices.initial_config (Env.systemInstruction env))
      (inr {| Response.text := None;
              Response.functionCalls :=
                Some [Examples.zoom_request; Examples.weather_request] |}) in
  ToolServices.dispatch_call "A meeting, then the weather" []
    Examples.zoom_request [] env (Trace.after Examples.fresh [initial])
  = (Returned
       [FunctionResponsePart "create_zoom_meeting" Examples.zoom_meeting],
     Trace.after Examples.fresh
       [initial;
        FetchZoomToken (inl (Rejected "no token"));
        FetchZoomMeeting JNull (JString "Sync") (JArray [])
          (JString "2026-11-04T09:00:00Z") (inr Examples.zoom_meeting)])
  /\ ToolServices.handleGenerate "A meeting, then the weather" [] env
       Examples.fresh
     = (Thrown (Rejected "unreachable"),
        Trace.after Examples.fresh
          [initial;
           FetchZoomToken (inl (Rejected "no token"));
           FetchZoomMeeting JNull (JString "Sync") (JArray [])
             (JString "2026-11-04T09:00:00Z") (inr Examples.zoom_meeting);
           FetchWeather (JString "Baguio") (inl (Rejected "unreachable"))]).
Proof.
  intros env initial. split.
  - destruct (@tool_failure_capture_and_propagation
                "A meeting, then the weather" [] env Examples.fresh
                (Trace.after Examples.fresh [initial])
                {| Response.text := None;
                   Response.functionCalls :=
                     Some [Examples.zoom_request; Examples.weather_request] |}
                [] [] eq_refl eq_refl)
      as [Hcaptured _].
    unfold Examples.zoom_request, Examples.request.
    rewrite (Hcaptured
               [("topic"%string, JString "Sync");
                ("start_time"%string, JString "2026-11-04T09:00:00Z");
                ("meeting_invitees"%string, JArray [])]
               (Rejected "no token") eq_refl).
    reflexivity.
  - destruct (@tool_failure_capture_and_propagation
                "A meeting, then the weather" [] env Examples.fresh
                (Trace.after Examples.fresh
                   [initial;
                    FetchZoomToken (inl (Rejected "no token"));
                    FetchZoomMeeting JNull (JString "Sync") (JArray [])
                      (JString "2026-11-04T09:00:00Z")
                      (inr Examples.zoom_meeting)])
                {| Response.text := None;
                   Response.functionCalls :=
                     Some [Examples.zoom_request; Examples.weather_request] |}
                [Examples.zoom_request]
                [FunctionResponsePart "create_zoom_meeting"
                   Examples.zoom_meeting]
                eq_refl eq_refl)
      as (_ & Hweather & _).
    apply (Hweather [("location"%string, JString "Baguio")] []
             (Rejected "unreachable") eq_refl eq_refl).
Defined.

(** ** Examples on concrete stores *)

Section StoreExamples.

Import JsNumber Similarity Retrieval.
Local Open Scope R_scope.

Example cosineSimilarity_scaled : cosineSimilarity [1; 0] [2; 0] = Num 1.
Proof.
  rewrite cosineSimilarity_closed_form by (simpl; lia).
  rewrite sqrt_sum_squares_1_0.
  replace (Algebra.sum_squares [2; 0]) with (2 * 2) by (simpl; lra).
  rewrite sqrt_square by lra. simpl.
  destruct (Req_dec_T 1 0); [lra|]. destruct (Req_dec_T 2 0); [lra|]. simpl.
  destruct (Req_dec_T (1 * 2) 0); [lra|]. f_equal. field.
Qed.

(** The best match comes first. *)
Example similarDocs_plain_store :
  exists docs w',
    Services.similarDocs [1; 0] Examples.offline Examples.plain_store
    = (Returned docs, w')
    /\ List.map Vector.id (array_of w' docs) = ["e3"; "e1"]%string
    /\ store_of w' = store_of Examples.plain_store.
Proof.
  eexists. eexists. split; [apply similarDocs_run|].
  rewrite array_of_new.
  unfold store_of, Examples.plain_store, Examples.with_store.
  cbn [World.heap nth Services.vectorStore List.map app].
  unfold Services.scored, Examples.entry. cbn [Vector.embedding].
  rewrite cosineSimilarity_orthogonal, cosineSimilarity_parallel.
  unfold JsArray.sort, JsArray.count_and_make_run.
  compare_scores ltac:(cbn [Vector.score Vector.similarity
                             Vector.with_similarity]).
  split; reflexivity.
Qed.

(** Two entries tie at score [1]; they come back in insertion order,
ahead of the entry of score [0] that was inserted between them. *)
Example similarDocs_tie_in_insertion_order :
  exists docs w',
    Services.similarDocs [1; 0] Examples.offline
      (Examples.with_store
         [Examples.entry "a" [1; 0] "first";
          Examples.entry "b" [0; 1] "second";
          Examples.entry "c" [2; 0] "third"])
    = (Returned docs, w')
    /\ List.map Vector.id (array_of w' docs) = ["a"; "c"; "b"]%string.
Proof.
  eexists. eexists. split; [apply similarDocs_run|].
  rewrite array_of_new.
  unfold store_of, Examples.with_store.
  cbn [World.heap nth Services.vectorStore List.map].
  unfold Services.scored, Examples.entry. cbn [Vector.embedding].
  rewrite cosineSimilarity_orthogonal, cosineSimilarity_parallel,
    cosineSimilarity_scaled.
  unfold JsArray.sort, JsArray.count_and_make_run.
  compare_scores ltac:(cbn [Vector.score Vector.similarity
                             Vector.with_similarity]).
  cbn [firstn skipn].
  insert_next ltac:(cbn [Vector.score Vector.similarity
                          Vector.with_similarity]).
  reflexivity.
Qed.

(** Where [handleChat] only reads the store, [handleFileUpload] appends to
it. *)
Lemma array_push_appends (x : Vector.t) (env : Env.t) (w : World.t) :
  World.heap w <> [] ->
  array_push Services.vectorStore x env w
  = (Returned tt,
     {| World.heap := (store_of w ++ [x]) :: tl (World.heap w);
        World.trace := World.trace w |}).
Proof.
  intros Hheap. unfold array_push, bind, read_array, write_array, store_of.
  destruct w as [[|store heap] tr]; [contradiction|]. reflexivity.
Qed.

Example handleFileUpload_short_document :
  let env :=
    {| Env.systemInstruction := EmptyString;
       Env.embedContent := fun _ _ _ _ _ => inr [1; 0];
       Env.generateContent := fun _ _ _ _ => inl (Rejected "offline");
       Env.pdfParse := fun _ _ => inr "A short document."%string;
       Env.uuidv4 := fun tr =>
         match tr with
         | [] => "doc-1"%string
         | _ => "vec-1"%string
         end;
       Env.indexQuery := fun _ _ _ _ => inl (Rejected "offline");
       Env.fetchWeather := fun _ _ => inl (Rejected "offline");
       Env.fetchZoomToken := fun _ => inl (Rejected "offline");
       Env.fetchZoomMeeting := fun _ _ _ _ _ => inl (Rejected "offline") |} in
  let '(result, w') :=
    Services.handleFileUpload "%PDF" "short.pdf" env Services.loaded in
  result = Returned "doc-1"%string
  /\ store_of w'
     = [ {| Vector.id := "vec-1";
            Vector.embedding := [1; 0];
            Vector.text := "A short document.";
            Vector.documentId := "doc-1";
            Vector.similarity := None |} ].
Proof. split; reflexivity. Qed.

End StoreExamples.

(** ** Uploads *)

Section UploadFacts.

Import Retrieval.

(** One turn of the loop of [handleFileUpload] only appends to the
store. *)
Lemma store_chunk_appends (documentId chunk : string) (env : Env.t)
    (w : World.t) :
  World.heap w <> [] ->
  let w' := snd (Services.store_chunk documentId chunk env w) in
  World.heap w' <> []
  /\ exists added,
       store_of w' = store_of w ++ added
       /\ Forall (fun v => Vector.documentId v = documentId) added.
Proof.
  intros Hheap. cbv zeta.
  assert (Services.store_chunk documentId chunk env w
          = match Env.embedContent env (World.trace w) "gemini-embedding-001"
                    chunk "RETRIEVAL_DOCUMENT" None with
            | inl e =>
                (Thrown e,
                 Trace.after w
                   [EmbedContent "gemini-embedding-001" chunk
                      "RETRIEVAL_DOCUMENT" None (inl e)])
            | inr embedding =>
                let w1 :=
                  Trace.after w
                    [EmbedContent "gemini-embedding-001" chunk
                       "RETRIEVAL_DOCUMENT" None (inr embedding)] in
                let id := Env.uuidv4 env (World.trace w1) in
                array_push Services.vectorStore
                  {| Vector.id := id;
                     Vector.embedding := embedding;
                     Vector.text := chunk;
                     Vector.documentId := documentId;
                     Vector.similarity := None |}
                  env (Trace.after w1 [Uuidv4 id])
            end) as Hrun.
  { unfold Services.store_chunk, bind at 1, embedContent, external.
    destruct (Env.embedContent env (World.trace w) "gemini-embedding-001"
                chunk "RETRIEVAL_DOCUMENT" None); reflexivity. }
  rewrite Hrun.
  destruct (Env.embedContent env (World.trace w) "gemini-embedding-001"
              chunk "RETRIEVAL_DOCUMENT" None) as [e|embedding].
  - simpl. split; [assumption|]. exists []. now rewrite app_nil_r.
  - cbv zeta. rewrite array_push_appends by assumption.
    cbn [World.heap World.trace snd]. split; [discriminate|].
    eexists. split; [reflexivity|]. now constructor.
Qed.

Lemma upload_loop_appends (documentId : string) (env : Env.t)
    (chunks : list string) : forall w : World.t,
  World.heap w <> [] ->
  let w' := snd (for_of chunks (Services.store_chunk documentId) env w) in
  World.heap w' <> []
  /\ exists added,
       store_of w' = store_of w ++ added
       /\ Forall (fun v => Vector.documentId v = documentId) added.
Proof.
  induction chunks as [|chunk chunks IH]; intros w Hheap; cbv zeta.
  - simpl. split; [assumption|]. exists []. now rewrite app_nil_r.
  - cbn [for_of]. unfold bind.
    destruct (store_chunk_appends documentId chunk env w Hheap)
      as (Hne & added & Hstore & Hdoc).
    cbv zeta in Hne, Hstore.
    destruct (Services.store_chunk documentId chunk env w) as [[[]|e|] w1];
      cbn [snd] in *.
    + destruct (IH w1 Hne) as (Hne' & added' & Hstore' & Hdoc').
      cbv zeta in Hne', Hstore'. split; [exact Hne'|].
      exists (added ++ added'). split.
      * now rewrite Hstore', Hstore, app_assoc.
      * apply Forall_app. now split.
    + split; [exact Hne|]. now exists added.
    + split; [exact Hne|]. now exists added.
Qed.

(** [handleFileUpload] only appends to the store, and what it appends
belongs to the document whose identifier it drew first. *)
Lemma handleFileUpload_appends (fileBuffer originalname : string)
    (env : Env.t) (w : World.t) :
  World.heap w <> [] ->
  exists added,
    store_of (snd (Services.handleFileUpload fileBuffer originalname env w))
    = store_of w ++ added
    /\ Forall (fun v => Vector.documentId v
                        = Env.uuidv4 env (World.trace w)) added.
Proof.
  intros Hheap. unfold Services.handleFileUpload.
  unfold bind at 1, uuidv4 at 1. unfold bind at 1, pdfParse, external.
  cbn [World.heap World.trace].
  destruct (Env.pdfParse env _ fileBuffer) as [e|text];
    [exists []; simpl; now rewrite app_nil_r|].
  unfold bind at 1, lift_fuel.
  destruct (Chunker.chunkText_default text) as [chunks|];
    [|exists []; simpl; now rewrite app_nil_r].
  unfold bind at 1.
  match goal with
  | |- context [for_of chunks ?body env ?w1] =>
      destruct (@upload_loop_appends (Env.uuidv4 env (World.trace w)) env
                  chunks w1 Hheap) as (_ & added & Hstore & Hdoc);
      cbv zeta in Hstore;
      destruct (for_of chunks body env w1) as [[[]|e|] w2]
  end; exists added; split; auto.
Qed.

End UploadFacts.

(** ** Primitives on concrete inputs *)

Example substring_swaps :
  JsString.substring "retrieval" 6 2 = "trie"%string.
Proof. reflexivity. Qed.

Example substring_clamps :
  JsString.substring "retrieval" (-3) 99 = "retrieval"%string.
Proof. reflexivity. Qed.

Example slice_counts_from_the_end :
  JsArray.slice [1; 2; 3; 4; 5; 6; 7]%Z (-3) (-1) = [5; 6]%Z.
Proof. reflexivity. Qed.

Example slice_first_five :
  JsArray.slice [1; 2; 3; 4; 5; 6; 7]%Z 0 5 = [1; 2; 3; 4; 5]%Z.
Proof. reflexivity. Qed.

Example truthy_texts_drops_empty :
  ToolServices.truthy_texts [Some "a"; None; Some EmptyString; Some "b"]%string
  = ["a"; "b"]%string.
Proof. reflexivity. Qed.

Example getToken_garbled_answer :
  fst (Token.getToken
         (Examples.scripted [] (inr Examples.sunny) (inr JNull)
            (inr Examples.zoom_meeting))
         Examples.fresh)
  = Returned
      {| Token.access_token := JNull;
         Token.expires_in := JNull;
         Token.error := Some (TypeError "access_token") |}.
Proof. reflexivity. Qed.

Example getToken_granted :
  fst (Token.getToken
         (Examples.scripted [] (inr Examples.sunny) (inr Examples.zoom_token)
            (inr Examples.zoom_meeting))
         Examples.fresh)
  = Returned
      {| Token.access_token := JString "t0k3n";
         Token.expires_in := JNumber 3599;
         Token.error := None |}.
Proof. reflexivity. Qed.

(** * Further properties *)

(** ** The chunker: number, size and position of the chunks *)

Section ChunkLayout.

Import Chunker.
Local Open Scope Z_scope.

Lemma chunk_count_step (rest chunkSize : Z) :
  0 < chunkSize -> 0 < rest ->
  1 + (Z.max 0 (rest - chunkSize) + chunkSize - 1) / chunkSize
  = (Z.max 0 rest + chunkSize - 1) / chunkSize.
Proof.
  intros Hc Hrest. rewrite (Z.max_r 0 rest) by lia.
  destruct (Z.le_gt_cases chunkSize rest) as [Hle|Hgt].
  - rewrite Z.max_r by lia.
    replace (rest + chunkSize - 1)
      with (rest - chunkSize + chunkSize - 1 + 1 * chunkSize) by lia.
    rewrite Z.div_add by lia. lia.
  - rewrite Z.max_l by lia.
    rewrite (Z.div_small (0 + chunkSize - 1)) by lia.
    apply Z.div_unique with (r := rest - 1); lia.
Qed.

(** What the loop appends from index [i] on: how many chunks, of which
sizes, and where each one is cut. *)
Lemma chunkText_loop_layout (text : string) (chunkSize : Z) :
  0 < chunkSize ->
  forall (fuel : nat) (i : Z) (chunks : list string),
    0 <= i -> Z.max 0 (JsString.length text - i) < Z.of_nat fuel ->
    exists out,
      chunkText_loop fuel text chunkSize i chunks = Some (chunks ++ out)
      /\ Z.of_nat (List.length out)
         = (Z.max 0 (JsString.length text - i) + chunkSize - 1) / chunkSize
      /\ Forall (fun c => 0 < JsString.length c <= chunkSize) out
      /\ forall j : nat, (j < List.length out)%nat ->
           nth j out EmptyString
           = JsString.substring text (i + Z.of_nat j * chunkSize)
               (i + (Z.of_nat j + 1) * chunkSize).
Proof.
  intros Hc. induction fuel as [|fuel IH]; intros i chunks Hi Hfuel.
  - lia.
  - simpl. destruct (Z.ltb_spec i (JsString.length text)) as [Hlt|Hge].
    + destruct (IH (i + chunkSize)
                   (chunks ++ [JsString.substring text i (i + chunkSize)]))
        as (out & Hrun & Hcount & Hsizes & Hcuts); try lia.
      exists (JsString.substring text i (i + chunkSize) :: out).
      rewrite Hrun, <- app_assoc. split; [reflexivity|].
      split; [|split].
      * cbn [List.length]. rewrite Nat2Z.inj_succ, Hcount.
        replace (JsString.length text - (i + chunkSize))
          with (JsString.length text - i - chunkSize) by lia.
        rewrite <- (chunk_count_step (rest := JsString.length text - i) Hc)
          by lia.
        symmetry. apply Z.add_1_l.
      * constructor; [|exact Hsizes].
        rewrite substring_chunk by assumption.
        unfold JsString.length in *. rewrite substring_length. lia.
      * intros [|j] Hj; cbn [nth].
        -- f_equal; lia.
        -- rewrite Hcuts by (cbn [List.length] in Hj; lia).
           f_equal; lia.
    + exists []. rewrite app_nil_r. split; [reflexivity|].
      rewrite Z.max_l by lia. rewrite Z.div_small by lia.
      repeat split; try constructor. intros j Hj. simpl in Hj. lia.
Qed.

End ChunkLayout.

(** X1. For [chunkSize > 0], [chunkText] cuts [text] into
[ceil(text.length / chunkSize)] chunks; each chunk is non-empty and has at
most [chunkSize] characters, and chunk [j] is
[text.substring(j * chunkSize, (j + 1) * chunkSize)]. *)
Theorem chunkText_layout (text : string) (chunkSize : Z) :
  (0 < chunkSize)%Z ->
  exists chunks,
    Chunker.chunkText text chunkSize = Some chunks
    /\ Z.of_nat (List.length chunks)
       = ((JsString.length text + chunkSize - 1) / chunkSize)%Z
    /\ Forall (fun c => (0 < JsString.length c <= chunkSize)%Z) chunks
    /\ forall j : nat, (j < List.length chunks)%nat ->
         nth j chunks EmptyString
         = JsString.substring text (Z.of_nat j * chunkSize)
             ((Z.of_nat j + 1) * chunkSize).
Proof.
  intros Hc.
  destruct (@chunkText_loop_layout text chunkSize Hc (S (String.length text))
              0%Z [])
    as (out & Hrun & Hcount & Hsizes & Hcuts);
    [lia | unfold JsString.length; lia |].
  exists out. split; [exact Hrun|]. split; [|split].
  - rewrite Hcount. rewrite Z.sub_0_r, Z.max_r; [reflexivity|].
    unfold JsString.length. lia.
  - exact Hsizes.
  - intros j Hj. rewrite (Hcuts j Hj). f_equal.
Qed.

Lemma chunkText_layout_witness :
  exists chunks,
    Chunker.chunkText "abcdefg" 3 = Some chunks
    /\ Z.of_nat (List.length chunks) = 3%Z
    /\ nth 2 chunks EmptyString = "g"%string.
Proof.
  destruct (@chunkText_layout "abcdefg" 3) as (chunks & Hrun & Hcount & _ & Hcuts);
    [reflexivity|].
  exists chunks. split; [exact Hrun|]. split; [exact Hcount|].
  apply (Hcuts 2%nat).
  apply Nat2Z.inj_lt. rewrite Hcount. reflexivity.
Defined.

(** ** The ranker: range of the score, missing components *)

Section ScoreRange.

Import JsNumber Algebra Similarity.
Local Open Scope R_scope.

(** The Cauchy-Schwarz inequality on the sums of the ranker. *)
Lemma sum_products_square_le (a : list R) : forall b,
  sum_products a b * sum_products a b <= sum_squares a * sum_squares b.
Proof.
  induction a as [|x a IH]; intros [|y b]; simpl.
  - lra.
  - lra.
  - pose proof (sum_squares_nonneg a). pose proof (Rle_0_sqr x) as Hx.
    unfold Rsqr in Hx. nra.
  - specialize (IH b).
    pose proof (sum_squares_nonneg a) as HA.
    pose proof (sum_squares_nonneg b) as HB.
    set (p := sum_products a b) in *.
    set (A := sum_squares a) in *. set (B := sum_squares b) in *.
    assert (2 * (x * y * p) <= x * x * B + y * y * A) as Hmix.
    { assert ((2 * (x * y * p)) * (2 * (x * y * p))
              <= (x * x * B + y * y * A) * (x * x * B + y * y * A)) as Hsq.
      { assert (0 <= (x * x * B - y * y * A) * (x * x * B - y * y * A))
          by apply Rle_0_sqr.
        assert (0 <= (x * y) * (x * y)) as Hxy by apply Rle_0_sqr.
        assert ((x * y) * (x * y) * (p * p) <= (x * y) * (x * y) * (A * B))
          by (apply Rmult_le_compat_l; assumption).
        nra. }
      assert (0 <= x * x * B + y * y * A) as Hpos.
      { pose proof (Rle_0_sqr x) as Hx. pose proof (Rle_0_sqr y) as Hy.
        unfold Rsqr in *. nra. }
      destruct (Rle_lt_dec (2 * (x * y * p)) (x * x * B + y * y * A))
        as [Hle|Hgt]; [exact Hle|].
      exfalso. nra. }
    nra.
Qed.

(** A NaN sum stays NaN. *)
Lemma reduce_products_NaN (vecB a : list R) : forall i : nat,
  JsArray.reduce_from
    (fun sum x i => add sum (mul (Num x) (of_element (nth_error vecB i))))
    a i NaN
  = NaN.
Proof.
  induction a as [|x a IH]; intros i; cbn [JsArray.reduce_from];
    [reflexivity|].
  apply IH.
Qed.

(** The reduction that computes the dot product, when [vecB] has no
element at some index of [vecA]. *)
Lemma reduce_products_short (a : list R) : forall (pre b : list R) (acc : R),
  (List.length b < List.length a)%nat ->
  JsArray.reduce_from
    (fun sum x i => add sum (mul (Num x) (of_element (nth_error (pre ++ b) i))))
    a (List.length pre) (Num acc)
  = NaN.
Proof.
  induction a as [|x a IH]; intros pre b acc Hlen;
    cbn [JsArray.reduce_from]; [simpl in Hlen; lia|].
  destruct b as [|y b].
  - rewrite app_nil_r.
    rewrite (proj2 (nth_error_None pre (List.length pre))) by lia.
    cbn [of_element mul add]. apply reduce_products_NaN.
  - rewrite nth_error_app2 by lia. rewrite Nat.sub_diag.
    change (add (Num acc) (mul (Num x) (of_element (nth_error (y :: b) 0))))
      with (Num (acc + x * y)).
    replace (pre ++ y :: b) with ((pre ++ [y]) ++ b)
      by (now rewrite <- app_assoc).
    replace (S (List.length pre)) with (List.length (pre ++ [y]))
      by (rewrite length_app; simpl; lia).
    apply IH. simpl in Hlen. lia.
Qed.

Lemma magnitude_nonzero (v : list R) :
  ~ zero_vector v -> R_sqrt.sqrt (sum_squares v) <> 0.
Proof.
  intros Hnz H. apply sqrt_eq_0 in H; [|apply sum_squares_nonneg].
  apply Hnz. now apply sum_squares_zero.
Qed.

End ScoreRange.

Section ScoreBound.

Import JsNumber Algebra Similarity.
Local Open Scope R_scope.

(** The dot product is bounded by the product of the magnitudes. *)
Lemma sum_products_bound (a b : list R) :
  - (R_sqrt.sqrt (sum_squares a) * R_sqrt.sqrt (sum_squares b))
  <= sum_products a b
  <= R_sqrt.sqrt (sum_squares a) * R_sqrt.sqrt (sum_squares b).
Proof.
  pose proof (sqrt_pos (sum_squares a)) as Hpa.
  pose proof (sqrt_pos (sum_squares b)) as Hpb.
  pose proof (sum_products_square_le a b) as Hcs.
  rewrite <- (sqrt_sqrt (sum_squares a)) in Hcs at 1
    by apply sum_squares_nonneg.
  rewrite <- (sqrt_sqrt (sum_squares b)) in Hcs at 1
    by apply sum_squares_nonneg.
  set (ma := R_sqrt.sqrt (sum_squares a)) in *.
  set (mb := R_sqrt.sqrt (sum_squares b)) in *.
  set (d := sum_products a b) in *.
  assert (0 <= ma * mb) by (apply Rmult_le_pos; assumption).
  split; nra.
Qed.

Lemma quotient_bound (d m : R) :
  0 < m -> - m <= d <= m -> -1 <= d / m <= 1.
Proof.
  intros Hm [Hlo Hhi]. split.
  - apply Rmult_le_reg_r with (r := m); [exact Hm|].
    unfold Rdiv. rewrite Rmult_assoc, Rinv_l by lra. lra.
  - apply Rmult_le_reg_r with (r := m); [exact Hm|].
    unfold Rdiv. rewrite Rmult_assoc, Rinv_l by lra. lra.
Qed.

End ScoreBound.

(** X2. When [vecB] has at least as many components as [vecA], the score
is a number between [-1] and [1]. *)
Theorem cosineSimilarity_range (a b : list R) :
  (List.length a <= List.length b)%nat ->
  exists r, Similarity.cosineSimilarity a b = JsNumber.Num r
            /\ (-1 <= r <= 1)%R.
Proof.
  intros Hle. rewrite cosineSimilarity_closed_form by assumption.
  unfold JsNumber.strict_eq.
  destruct (Req_dec_T (R_sqrt.sqrt (Algebra.sum_squares a)) 0) as [|Ha];
    [exists 0%R; split; [reflexivity | lra]|].
  destruct (Req_dec_T (R_sqrt.sqrt (Algebra.sum_squares b)) 0) as [|Hb];
    [exists 0%R; split; [reflexivity | lra]|].
  simpl.
  pose proof (sqrt_pos (Algebra.sum_squares a)) as Hpa.
  pose proof (sqrt_pos (Algebra.sum_squares b)) as Hpb.
  assert (0 < R_sqrt.sqrt (Algebra.sum_squares a)
              * R_sqrt.sqrt (Algebra.sum_squares b))%R as Hpos
    by (apply Rmult_lt_0_compat; lra).
  destruct (Req_dec_T _ 0) as [H0|_]; [lra|].
  eexists. split; [reflexivity|].
  apply quotient_bound; [exact Hpos | apply sum_products_bound].
Qed.

Lemma cosineSimilarity_range_witness :
  exists r, Similarity.cosineSimilarity [3; 4]%R [1; 2; 2]%R = JsNumber.Num r
            /\ (-1 <= r <= 1)%R.
Proof. apply (@cosineSimilarity_range [3; 4]%R [1; 2; 2]%R). simpl. lia. Defined.

(** X3. When [vecB] has fewer components than [vecA] and neither vector
is zero, the score is [NaN]: the product with the missing component
spoils the sum. *)
Theorem cosineSimilarity_missing_component (a b : list R) :
  (List.length b < List.length a)%nat ->
  ~ Algebra.zero_vector a -> ~ Algebra.zero_vector b ->
  Similarity.cosineSimilarity a b = JsNumber.NaN.
Proof.
  intros Hlen Ha Hb. apply magnitude_nonzero in Ha, Hb.
  unfold Similarity.cosineSimilarity, JsArray.reduce.
  rewrite !reduce_squares, !Rplus_0_l.
  pose proof (@reduce_products_short a [] b 0%R Hlen) as Hdot.
  cbn [app List.length] in Hdot. rewrite Hdot.
  unfold JsNumber.sqrt.
  destruct (Rlt_dec (Algebra.sum_squares a) 0) as [H|_];
    [pose proof (sum_squares_nonneg a); lra|].
  destruct (Rlt_dec (Algebra.sum_squares b) 0) as [H|_];
    [pose proof (sum_squares_nonneg b); lra|].
  unfold JsNumber.strict_eq.
  destruct (Req_dec_T (R_sqrt.sqrt (Algebra.sum_squares a)) 0);
    [contradiction|].
  destruct (Req_dec_T (R_sqrt.sqrt (Algebra.sum_squares b)) 0);
    [contradiction|].
  reflexivity.
Qed.

Lemma cosineSimilarity_missing_component_witness :
  Similarity.cosineSimilarity [3; 4]%R [2]%R = JsNumber.NaN.
Proof.
  apply (@cosineSimilarity_missing_component [3; 4]%R [2]%R).
  - simpl. lia.
  - intros H. inversion H as [|? ? H3 _]. lra.
  - intros H. inversion H as [|? ? H2 _]. lra.
Defined.

(** ** The retrieval: which entries are returned *)

Section BestFive.

Import JsNumber Retrieval.

Lemma StronglySorted_app_cross (A : Type) (R : A -> A -> Prop)
    (l1 l2 : list A) :
  StronglySorted R (l1 ++ l2) ->
  forall x y, In x l1 -> In y l2 -> R x y.
Proof.
  induction l1 as [|a l1 IH]; intros Hs x y Hx Hy; [contradiction|].
  simpl in Hs. apply StronglySorted_inv in Hs as [Hs Hall].
  destruct Hx as [<-|Hx].
  - rewrite Forall_forall in Hall. apply Hall. apply in_or_app. now right.
  - now apply IH.
Qed.

End BestFive.

(** X4. The retrieval step returns [min(5, n)] matches out of a store of
[n] entries, and together with the entries it leaves out they are the
scored copies of the whole store, each exactly once. *)
Theorem similarDocs_count (queryEmbedding : list R) (env : Env.t)
    (w : World.t) :
  exists docs w' rest,
    Services.similarDocs queryEmbedding env w = (Returned docs, w')
    /\ List.length (Retrieval.array_of w' docs)
       = Nat.min 5 (List.length (Retrieval.store_of w))
    /\ Permutation (Retrieval.array_of w' docs ++ rest)
         (List.map (Services.scored queryEmbedding) (Retrieval.store_of w)).
Proof.
  eexists. eexists.
  exists (skipn 5
            (JsArray.sort Services.by_similarity
               (List.map (Services.scored queryEmbedding)
                  (Retrieval.store_of w)))).
  split; [apply similarDocs_run|].
  rewrite array_of_new. split.
  - rewrite length_firstn.
    rewrite (Permutation_length (sort_permutation _ _)).
    now rewrite length_map.
  - rewrite firstn_skipn. apply sort_permutation.
Qed.

(** X5. When no score is NaN, the matches returned are the best ones:
every returned match scores at least as high as every entry left out. *)
Theorem similarDocs_best (queryEmbedding : list R) (env : Env.t)
    (w : World.t) :
  Forall (fun v => Similarity.cosineSimilarity queryEmbedding
                     (Vector.embedding v) <> JsNumber.NaN)
    (Retrieval.store_of w) ->
  exists docs w' rest,
    Services.similarDocs queryEmbedding env w = (Returned docs, w')
    /\ Permutation (Retrieval.array_of w' docs ++ rest)
         (List.map (Services.scored queryEmbedding) (Retrieval.store_of w))
    /\ forall m r, In m (Retrieval.array_of w' docs) -> In r rest ->
         JsNumber.ge (Vector.score m) (Vector.score r).
Proof.
  intros Hnum. eexists. eexists.
  exists (skipn 5
            (JsArray.sort Services.by_similarity
               (List.map (Services.scored queryEmbedding)
                  (Retrieval.store_of w)))).
  split; [apply similarDocs_run|].
  rewrite array_of_new. split.
  - rewrite firstn_skipn. apply sort_permutation.
  - apply StronglySorted_app_cross. rewrite firstn_skipn.
    apply sort_descending. now apply scored_numeric.
Qed.

Lemma similarDocs_best_witness :
  let store :=
    [Examples.entry "a" [0; 1]%R "first";
     Examples.entry "b" [1; 0]%R "second";
     Examples.entry "c" [1; 1]%R "third";
     Examples.entry "d" [0; 2]%R "fourth";
     Examples.entry "e" [3; 4]%R "fifth";
     Examples.entry "f" [2; 0; 5]%R "sixth"] in
  exists docs w' rest,
    Services.similarDocs [1; 0]%R Examples.offline (Examples.with_store store)
    = (Returned docs, w')
    /\ Permutation (Retrieval.array_of w' docs ++ rest)
         (List.map (Services.scored [1; 0]%R) store)
    /\ forall m r, In m (Retrieval.array_of w' docs) -> In r rest ->
         JsNumber.ge (Vector.score m) (Vector.score r).
Proof.
  intros store.
  apply (@similarDocs_best [1; 0]%R Examples.offline
           (Examples.with_store store)).
  apply long_enough_numeric. unfold store. repeat constructor.
Defined.

(** ** [handleChat] over the in-process store: the calls it makes *)

Section ChatFacts.

Import Trace Retrieval.

(** [handleChat] once the query has been embedded. *)
Lemma handleChat_run (query : string) (history : list Content.t)
    (env : Env.t) (w : World.t) :
  Services.handleChat query history env w
  = match Env.embedContent env (World.trace w) "gemini-embedding-001" query
            "RETRIEVAL_QUERY" None with
    | inl e =>
        (Thrown e,
         after w [EmbedContent "gemini-embedding-001" query "RETRIEVAL_QUERY"
                    None (inl e)])
    | inr queryEmbedding =>
        let embedded :=
          after w [EmbedContent "gemini-embedding-001" query "RETRIEVAL_QUERY"
                     None (inr queryEmbedding)] in
        match Services.similarDocs queryEmbedding env embedded with
        | (Returned docs, w1) =>
            (chatModel <- generateContent "gemini-2.5-flash"
               (Prompt (prompt_template
                          (join (List.map Vector.text (array_of w1 docs))
                             context_separator) query))
               (config_with None Services.safetySettings []) ;;
             ret (Response.text chatModel)) env w1
        | (Thrown e, w1) => (Thrown e, w1)
        | (Diverged, w1) => (Diverged, w1)
        end
    end.
Proof.
  unfold Services.handleChat, bind at 1, embedContent, external, after.
  destruct (Env.embedContent env (World.trace w) "gemini-embedding-001" query
              "RETRIEVAL_QUERY" None) as [e|queryEmbedding]; [reflexivity|].
  cbv zeta. unfold bind at 1.
  destruct (Services.similarDocs queryEmbedding env _) as [[docs|e|] w1];
    reflexivity.
Qed.

End ChatFacts.

(** X7. [handleChat] makes one embedding call; if it fails, the error is
thrown and nothing else is called.  Otherwise the retrieval step runs
without any call, and exactly one generation call follows, whose prompt
is the template filled with the texts of the matches, joined by the
separator, and with the query; the call's text, or its error, is the
outcome. *)
Theorem handleChat_calls (query : string) (history : list Content.t)
    (env : Env.t) (w : World.t) :
  match Env.embedContent env (World.trace w) "gemini-embedding-001" query
          "RETRIEVAL_QUERY" None with
  | inl e =>
      Services.handleChat query history env w
      = (Thrown e,
         Trace.after w
           [EmbedContent "gemini-embedding-001" query "RETRIEVAL_QUERY" None
              (inl e)])
  | inr queryEmbedding =>
      exists docs w1 answer,
        Services.similarDocs queryEmbedding env
          (Trace.after w
             [EmbedContent "gemini-embedding-001" query "RETRIEVAL_QUERY"
                None (inr queryEmbedding)])
        = (Returned docs, w1)
        /\ World.trace (snd (Services.handleChat query history env w))
           = World.trace w
             ++ [EmbedContent "gemini-embedding-001" query "RETRIEVAL_QUERY"
                   None (inr queryEmbedding);
                 GenerateContent "gemini-2.5-flash"
                   (Prompt
                      (prompt_template
                         (join (List.map Vector.text
                                  (Retrieval.array_of w1 docs))
                            context_separator) query))
                   (config_with None Services.safetySettings []) answer]
        /\ fst (Services.handleChat query history env w)
           = Trace.text_of answer
  end.
Proof.
  rewrite handleChat_run.
  destruct (Env.embedContent env (World.trace w) "gemini-embedding-001" query
              "RETRIEVAL_QUERY" None) as [e|queryEmbedding]; [reflexivity|].
  cbv zeta. rewrite similarDocs_run. cbv zeta.
  eexists. eexists. eexists. split; [reflexivity|].
  rewrite generate_text. cbn [fst snd]. split; [|reflexivity].
  unfold Trace.after. cbn [World.trace World.heap].
  rewrite <- app_assoc. reflexivity.
Qed.

(** X8. With an empty store [handleChat] does not stop short: once the
query is embedded it still calls the generation service, with a prompt
whose context is empty. *)
Theorem handleChat_empty_store (query : string) (history : list Content.t)
    (env : Env.t) (w : World.t) (queryEmbedding : list R) :
  Retrieval.store_of w = [] ->
  Env.embedContent env (World.trace w) "gemini-embedding-001" query
    "RETRIEVAL_QUERY" None
  = inr queryEmbedding ->
  exists answer,
    World.trace (snd (Services.handleChat query history env w))
    = World.trace w
      ++ [EmbedContent "gemini-embedding-001" query "RETRIEVAL_QUERY" None
            (inr queryEmbedding);
          GenerateContent "gemini-2.5-flash"
            (Prompt (prompt_template EmptyString query))
            (config_with None Services.safetySettings []) answer]
    /\ fst (Services.handleChat query history env w) = Trace.text_of answer.
Proof.
  intros Hstore Hembed. rewrite handleChat_run, Hembed. cbv zeta.
  rewrite similarDocs_run. cbv zeta. rewrite array_of_new.
  replace (Retrieval.store_of
             (Trace.after w
                [EmbedContent "gemini-embedding-001" query "RETRIEVAL_QUERY"
                   None (inr queryEmbedding)]))
    with (@nil Vector.t) by (symmetry; exact Hstore).
  cbn [List.map].
  change (JsArray.sort Services.by_similarity []) with (@nil Vector.t).
  cbn [List.map firstn join String.concat].
  rewrite generate_text. cbn [fst snd]. eexists. split; [|reflexivity].
  unfold Trace.after. cbn [World.trace World.heap].
  rewrite <- app_assoc. reflexivity.
Qed.

Lemma handleChat_empty_store_witness :
  let env :=
    {| Env.systemInstruction := EmptyString;
       Env.embedContent := fun _ _ _ _ _ => inr [1; 0]%R;
       Env.generateContent := fun _ _ _ _ =>
         inr {| Response.text := Some "I do not have enough information."%string;
                Response.functionCalls := None |};
       Env.pdfParse := fun _ _ => inl (Rejected "offline");
       Env.uuidv4 := fun _ => EmptyString;
       Env.indexQuery := fun _ _ _ _ => inl (Rejected "offline");
       Env.fetchWeather := fun _ _ => inl (Rejected "offline");
       Env.fetchZoomToken := fun _ => inl (Rejected "offline");
       Env.fetchZoomMeeting := fun _ _ _ _ _ => inl (Rejected "offline") |} in
  exists answer,
    World.trace (snd (Services.handleChat "Why?" [] env Services.loaded))
    = [EmbedContent "gemini-embedding-001" "Why?" "RETRIEVAL_QUERY" None
         (inr [1; 0]%R);
       GenerateContent "gemini-2.5-flash"
         (Prompt (prompt_template EmptyString "Why?"))
         (config_with None Services.safetySettings []) answer]
    /\ fst (Services.handleChat "Why?" [] env Services.loaded)
       = Trace.text_of answer.
Proof.
  intros env.
  apply (@handleChat_empty_store "Why?" [] env Services.loaded [1; 0]%R);
    reflexivity.
Defined.

(** ** [handleFileUpload] over the in-process store: what is stored *)

Section UploadEntries.

Import Trace Retrieval.

(** One turn of the upload loop: a new entry for the chunk, or nothing
when the embedding fails. *)
Lemma store_chunk_entry (documentId chunk : string) (env : Env.t)
    (w : World.t) :
  World.heap w <> [] ->
  let r := Services.store_chunk documentId chunk env w in
  World.heap (snd r) <> []
  /\ match fst r with
     | Returned _ =>
         exists v, store_of (snd r) = store_of w ++ [v]
                   /\ Vector.text v = chunk
                   /\ Vector.documentId v = documentId
     | Thrown _ => store_of (snd r) = store_of w
     | Diverged => False
     end.
Proof.
  intros Hheap. cbv zeta.
  assert (Services.store_chunk documentId chunk env w
          = match Env.embedContent env (World.trace w) "gemini-embedding-001"
                    chunk "RETRIEVAL_DOCUMENT" None with
            | inl e =>
                (Thrown e,
                 after w
                   [EmbedContent "gemini-embedding-001" chunk
                      "RETRIEVAL_DOCUMENT" None (inl e)])
            | inr embedding =>
                let w1 :=
                  after w
                    [EmbedContent "gemini-embedding-001" chunk
                       "RETRIEVAL_DOCUMENT" None (inr embedding)] in
                let id := Env.uuidv4 env (World.trace w1) in
                array_push Services.vectorStore
                  {| Vector.id := id;
                     Vector.embedding := embedding;
                     Vector.text := chunk;
                     Vector.documentId := documentId;
                     Vector.similarity := None |}
                  env (after w1 [Uuidv4 id])
            end) as Hrun.
  { unfold Services.store_chunk, bind at 1, embedContent, external.
    destruct (Env.embedContent env (World.trace w) "gemini-embedding-001"
                chunk "RETRIEVAL_DOCUMENT" None); reflexivity. }
  rewrite Hrun.
  destruct (Env.embedContent env (World.trace w) "gemini-embedding-001"
              chunk "RETRIEVAL_DOCUMENT" None) as [e|embedding].
  - simpl. split; [assumption | reflexivity].
  - cbv zeta. rewrite array_push_appends by assumption.
    cbn [World.heap World.trace fst snd]. split; [discriminate|].
    eexists. split; [reflexivity|]. split; reflexivity.
Qed.

(** The upload loop: one entry per chunk, in the order of the chunks, up
to the first embedding that fails. *)
Lemma upload_loop_entries (documentId : string) (env : Env.t)
    (chunks : list string) : forall w : World.t,
  World.heap w <> [] ->
  let r := for_of chunks (Services.store_chunk documentId) env w in
  exists added,
    store_of (snd r) = store_of w ++ added
    /\ Forall (fun v => Vector.documentId v = documentId) added
    /\ match fst r with
       | Returned _ => List.map Vector.text added = chunks
       | Thrown _ =>
           exists n, (n < List.length chunks)%nat
                     /\ List.map Vector.text added = firstn n chunks
       | Diverged => False
       end.
Proof.
  induction chunks as [|chunk chunks IH]; intros w Hheap; cbv zeta.
  - simpl. exists []. rewrite app_nil_r. repeat split. constructor.
  - cbn [for_of]. unfold bind.
    destruct (store_chunk_entry documentId chunk env w Hheap) as [Hne Hstep].
    cbv zeta in Hne, Hstep.
    destruct (Services.store_chunk documentId chunk env w) as [[[]|e|] w1];
      cbn [fst snd] in *.
    + destruct Hstep as (v & Hstore & Htext & Hdoc).
      destruct (IH w1 Hne) as (added & Hstore' & Hdoc' & Hout).
      cbv zeta in Hstore', Hout.
      exists (v :: added). split; [|split].
      * rewrite Hstore', Hstore, <- app_assoc. reflexivity.
      * now constructor.
      * destruct (fst (for_of chunks (Services.store_chunk documentId) env w1)).
        -- cbn [List.map]. now rewrite Htext, Hout.
        -- destruct Hout as (n & Hn & Hprefix).
           exists (S n). split; [simpl; lia|].
           cbn [List.map firstn]. now rewrite Htext, Hprefix.
        -- exact Hout.
    + exists []. rewrite app_nil_r. split; [exact Hstep|].
      split; [constructor|]. exists 0%nat. split; [simpl; lia | reflexivity].
    + contradiction.
Qed.

(** [handleFileUpload], step by step. *)
Lemma handleFileUpload_run (fileBuffer originalname : string) (env : Env.t)
    (w : World.t) :
  Services.handleFileUpload fileBuffer originalname env w
  = let documentId := Env.uuidv4 env (World.trace w) in
    let w0 := after w [Uuidv4 documentId] in
    match Env.pdfParse env (World.trace w0) fileBuffer with
    | inl e => (Thrown e, after w0 [PdfParse fileBuffer (inl e)])
    | inr text =>
        let w1 := after w0 [PdfParse fileBuffer (inr text)] in
        match Chunker.chunkText_default text with
        | None => (Diverged, w1)
        | Some chunks =>
            match for_of chunks (Services.store_chunk documentId) env w1 with
            | (Returned _, w2) => (Returned documentId, w2)
            | (Thrown e, w2) => (Thrown e, w2)
            | (Diverged, w2) => (Diverged, w2)
            end
        end
    end.
Proof.
  unfold Services.handleFileUpload, bind, uuidv4, pdfParse, external,
    lift_fuel, ret, after.
  cbn [World.heap World.trace].
  destruct (Env.pdfParse env _ fileBuffer) as [e|text]; [reflexivity|].
  destruct (Chunker.chunkText_default text) as [chunks|]; [|reflexivity].
  destruct (for_of chunks _ env _) as [[[]|e|] w2]; reflexivity.
Qed.

End UploadEntries.

(** X9. [handleFileUpload] stores one entry per chunk of the parsed text,
in the order of the chunks, each holding its chunk as [text] and the
returned document identifier; the texts stored make up the parsed text.
When the parser or an embedding fails, the error is thrown and the
entries of the chunks embedded before the failure stay in the store. *)
Theorem handleFileUpload_entries (fileBuffer originalname : string)
    (env : Env.t) (w : World.t) :
  World.heap w <> [] ->
  let r := Services.handleFileUpload fileBuffer originalname env w in
  exists added,
    Retrieval.store_of (snd r) = Retrieval.store_of w ++ added
    /\ Forall (fun v => Vector.documentId v = Env.uuidv4 env (World.trace w))
         added
    /\ match fst r with
       | Returned documentId =>
           documentId = Env.uuidv4 env (World.trace w)
           /\ exists text,
                Env.pdfParse env
                  (World.trace w ++ [Uuidv4 (Env.uuidv4 env (World.trace w))])
                  fileBuffer
                = inr text
                /\ Chunker.chunkText_default text
                   = Some (List.map Vector.text added)
                /\ JsString.concat (List.map Vector.text added) = text
       | Thrown _ =>
           forall text chunks,
             Env.pdfParse env
               (World.trace w ++ [Uuidv4 (Env.uuidv4 env (World.trace w))])
               fileBuffer
             = inr text ->
             Chunker.chunkText_default text = Some chunks ->
             exists n, (n < List.length chunks)%nat
                       /\ List.map Vector.text added = firstn n chunks
       | Diverged => False
       end.
Proof.
  intros Hheap. cbv zeta. rewrite handleFileUpload_run. cbv zeta.
  unfold Trace.after at 2. cbn [World.trace].
  destruct (Env.pdfParse env _ fileBuffer) as [e|text].
  { exists []. cbn [fst snd]. unfold Retrieval.store_of, Trace.after.
    cbn [World.heap]. rewrite app_nil_r.
    split; [reflexivity|]. split; [constructor|].
    intros text chunks Hparse. discriminate Hparse. }
  destruct (@chunkText_loop_spec text 1000 eq_refl (S (String.length text))
              0%Z [])
    as (chunks & Hchunks & Hcat & _ & _);
    [lia | unfold JsString.length; lia |].
  simpl app in Hchunks.
  change (Chunker.chunkText_loop (S (String.length text)) text 1000 0 [])
    with (Chunker.chunkText_default text) in Hchunks.
  simpl Z.to_nat in Hcat. rewrite Nat.sub_0_r, substring_all in Hcat.
  rewrite Hchunks.
  match goal with
  | |- context [for_of chunks ?body env ?w1] =>
      destruct (@upload_loop_entries (Env.uuidv4 env (World.trace w)) env
                  chunks w1 Hheap) as (added & Hstore & Hdoc & Hout);
      cbv zeta in Hstore, Hout;
      destruct (for_of chunks body env w1) as [[[]|e|] w2]
  end; cbn [fst snd] in *; exists added.
  - split; [exact Hstore|]. split; [exact Hdoc|]. split; [reflexivity|].
    exists text. rewrite Hout. auto.
  - split; [exact Hstore|]. split; [exact Hdoc|].
    intros text' chunks' Hparse Hchunks'.
    inversion Hparse; subst text'. rewrite Hchunks in Hchunks'.
    inversion Hchunks'; subst chunks'. exact Hout.
  - contradiction.
Qed.

Lemma handleFileUpload_entries_witness :
  let env :=
    {| Env.systemInstruction := EmptyString;
       Env.embedContent := fun _ _ _ _ _ => inr [1; 0]%R;
       Env.generateContent := fun _ _ _ _ => inl (Rejected "offline");
       Env.pdfParse := fun _ _ => inr "A short document."%string;
       Env.uuidv4 := fun tr =>
         match tr with
         | [] => "doc-1"%string
         | _ => "vec-1"%string
         end;
       Env.indexQuery := fun _ _ _ _ => inl (Rejected "offline");
       Env.fetchWeather := fun _ _ => inl (Rejected "offline");
       Env.fetchZoomToken := fun _ => inl (Rejected "offline");
       Env.fetchZoomMeeting := fun _ _ _ _ _ => inl (Rejected "offline") |} in
  exists added,
    Retrieval.store_of
      (snd (Services.handleFileUpload "%PDF" "short.pdf" env Services.loaded))
    = Retrieval.store_of Services.loaded ++ added
    /\ Forall (fun v => Vector.documentId v = "doc-1"%string) added.
Proof.
  intros env.
  destruct (@handleFileUpload_entries "%PDF" "short.pdf" env Services.loaded)
    as (added & Hstore & Hdoc & _); [discriminate|].
  exists added. split; [exact Hstore | exact Hdoc].
Defined.

(** ** [getToken]: what it hands back *)

(** X10. [getToken] makes one request to the token endpoint and never
throws.  When the endpoint answers an object, its [access_token] and
[expires_in] are handed back as they are ([undefined] when absent), with
[error: null]; the error is set exactly when the request failed or
answered [null] or [undefined]. *)
Theorem getToken_hands_back (env : Env.t) (w : World.t) :
  let answer := Env.fetchZoomToken env (World.trace w) in
  exists token,
    Token.getToken env w
    = (Returned token, Trace.after w [FetchZoomToken answer])
    /\ (forall fields, answer = inr (JObject fields) ->
          token
          = {| Token.access_token := Json.lookup "access_token" fields;
               Token.expires_in := Json.lookup "expires_in" fields;
               Token.error := None |})
    /\ (Token.error token = None
        <-> exists value, answer = inr value
                          /\ value <> JUndefined /\ value <> JNull).
Proof.
  cbv zeta. eexists. split; [apply getToken_run|]. cbv zeta.
  destruct (Env.fetchZoomToken env (World.trace w)) as [e|value].
  - split; [discriminate|]. simpl. split; [discriminate|].
    intros (value & Hv & _). discriminate Hv.
  - split.
    + intros fields Hf. inversion Hf; subst. reflexivity.
    + destruct value; simpl; split; intros H; try discriminate H;
        try (destruct H as (v & Hv & Hu & Hn); inversion Hv; subst;
             congruence);
        try reflexivity;
        eexists; (split; [reflexivity|]); split; discriminate.
Qed.

Lemma getToken_hands_back_witness :
  let env :=
    Examples.scripted [] (inr Examples.sunny)
      (inr (JObject [("reason"%string, JString "Invalid client")]))
      (inr Examples.zoom_meeting) in
  exists token,
    Token.getToken env Examples.fresh
    = (Returned token,
       Trace.after Examples.fresh
         [FetchZoomToken
            (inr (JObject [("reason"%string, JString "Invalid client")]))])
    /\ token
       = {| Token.access_token := JUndefined;
            Token.expires_in := JUndefined;
            Token.error := None |}.
Proof.
  intros env.
  destruct (getToken_hands_back env Examples.fresh)
    as (token & Hrun & Hfields & _).
  exists token. split; [exact Hrun|].
  apply (Hfields [("reason"%string, JString "Invalid client")]).
  reflexivity.
Defined.

(** ** [handleGenerate] with tools: rounds without requests, order of the
results, requests without arguments *)

(** X11. When the initial generation call fails, [handleGenerate] throws
its error; when its response requests no function call ([functionCalls]
absent or empty), [handleGenerate] returns the text of that response.  In
both cases the initial call is the only call made. *)
Theorem handleGenerate_without_requests (query : string)
    (history : list Content.t) (env : Env.t) (w : World.t) :
  let initial :=
    GenerateContent "gemini-2.5-flash"
      (ToolServices.initial_contents query history)
      (ToolServices.initial_config (Env.systemInstruction env)) in
  match Env.generateContent env (World.trace w) "gemini-2.5-flash"
          (ToolServices.initial_contents query history)
          (ToolServices.initial_config (Env.systemInstruction env)) with
  | inl e =>
      ToolServices.handleGenerate query history env w
      = (Thrown e, Trace.after w [initial (inl e)])
  | inr chatModel =>
      Response.functionCalls chatModel = None
      \/ Response.functionCalls chatModel = Some [] ->
      ToolServices.handleGenerate query history env w
      = (Returned (Response.text chatModel),
         Trace.after w [initial (inr chatModel)])
  end.
Proof.
  cbv zeta.
  destruct (Env.generateContent env (World.trace w) "gemini-2.5-flash"
              (ToolServices.initial_contents query history)
              (ToolServices.initial_config (Env.systemInstruction env)))
    as [e|chatModel] eqn:Hinit.
  - unfold ToolServices.handleGenerate, bind, systemInstruction,
      generateContent, external, Trace.after.
    now rewrite Hinit.
  - destruct chatModel as [text calls]. cbn [Response.functionCalls].
    intros Hcalls.
    unfold ToolServices.handleGenerate, bind, systemInstruction,
      generateContent, external, Trace.after.
    rewrite Hinit. cbn [Response.functionCalls Response.text].
    destruct Hcalls as [->| ->]; reflexivity.
Qed.

Lemma handleGenerate_without_requests_witness :
  let env :=
    Examples.scripted [] (inr Examples.sunny) (inr Examples.zoom_token)
      (inr Examples.zoom_meeting) in
  ToolServices.handleGenerate "Hello" [] env Examples.fresh
  = (Returned None,
     Trace.after Examples.fresh
       [GenerateContent "gemini-2.5-flash"
          (ToolServices.initial_contents "Hello" [])
          (ToolServices.initial_config (Env.systemInstruction env))
          (inr {| Response.text := None;
                  Response.functionCalls := Some [] |})]).
Proof.
  intros env.
  apply (@handleGenerate_without_requests "Hello" [] env Examples.fresh).
  right. reflexivity.
Defined.

(** X12. The results of a completed dispatch loop are function responses
only, and they answer the handled requests in the order in which these
were requested. *)
Theorem dispatch_keeps_request_order (query : string)
    (history : list Content.t) (env : Env.t)
    (functionCalls : list FunctionCall.t) (results : list Part)
    (w w' : World.t) :
  ToolServices.dispatch query history functionCalls [] env w
  = (Returned results, w') ->
  flat_map Trace.answered results
  = filter Trace.handled (List.map FunctionCall.name functionCalls)
  /\ List.length results
     = List.length
         (filter Trace.handled (List.map FunctionCall.name functionCalls)).
Proof.
  intros Hrun.
  assert (forall calls acc out w0 w1,
            ToolServices.dispatch query history calls acc env w0
            = (Returned out, w1) ->
            List.length out
            = (List.length acc
               + List.length
                   (filter Trace.handled (List.map FunctionCall.name calls)))%nat)
    as Hlen.
  { induction calls as [|c calls IH]; intros acc out w0 w1 H.
    - simpl in H. unfold ret in H. inversion H; subst. simpl. lia.
    - simpl in H. unfold bind in H.
      destruct (ToolServices.dispatch_call query history c acc env w0)
        as [[acc'|e|] w2] eqn:Hc; try discriminate.
      apply IH in H. rewrite H.
      cbn [List.map filter].
      assert (List.length acc'
              = (List.length acc
                 + List.length (filter Trace.handled [FunctionCall.name c]))%nat)
        as Hstep.
      { clear - Hc. unfold ToolServices.dispatch_call, Trace.handled in *.
        cbn [filter].
        destruct (String.eqb _ "get_current_temperature"); simpl orb; cbv iota.
        { unfold bind in Hc. destruct (lift _ env w0) as [[?|?|] ?];
            try discriminate.
          destruct (fetchWeather _ env _) as [[?|?|] ?]; try discriminate.
          unfold ret in Hc. inversion Hc; subst.
          rewrite length_app. reflexivity. }
        destruct (String.eqb _ "create_zoom_meeting"); simpl orb; cbv iota.
        { unfold bind in Hc.
          destruct (Token.getToken env w0) as [[?|?|] ?]; try discriminate.
          repeat (destruct (lift _ env _) as [[?|?|] ?]; try discriminate).
          destruct (fetchZoomMeeting _ _ _ _ env _) as [[?|?|] ?];
            try discriminate.
          unfold ret in Hc. inversion Hc; subst.
          rewrite length_app. reflexivity. }
        destruct (String.eqb _ "rag_university_of_baguio_student_handbook");
          cbv iota.
        { unfold bind in Hc.
          destruct (ToolServices.handleChat _ _ env w0) as [[?|?|] ?];
            try discriminate.
          unfold ret in Hc. inversion Hc; subst.
          rewrite length_app. reflexivity. }
        unfold ret in Hc. inversion Hc; subst. simpl. lia. }
      rewrite Hstep. cbn [filter].
      destruct (Trace.handled (FunctionCall.name c)); simpl; lia. }
  split.
  - apply (dispatch_answered _ _ _ _ _ _ Hrun).
  - apply (Hlen _ _ _ _ _ Hrun).
Qed.

Lemma dispatch_keeps_request_order_witness :
  let env :=
    Examples.scripted [] (inr Examples.sunny) (inr Examples.zoom_token)
      (inr Examples.zoom_meeting) in
  flat_map Trace.answered
    [FunctionResponsePart "create_zoom_meeting" Examples.zoom_meeting;
     FunctionResponsePart "get_current_temperature" Examples.sunny]
  = filter Trace.handled
      (List.map FunctionCall.name
         [Examples.zoom_request; Examples.rag_request;
          Examples.weather_request]).
Proof.
  intros env.
  apply (@dispatch_keeps_request_order "q" [] env
           [Examples.zoom_request; Examples.rag_request;
            Examples.weather_request]
           [FunctionResponsePart "create_zoom_meeting" Examples.zoom_meeting;
            FunctionResponsePart "get_current_temperature" Examples.sunny]
           Examples.fresh
           (Trace.after Examples.fresh
              [FetchZoomToken (inr Examples.zoom_token);
               FetchZoomMeeting (JString "t0k3n") (JString "Sync") (JArray [])
                 (JString "2026-11-04T09:00:00Z") (inr Examples.zoom_meeting);
               FetchWeather (JString "Baguio") (inr Examples.sunny)])).
  reflexivity.
Defined.

(** X13. A requested call without arguments.  When [args] is [undefined]
or [null], a weather request throws a [TypeError] before any call is
made, and a meeting request throws it after the token has been fetched
and before the meeting is requested.  When [args] is an object, a missing
[location] does not stop the weather request: the service is called with
[undefined]. *)
Theorem dispatch_call_arguments (query : string) (history : list Content.t)
    (env : Env.t) (w : World.t) (results : list Part) (args : json) :
  let weather :=
    {| FunctionCall.name := "get_current_temperature";
       FunctionCall.args := args |} in
  let zoom :=
    {| FunctionCall.name := "create_zoom_meeting";
       FunctionCall.args := args |} in
  (args = JUndefined \/ args = JNull ->
     ToolServices.dispatch_call query history weather results env w
     = (Thrown (TypeError "location"), w)
     /\ ToolServices.dispatch_call query history zoom results env w
        = (Thrown (TypeError "topic"),
           Trace.after w
             [FetchZoomToken (Env.fetchZoomToken env (World.trace w))]))
  /\ (forall fields, args = JObject fields ->
        ToolServices.dispatch_call query history weather results env w
        = (res <- fetchWeather (Json.lookup "location" fields) ;;
           ret (results
                ++ [FunctionResponsePart "get_current_temperature" res]))
            env w).
Proof.
  cbv zeta. split.
  - intros Hargs. split.
    + unfold ToolServices.dispatch_call. cbn [FunctionCall.name FunctionCall.args].
      destruct Hargs as [->| ->]; reflexivity.
    + unfold ToolServices.dispatch_call. cbn [FunctionCall.name FunctionCall.args].
      change (String.eqb "create_zoom_meeting" "get_current_temperature")
        with false.
      change (String.eqb "create_zoom_meeting" "create_zoom_meeting")
        with true.
      cbv iota. unfold bind at 1. rewrite getToken_run. cbv zeta.
      destruct Hargs as [->| ->]; reflexivity.
  - intros fields ->. reflexivity.
Qed.

Lemma dispatch_call_arguments_witness :
  ToolServices.dispatch_call "q" []
    {| FunctionCall.name := "get_current_temperature";
       FunctionCall.args := JUndefined |} []
    Examples.offline Examples.fresh
  = (Thrown (TypeError "location"), Examples.fresh)
  /\ ToolServices.dispatch_call "q" []
       {| FunctionCall.name := "get_current_temperature";
          FunctionCall.args := JObject [] |} []
       Examples.offline Examples.fresh
     = (Thrown (Rejected "offline"),
        Trace.after Examples.fresh
          [FetchWeather JUndefined (inl (Rejected "offline"))]).
Proof.
  split.
  - apply (proj1 (proj1 (@dispatch_call_arguments "q" [] Examples.offline
                           Examples.fresh [] JUndefined) (or_introl eq_refl))).
  - rewrite (proj2 (@dispatch_call_arguments "q" [] Examples.offline
                      Examples.fresh [] (JObject [])) [] eq_refl).
    reflexivity.
Defined.

(** ** [handleChat] over the managed index *)

(** X14. [handleChat] over the managed index makes an embedding call for
1024 dimensions, then one query for the 5 nearest matches with their
metadata, then one generation call, and stops at the first call that
fails, throwing its error.  The context of the prompt is made of the
texts of the matches that have a non-empty text, in the order of the
matches; it is empty when the index answers no matches. *)
Theorem handleChat_index_calls (query : string) (history : list Content.t)
    (env : Env.t) (w : World.t) :
  let embed :=
    EmbedContent "gemini-embedding-001" query "RETRIEVAL_QUERY" (Some 1024%Z) in
  match Env.embedContent env (World.trace w) "gemini-embedding-001" query
          "RETRIEVAL_QUERY" (Some 1024%Z) with
  | inl e =>
      ToolServices.handleChat query history env w
      = (Thrown e, Trace.after w [embed (inl e)])
  | inr queryEmbedding =>
      let w1 := Trace.after w [embed (inr queryEmbedding)] in
      match Env.indexQuery env (World.trace w1) queryEmbedding 5 true with
      | inl e =>
          ToolServices.handleChat query history env w
          = (Thrown e,
             Trace.after w1 [IndexQuery queryEmbedding 5 true (inl e)])
      | inr matches =>
          let w2 :=
            Trace.after w1 [IndexQuery queryEmbedding 5 true (inr matches)] in
          let texts :=
            match matches with
            | Some ms => ToolServices.truthy_texts ms
            | None => []
            end in
          let prompt := Prompt (prompt_template
                                  (join texts context_separator) query) in
          let config := config_with None ToolServices.safetySettings [] in
          let answer :=
            Env.generateContent env (World.trace w2) "gemini-2.5-flash"
              prompt config in
          ToolServices.handleChat query history env w
          = (Trace.text_of answer,
             Trace.after w2
               [GenerateContent "gemini-2.5-flash" prompt config answer])
          /\ Forall (fun t => t <> EmptyString /\ In (Some t)
                                (match matches with
                                 | Some ms => ms
                                 | None => []
                                 end)) texts
      end
  end.
Proof.
  cbv zeta.
  unfold ToolServices.handleChat, bind, embedContent, indexQuery, external.
  destruct (Env.embedContent env (World.trace w) "gemini-embedding-001" query
              "RETRIEVAL_QUERY" (Some 1024%Z)) as [e|queryEmbedding];
    [reflexivity|].
  cbn [World.heap World.trace]. unfold Trace.after at 1. cbn [World.trace].
  destruct (Env.indexQuery env _ queryEmbedding 5 true) as [e|matches];
    [reflexivity|].
  split.
  - unfold generateContent, external, ret, Trace.after.
    cbn [World.heap World.trace].
    destruct (Env.generateContent env _ "gemini-2.5-flash" _ _); reflexivity.
  - destruct matches as [ms|]; [|constructor].
    induction ms as [|[[|c s]|] ms IH]; simpl; try constructor.
    + eapply Forall_impl; [|exact IH]. intros t [Hne Hin]. auto.
    + split; [discriminate | now left].
    + eapply Forall_impl; [|exact IH]. intros t [Hne Hin]. auto.
    + eapply Forall_impl; [|exact IH]. intros t [Hne Hin]. auto.
Qed.

(** ** The HTTP handlers *)

Section ServerFacts.

Import Server.

(** The handler of the query routes, case by case. *)
Lemma post_query_run (service : json -> json -> M (option string))
    (reqBody : json) (env : Env.t) (w : World.t) :
  post_query service reqBody env w
  = match Json.get reqBody "query", Json.get reqBody "history" with
    | inr query, inr history =>
        if falsy query
        then (Returned {| Reply.status := 400;
                          Reply.body := message "Query is required." |}, w)
        else
          match service query (or_empty history) env w with
          | (Returned response, w') =>
              (Returned
                 {| Reply.status := 200;
                    Reply.body :=
                      JObject
                        [("message"%string,
                          JString "Response generated successfully.");
                         ("response"%string, Json.of_text response)] |}, w')
          | (Thrown _, w') =>
              (Returned
                 {| Reply.status := 500;
                    Reply.body :=
                      message "An error occurred while generating a response."
                 |}, w')
          | (Diverged, w') => (Diverged, w')
          end
    | _, _ =>
        (Returned
           {| Reply.status := 500;
              Reply.body :=
                message "An error occurred while generating a response." |},
         w)
    end.
Proof.
  unfold post_query, try_catch, bind, lift.
  destruct (Json.get reqBody "query") as [e|query]; [reflexivity|].
  destruct (Json.get reqBody "history") as [e|history]; [reflexivity|].
  cbn [throw ret].
  destruct (falsy query); [reflexivity|].
  destruct (service query (or_empty history) env w) as [[response|e|] w'];
    reflexivity.
Qed.

End ServerFacts.

(** X15. [POST /api/chat] and [POST /api/generate] answer 400,
[Query is required.], when the body is an object whose [query] is missing
or falsy (empty string, [null], [0], [false]); the service function is
not run: no call is made and nothing is stored. *)
Theorem post_query_requires_query
    (service : json -> json -> M (option string))
    (fields : list (string * json)) (env : Env.t) (w : World.t) :
  Server.falsy (Json.lookup "query" fields) = true ->
  let reply :=
    {| Server.Reply.status := 400;
       Server.Reply.body := Server.message "Query is required." |} in
  Server.post_chat service (JObject fields) env w = (Returned reply, w)
  /\ Server.post_generate service (JObject fields) env w = (Returned reply, w).
Proof.
  intros Hfalsy. cbv zeta. unfold Server.post_chat, Server.post_generate.
  rewrite post_query_run. cbn [Json.get]. now rewrite Hfalsy.
Qed.

Lemma post_query_requires_query_witness :
  Server.post_chat (fun _ _ => throw (Rejected "never run"))
    (JObject [("query"%string, JString EmptyString)])
    Examples.offline Examples.fresh
  = (Returned
       {| Server.Reply.status := 400;
          Server.Reply.body := Server.message "Query is required." |},
     Examples.fresh).
Proof.
  apply (proj1 (@post_query_requires_query
                  (fun _ _ => throw (Rejected "never run"))
                  [("query"%string, JString EmptyString)]
                  Examples.offline Examples.fresh eq_refl)).
Defined.

(** X16. The query routes never throw: every failure is answered.  A
body that is [undefined] or [null] gets the 500 reply, and the service is
not run.  With a truthy [query], the service is run on the query and on
the history ([[]] when the body has none): the text it returns is sent in
a 200 reply, and an error it throws, whatever it is, gets the same 500
reply, which carries a fixed message and nothing of the error. *)
Theorem post_query_always_replies
    (service : json -> json -> M (option string)) (reqBody : json)
    (env : Env.t) (w : World.t) :
  let failure :=
    {| Server.Reply.status := 500;
       Server.Reply.body :=
         Server.message "An error occurred while generating a response." |} in
  let r := Server.post_query service reqBody env w in
  (forall e, fst r <> Thrown e)
  /\ (reqBody = JUndefined \/ reqBody = JNull -> r = (Returned failure, w))
  /\ (forall query history,
        Json.get reqBody "query" = inr query ->
        Json.get reqBody "history" = inr history ->
        Server.falsy query = false ->
        match service query (Server.or_empty history) env w with
        | (Returned response, w') =>
            r = (Returned
                   {| Server.Reply.status := 200;
                      Server.Reply.body :=
                        JObject
                          [("message"%string,
                            JString "Response generated successfully.");
                           ("response"%string, Json.of_text response)] |},
                 w')
        | (Thrown _, w') => r = (Returned failure, w')
        | (Diverged, w') => r = (Diverged, w')
        end).
Proof.
  cbv zeta. rewrite post_query_run. split; [|split].
  - intros e.
    destruct (Json.get reqBody "query") as [e1|query]; [discriminate|].
    destruct (Json.get reqBody "history") as [e2|history]; [discriminate|].
    destruct (Server.falsy query); [discriminate|].
    destruct (service query (Server.or_empty history) env w)
      as [[response|e'|] w']; discriminate.
  - intros [-> | ->]; reflexivity.
  - intros query history -> -> ->.
    destruct (service query (Server.or_empty history) env w)
      as [[response|e'|] w']; reflexivity.
Qed.

Lemma post_query_always_replies_witness :
  Server.post_query (fun _ _ => throw (Rejected "quota exceeded"))
    (JObject [("query"%string, JString "Why?")])
    Examples.offline Examples.fresh
  = (Returned
       {| Server.Reply.status := 500;
          Server.Reply.body :=
            Server.message "An error occurred while generating a response." |},
     Examples.fresh).
Proof.
  apply (proj2 (proj2 (@post_query_always_replies
                         (fun _ _ => throw (Rejected "quota exceeded"))
                         (JObject [("query"%string, JString "Why?")])
                         Examples.offline Examples.fresh))
           (JString "Why?") JUndefined eq_refl eq_refl eq_refl).
Defined.

(** X17. [POST /api/upload] over the in-process store always answers.
Without a file it answers 400 and the service is not run.  With a file,
the text is what the parser makes of the file's buffer; when the parser
fails the reply is the fixed 500 reply and nothing is stored.  Otherwise
the reply is 201, with the document identifier drawn first, only when
every chunk of that text has been embedded and stored, in order; when an
embedding fails the reply is the 500 reply, and the entries of the chunks
before the failing one stay in the store. *)
Theorem post_upload_in_process (file : option Server.File.t) (env : Env.t)
    (w : World.t) :
  World.heap w <> [] ->
  let r := Server.post_upload Services.handleFileUpload file env w in
  let failure :=
    {| Server.Reply.status := 500;
       Server.Reply.body :=
         Server.message "An error occurred during file processing." |} in
  match file with
  | None =>
      r = (Returned
             {| Server.Reply.status := 400;
                Server.Reply.body := Server.message "No file uploaded." |}, w)
  | Some file =>
      let documentId := Env.uuidv4 env (World.trace w) in
      match Env.pdfParse env (World.trace w ++ [Uuidv4 documentId])
              (Server.File.buffer file) with
      | inl e =>
          r = (Returned failure,
               Trace.after w
                 [Uuidv4 documentId;
                  PdfParse (Server.File.buffer file) (inl e)])
      | inr text =>
          exists chunks added,
            Chunker.chunkText_default text = Some chunks
            /\ Retrieval.store_of (snd r) = Retrieval.store_of w ++ added
            /\ Forall (fun v => Vector.documentId v = documentId) added
            /\ ((fst r
                  = Returned
                      {| Server.Reply.status := 201;
                         Server.Reply.body :=
                           JObject
                             [("message"%string,
                               JString
                                 "File uploaded and processed successfully.");
                              ("documentId"%string, JString documentId)] |}
                  /\ List.map Vector.text added = chunks)
                \/ (fst r = Returned failure
                    /\ exists n, (n < List.length chunks)%nat
                                 /\ List.map Vector.text added
                                    = firstn n chunks))
      end
  end.
Proof.
  intros Hheap. cbv zeta. destruct file as [file|]; [|reflexivity].
  unfold Server.post_upload, try_catch, bind.
  rewrite handleFileUpload_run. cbv zeta.
  unfold Trace.after at 2. cbn [World.trace].
  destruct (Env.pdfParse env _ (Server.File.buffer file)) as [e|text].
  { unfold ret, Trace.after. cbn [World.heap World.trace].
    now rewrite <- app_assoc. }
  destruct (@chunkText_loop_spec text 1000 eq_refl (S (String.length text))
              0%Z [])
    as (chunks & Hchunks & _);
    [lia | unfold JsString.length; lia |].
  simpl app in Hchunks.
  change (Chunker.chunkText_loop (S (String.length text)) text 1000 0 [])
    with (Chunker.chunkText_default text) in Hchunks.
  rewrite Hchunks. exists chunks.
  match goal with
  | |- context [for_of chunks ?body env ?w1] =>
      destruct (@upload_loop_entries (Env.uuidv4 env (World.trace w)) env
                  chunks w1 Hheap) as (added & Hstore & Hdoc & Hout);
      cbv zeta in Hstore, Hout;
      destruct (for_of chunks body env w1) as [[[]|e|] w2]
  end; cbn [fst snd ret] in *; exists added.
  - split; [reflexivity|]. split; [exact Hstore|]. split; [exact Hdoc|].
    left. split; [reflexivity | exact Hout].
  - split; [reflexivity|]. split; [exact Hstore|]. split; [exact Hdoc|].
    right. split; [reflexivity | exact Hout].
  - contradiction.
Qed.

Lemma post_upload_in_process_witness :
  let env :=
    {| Env.systemInstruction := EmptyString;
       Env.embedContent := fun _ _ _ _ _ => inr [1; 0]%R;
       Env.generateContent := fun _ _ _ _ => inl (Rejected "offline");
       Env.pdfParse := fun _ _ => inr "A short document."%string;
       Env.uuidv4 := fun tr =>
         match tr with
         | [] => "doc-1"%string
         | _ => "vec-1"%string
         end;
       Env.indexQuery := fun _ _ _ _ => inl (Rejected "offline");
       Env.fetchWeather := fun _ _ => inl (Rejected "offline");
       Env.fetchZoomToken := fun _ => inl (Rejected "offline");
       Env.fetchZoomMeeting := fun _ _ _ _ _ => inl (Rejected "offline") |} in
  let r :=
    Server.post_upload Services.handleFileUpload
      (Some {| Server.File.buffer := "%PDF";
               Server.File.originalname := "short.pdf" |})
      env Services.loaded in
  exists added,
    Retrieval.store_of (snd r) = added
    /\ Forall (fun v => Vector.documentId v = "doc-1"%string) added
    /\ fst r
       = Returned
           {| Server.Reply.status := 201;
              Server.Reply.body :=
                JObject
                  [("message"%string,
                    JString "File uploaded and processed successfully.");
                   ("documentId"%string, JString "doc-1")] |}
    /\ List.map Vector.text added = ["A short document."%string].
Proof.
  intros env r.
  destruct (@post_upload_in_process
              (Some {| Server.File.buffer := "%PDF";
                       Server.File.originalname := "short.pdf" |})
              env Services.loaded ltac:(discriminate))
    as (chunks & added & Hchunks & Hstore & Hdoc & Hreply).
  injection Hchunks as <-.
  exists added. split; [exact Hstore|]. split; [exact Hdoc|].
  destruct Hreply as [[Hok Htexts] | [Hfailed _]].
  - split; [exact Hok | exact Htexts].
  - discriminate Hfailed.
Defined.

(** ** [handleFileUpload] over the managed index: batches *)

Section BatchFacts.

Import IndexUpload.
Local Open Scope Z_scope.

Variable A : Type.

(** A batch cut at an index inside the array. *)
Lemma slice_batch (l : list A) (i : Z) :
  0 <= i -> i < Z.of_nat (List.length l) ->
  JsArray.slice l i (i + 100)
  = firstn (Z.to_nat (Z.min (i + 100) (Z.of_nat (List.length l)) - i))
      (skipn (Z.to_nat i) l).
Proof.
  intros Hi Hlt. unfold JsArray.slice, JsArray.relative.
  destruct (Z.ltb_spec i 0); [lia|].
  destruct (Z.ltb_spec (i + 100) 0); [lia|].
  f_equal; [|f_equal]; lia.
Qed.

Lemma skipn_batch (l : list A) (i : Z) :
  0 <= i -> i < Z.of_nat (List.length l) ->
  firstn (Z.to_nat (Z.min (i + 100) (Z.of_nat (List.length l)) - i))
    (skipn (Z.to_nat i) l)
  ++ skipn (Z.to_nat (i + 100)) l
  = skipn (Z.to_nat i) l.
Proof.
  intros Hi Hlt.
  destruct (Z.le_gt_cases (i + 100) (Z.of_nat (List.length l))) as [Hin|Hout].
  - rewrite Z.min_l by lia.
    replace (Z.to_nat (i + 100)) with (Z.to_nat (i + 100 - i) + Z.to_nat i)%nat
      by lia.
    rewrite <- skipn_skipn. apply firstn_skipn.
  - rewrite Z.min_r by lia.
    rewrite (skipn_all2 (n := Z.to_nat (i + 100))) by lia.
    rewrite app_nil_r. apply firstn_all2. rewrite length_skipn. lia.
Qed.

End BatchFacts.

Section UpsertFacts.

Import IndexUpload.
Local Open Scope Z_scope.

(** The batches that the upsert loop submits from index [i] on. *)
Lemma upsert_loop_batches_from (vectors : list IndexVector.t) :
  forall (n : nat) (i : Z),
    0 <= i -> Z.max 0 (Z.of_nat (List.length vectors) - i) <= Z.of_nat n ->
    exists batches,
      List.concat batches = skipn (Z.to_nat i) vectors
      /\ Forall (fun b => (1 <= List.length b <= 100)%nat) batches
      /\ (Z.of_nat (List.length vectors) <= i -> batches = [])
      /\ Forall (fun b => List.length b = 100%nat) (removelast batches)
      /\ forall (fuel : nat) (upsert : list IndexVector.t -> M unit)
                (env : Env.t) (w : World.t),
           Z.max 0 (Z.of_nat (List.length vectors) - i) < Z.of_nat fuel ->
           upsert_loop fuel upsert vectors i env w
           = for_of batches upsert env w.
Proof.
  induction n as [|n IH]; intros i Hi Hn.
  - exists []. rewrite skipn_all2 by lia.
    repeat split; try constructor.
    intros [|fuel] upsert env w Hfuel; [lia|]. simpl.
    destruct (Z.ltb_spec i (Z.of_nat (List.length vectors))); [lia|].
    reflexivity.
  - destruct (Z.lt_ge_cases i (Z.of_nat (List.length vectors))) as [Hlt|Hge].
    + destruct (IH (i + 100)) as (batches & Hcat & Hsize & Hnil & Hfull & Hrun);
        try lia.
      exists (JsArray.slice vectors i (i + 100) :: batches).
      rewrite slice_batch by assumption.
      split; [|split; [|split; [|split]]].
      * cbn [List.concat]. rewrite Hcat. now apply skipn_batch.
      * constructor; [|exact Hsize].
        rewrite length_firstn, length_skipn. lia.
      * intros Hle. lia.
      * destruct batches as [|b batches]; [constructor|].
        change (removelast (?x :: b :: batches))
          with (x :: removelast (b :: batches)).
        constructor; [|exact Hfull].
        assert (i + 100 < Z.of_nat (List.length vectors)) as Hin.
        { destruct (Z.lt_ge_cases (i + 100) (Z.of_nat (List.length vectors)));
            [assumption|]. discriminate Hnil. lia. }
        rewrite length_firstn, length_skipn. lia.
      * intros [|fuel] upsert env w Hfuel; [lia|].
        cbn [upsert_loop for_of].
        destruct (Z.ltb_spec i (Z.of_nat (List.length vectors))); [|lia].
        rewrite <- slice_batch by assumption.
        unfold bind.
        destruct (upsert (JsArray.slice vectors i (i + 100)) env w)
          as [[[]|e|] w']; try reflexivity.
        apply Hrun. lia.
    + exists []. rewrite skipn_all2 by lia.
      repeat split; try constructor.
      intros [|fuel] upsert env w Hfuel; [lia|]. simpl.
      destruct (Z.ltb_spec i (Z.of_nat (List.length vectors))); [lia|].
      reflexivity.
Qed.

(** The vectors that the embedding loop builds. *)
Lemma embed_chunks_vectors (documentId originalname : string) (env : Env.t)
    (chunks : list string) :
  forall (vectorsToUpsert vectors : list IndexVector.t) (w w' : World.t),
    embed_chunks documentId originalname chunks vectorsToUpsert env w
    = (Returned vectors, w') ->
    exists new,
      vectors = vectorsToUpsert ++ new
      /\ List.map IndexVector.text new = chunks
      /\ Forall (fun v => IndexVector.documentId v = documentId
                          /\ IndexVector.originalname v = originalname) new.
Proof.
  induction chunks as [|chunk chunks IH];
    intros vectorsToUpsert vectors w w' Hrun.
  - simpl in Hrun. unfold ret in Hrun. inversion Hrun; subst.
    exists []. rewrite app_nil_r. repeat split. constructor.
  - cbn [embed_chunks] in Hrun. unfold bind at 1 in Hrun.
    destruct (embed_chunk documentId originalname chunk vectorsToUpsert env w)
      as [[vectors1|e|] w1] eqn:Hstep; try discriminate.
    apply IH in Hrun as (new & -> & Htexts & Hmeta).
    unfold embed_chunk, bind, embedContent, external, uuidv4, ret in Hstep.
    destruct (Env.embedContent env (World.trace w) "gemini-embedding-001"
                chunk "RETRIEVAL_DOCUMENT" (Some 1024)) as [e|embedding];
      [discriminate|].
    injection Hstep as Hvectors _. subst vectors1.
    eexists. rewrite <- app_assoc.
    split; [reflexivity|]. split.
    + cbn [app List.map IndexVector.text]. now rewrite Htexts.
    + constructor; [split; reflexivity | exact Hmeta].
Qed.

End UpsertFacts.

(** X18. The upsert loop submits the vectors in batches: the batches, put
end to end in the order of submission, are the vectors; each batch holds
between 1 and 100 vectors and every batch but the last holds 100; the
loop stops at the first batch that the index client rejects. *)
Theorem upsert_loop_batches (vectors : list IndexUpload.IndexVector.t) :
  exists batches,
    List.concat batches = vectors
    /\ Forall (fun b => (1 <= List.length b <= 100)%nat) batches
    /\ Forall (fun b => List.length b = 100%nat) (removelast batches)
    /\ forall (fuel : nat)
              (upsert : list IndexUpload.IndexVector.t -> M unit)
              (env : Env.t) (w : World.t),
         (List.length vectors < fuel)%nat ->
         IndexUpload.upsert_loop fuel upsert vectors 0 env w
         = for_of batches upsert env w.
Proof.
  destruct (@upsert_loop_batches_from vectors (List.length vectors) 0%Z)
    as (batches & Hcat & Hsize & _ & Hfull & Hrun); [lia | lia |].
  exists batches. split; [exact Hcat|]. split; [exact Hsize|].
  split; [exact Hfull|].
  intros fuel upsert env w Hfuel. apply Hrun. lia.
Qed.

Lemma upsert_loop_batches_witness :
  let vector :=
    {| IndexUpload.IndexVector.id := "vec-1";
       IndexUpload.IndexVector.values := [1; 0]%R;
       IndexUpload.IndexVector.text := "A short document.";
       IndexUpload.IndexVector.documentId := "doc-1";
       IndexUpload.IndexVector.originalname := "short.pdf" |} in
  let vectors := List.repeat vector 101 in
  exists batches,
    List.concat batches = vectors
    /\ Forall (fun b => (1 <= List.length b <= 100)%nat) batches
    /\ forall (upsert : list IndexUpload.IndexVector.t -> M unit),
         IndexUpload.upsert_loop 102 upsert vectors 0 Examples.offline
           Examples.fresh
         = for_of batches upsert Examples.offline Examples.fresh.
Proof.
  intros vector vectors.
  destruct (upsert_loop_batches vectors)
    as (batches & Hcat & Hsize & _ & Hrun).
  exists batches. split; [exact Hcat|]. split; [exact Hsize|].
  intros upsert. apply Hrun. unfold vectors. rewrite repeat_length. lia.
Defined.

Section IndexUploadFacts.

Import IndexUpload.

Lemma embed_chunks_terminates (documentId originalname : string)
    (env : Env.t) (chunks : list string) :
  forall (vectorsToUpsert : list IndexVector.t) (w : World.t),
    fst (embed_chunks documentId originalname chunks vectorsToUpsert env w)
    <> Diverged.
Proof.
  induction chunks as [|chunk chunks IH]; intros vectorsToUpsert w.
  - discriminate.
  - cbn [embed_chunks]. unfold bind at 1.
    unfold embed_chunk, bind, embedContent, external, uuidv4, ret.
    destruct (Env.embedContent env (World.trace w) "gemini-embedding-001"
                chunk "RETRIEVAL_DOCUMENT" (Some 1024%Z)) as [e|embedding];
      [discriminate|].
    apply IH.
Qed.

(** [handleFileUpload] over the managed index, step by step. *)
Lemma index_handleFileUpload_run (newPinecone : M Pinecone.t)
    (pinecone : option Pinecone.t) (PINECONE_INDEX_NAME : string)
    (fileBuffer originalname : string) (env : Env.t) (w : World.t) :
  handleFileUpload newPinecone pinecone PINECONE_INDEX_NAME fileBuffer
    originalname env w
  = let documentId := Env.uuidv4 env (World.trace w) in
    let w0 := Trace.after w [Uuidv4 documentId] in
    match Env.pdfParse env (World.trace w0) fileBuffer with
    | inl e => (Thrown e, Trace.after w0 [PdfParse fileBuffer (inl e)])
    | inr text =>
        let w1 := Trace.after w0 [PdfParse fileBuffer (inr text)] in
        match Chunker.chunkText_default text with
        | None => (Diverged, w1)
        | Some chunks =>
            match (pineconeClient <- initPinecone newPinecone pinecone ;;
                   Pinecone.Index pineconeClient PINECONE_INDEX_NAME)
                    env w1 with
            | (Returned index, w2) =>
                match embed_chunks documentId originalname chunks [] env w2
                with
                | (Returned vectors, w3) =>
                    (_ <- upsert_loop (S (List.length vectors))
                            (PineconeIndex.upsert index) vectors 0 ;;
                     ret documentId) env w3
                | (Thrown e, w3) => (Thrown e, w3)
                | (Diverged, w3) => (Diverged, w3)
                end
            | (Thrown e, w2) => (Thrown e, w2)
            | (Diverged, w2) => (Diverged, w2)
            end
        end
    end.
Proof.
  unfold handleFileUpload, bind at 1, uuidv4 at 1.
  unfold bind at 1, pdfParse, external, Trace.after.
  cbn [World.heap World.trace].
  destruct (Env.pdfParse env _ fileBuffer) as [e|text]; [reflexivity|].
  unfold bind at 1, lift_fuel.
  destruct (Chunker.chunkText_default text) as [chunks|]; [|reflexivity].
  unfold bind.
  destruct (initPinecone newPinecone pinecone env _)
    as [[pineconeClient|e|] w2]; reflexivity.
Qed.

End IndexUploadFacts.

(** X19. [handleFileUpload] over the managed index asks for the index
client after the text has been chunked and before the first chunk is
embedded, and it embeds every chunk before it upserts anything.  When the
parser fails, the error is thrown and the client is not asked for.  When
the client or its index cannot be had, the error is thrown and no chunk
is embedded.  When an embedding fails, the error is thrown and no batch is
submitted.  Otherwise there is one vector per chunk of the parsed text,
in the order of the chunks, and the vectors are submitted to the index in
batches of at most 100 that, put end to end, are these vectors; the
document identifier is returned when every batch has been accepted. *)
Theorem index_upload_embeds_first
    (newPinecone : M IndexUpload.Pinecone.t)
    (pinecone : option IndexUpload.Pinecone.t) (PINECONE_INDEX_NAME : string)
    (fileBuffer originalname : string) (env : Env.t) (w : World.t) :
  let run :=
    IndexUpload.handleFileUpload newPinecone pinecone PINECONE_INDEX_NAME
      fileBuffer originalname env w in
  let documentId := Env.uuidv4 env (World.trace w) in
  let w0 := Trace.after w [Uuidv4 documentId] in
  match Env.pdfParse env (World.trace w0) fileBuffer with
  | inl e => run = (Thrown e, Trace.after w0 [PdfParse fileBuffer (inl e)])
  | inr text =>
      exists chunks,
        Chunker.chunkText_default text = Some chunks
        /\ match (pineconeClient <- IndexUpload.initPinecone newPinecone
                                      pinecone ;;
                  IndexUpload.Pinecone.Index pineconeClient
                    PINECONE_INDEX_NAME)
                   env (Trace.after w0 [PdfParse fileBuffer (inr text)]) with
           | (Returned index, w2) =>
               match IndexUpload.embed_chunks documentId originalname chunks
                       [] env w2 with
               | (Returned vectors, w3) =>
                   List.map IndexUpload.IndexVector.text vectors = chunks
                   /\ exists batches,
                        List.concat batches = vectors
                        /\ Forall (fun b => (1 <= List.length b <= 100)%nat)
                             batches
                        /\ run
                           = (_ <- for_of batches
                                     (IndexUpload.PineconeIndex.upsert index) ;;
                              ret documentId) env w3
               | (Thrown e, w3) => run = (Thrown e, w3)
               | (Diverged, _) => False
               end
           | (Thrown e, w2) => run = (Thrown e, w2)
           | (Diverged, w2) => run = (Diverged, w2)
           end
  end.
Proof.
  cbv zeta. rewrite index_handleFileUpload_run. cbv zeta.
  destruct (Env.pdfParse env _ fileBuffer) as [e|text]; [reflexivity|].
  destruct (@chunkText_loop_spec text 1000 eq_refl (S (String.length text))
              0%Z [])
    as (chunks & Hchunks & _);
    [lia | unfold JsString.length; lia |].
  simpl app in Hchunks.
  change (Chunker.chunkText_loop (S (String.length text)) text 1000 0 [])
    with (Chunker.chunkText_default text) in Hchunks.
  exists chunks. split; [exact Hchunks|]. rewrite Hchunks.
  match goal with
  | |- context [bind ?m ?k env ?w1] =>
      destruct (bind m k env w1) as [[index|e|] w2]
  end; try reflexivity.
  pose proof (embed_chunks_terminates (Env.uuidv4 env (World.trace w))
                originalname env chunks [] w2) as Hterm.
  destruct (IndexUpload.embed_chunks _ originalname chunks [] env w2)
    as [[vectors|e|] w3] eqn:Hembed; cbn [fst] in Hterm.
  - apply embed_chunks_vectors in Hembed as (new & Hnew & Htexts & _).
    cbn [app] in Hnew. subst new. split; [exact Htexts|].
    destruct (@upsert_loop_batches_from vectors (List.length vectors) 0%Z)
      as (batches & Hcat & Hsize & _ & _ & Hrun); [lia | lia |].
    exists batches. split; [exact Hcat|]. split; [exact Hsize|].
    unfold bind. rewrite Hrun by lia. reflexivity.
  - reflexivity.
  - contradiction.
Qed.

(** ** The meeting request and its token *)

(** X20. A meeting request with an object of arguments fetches the token
and then requests the meeting, whatever the token endpoint answered: the
bearer token is the [access_token] of an object answer, [undefined] when
the answer has none, and [null] when the fetch failed or answered [null]
or [undefined].  The topic, invitees and start time are the properties of
[args], [undefined] when missing. *)
Theorem zoom_request_uses_fetched_token (query : string)
    (history : list Content.t) (env : Env.t) (w : World.t)
    (results : list Part) (fields : list (string * json)) :
  let call :=
    {| FunctionCall.name := "create_zoom_meeting";
       FunctionCall.args := JObject fields |} in
  let answer := Env.fetchZoomToken env (World.trace w) in
  let bearer :=
    match answer with
    | inr (JObject token) => Json.lookup "access_token" token
    | inl _ | inr JUndefined | inr JNull => JNull
    | inr _ => JUndefined
    end in
  ToolServices.dispatch_call query history call results env w
  = (res <- fetchZoomMeeting bearer (Json.lookup "topic" fields)
              (Json.lookup "meeting_invitees" fields)
              (Json.lookup "start_time" fields) ;;
     ret (results ++ [FunctionResponsePart "create_zoom_meeting" res]))
      env (Trace.after w [FetchZoomToken answer]).
Proof.
  cbv zeta. unfold ToolServices.dispatch_call.
  cbn [FunctionCall.name FunctionCall.args].
  change (String.eqb "create_zoom_meeting" "get_current_temperature")
    with false.
  change (String.eqb "create_zoom_meeting" "create_zoom_meeting") with true.
  cbv iota. unfold bind at 1. rewrite getToken_run. cbv zeta.
  destruct (Env.fetchZoomToken env (World.trace w)) as [e|[| | | | | |token]];
    reflexivity.
Qed.

(** ** The ranker: the length of the query does not matter *)

Section ScaleFacts.

Import JsNumber Algebra Similarity.
Local Open Scope R_scope.

Lemma sum_products_scale (k : R) (a : list R) : forall b,
  sum_products (List.map (Rmult k) a) b = k * sum_products a b.
Proof.
  induction a as [|x a IH]; intros [|y b]; simpl; try lra.
  rewrite IH. lra.
Qed.

Lemma sum_squares_scale (k : R) (a : list R) :
  sum_squares (List.map (Rmult k) a) = (k * k) * sum_squares a.
Proof. induction a as [|x a IH]; simpl; [lra | rewrite IH; lra]. Qed.

Lemma magnitude_scale (k : R) (a : list R) :
  0 < k ->
  R_sqrt.sqrt (sum_squares (List.map (Rmult k) a))
  = k * R_sqrt.sqrt (sum_squares a).
Proof.
  intros Hk. rewrite sum_squares_scale.
  rewrite sqrt_mult by (try apply sum_squares_nonneg; nra).
  rewrite sqrt_square by lra. reflexivity.
Qed.

End ScaleFacts.

(** X21. The score does not depend on the length of the query vector:
multiplying every component of [vecA] by the same positive number leaves
[cosineSimilarity(vecA, vecB)] unchanged, when [vecB] is not the shorter
vector. *)
Theorem cosineSimilarity_scale_invariant (k : R) (a b : list R) :
  (0 < k)%R ->
  (List.length a <= List.length b)%nat ->
  Similarity.cosineSimilarity (List.map (Rmult k) a) b
  = Similarity.cosineSimilarity a b.
Proof.
  intros Hk Hle.
  rewrite (cosineSimilarity_closed_form (List.map (Rmult k) a) b)
    by (rewrite length_map; assumption).
  rewrite (cosineSimilarity_closed_form a b) by assumption.
  rewrite magnitude_scale, sum_products_scale by assumption.
  set (ma := R_sqrt.sqrt (Algebra.sum_squares a)).
  set (mb := R_sqrt.sqrt (Algebra.sum_squares b)).
  set (d := Algebra.sum_products a b).
  unfold JsNumber.strict_eq.
  destruct (Req_dec_T (k * ma) 0) as [Hz|Hnz];
    destruct (Req_dec_T ma 0) as [Hz'|Hnz']; try reflexivity.
  - exfalso. apply Hnz'. destruct (Rmult_integral _ _ Hz); lra.
  - exfalso. apply Hnz. rewrite Hz'. lra.
  - destruct (Req_dec_T mb 0) as [|Hb]; [reflexivity|].
    simpl.
    destruct (Req_dec_T (k * ma * mb) 0) as [H0|_].
    + exfalso. destruct (Rmult_integral _ _ H0); contradiction.
    + destruct (Req_dec_T (ma * mb) 0) as [H0|_].
      * exfalso. destruct (Rmult_integral _ _ H0); contradiction.
      * f_equal. field. repeat split; lra.
Qed.

Lemma cosineSimilarity_scale_invariant_witness :
  Similarity.cosineSimilarity (List.map (Rmult 5) [3; 4]%R) [1; 2]%R
  = Similarity.cosineSimilarity [3; 4]%R [1; 2]%R.
Proof.
  apply (@cosineSimilarity_scale_invariant 5%R [3; 4]%R [1; 2]%R).
  - lra.
  - simpl. lia.
Defined.
